(** * config_loader: a shallow embedding of [src/config_loader.py]

    The development follows the layout of the module: YAML values and the
    exceptions the code can meet, the small coercion helpers, the config
    readers ([load_text_configs], [load_process_whitelist]), the asset
    scanners and the validator ([validate_assets]).

    Modelling conventions.
    - A [str] is a [string] of bytes.  Case folding, whitespace and digits
      are the ASCII ones; code points outside ASCII are left alone.
    - A [dict] is an association list in insertion order (iteration order
      of a Python dict).  Its keys are [str], as the module declares its
      mappings ([Dict[str, Dict]], [Dict[str, List[Dict]]]): a mapping
      with a key that is not a [str] is not a value of the model, and
      every statement below is about mappings with [str] keys.  (With a
      role key that is not a [str] the validator does not return: joining
      the role to a path raises [TypeError].)
    - The scalars are [None], [bool], [int] and [str]; floats, dates and
      binary data are not values of the model.  Integers are unbounded
      and memory is not a limit.
    - A [set] of ints or of role names is a [gset]; [sorted] is a merge
      sort of its elements.  The set of fonts is iterated without sorting:
      the order in which the interpreter does so is a parameter
      ([set_iter]) of the validator.
    - The lines of the report are kept as the f-string they come from and
      the values it formats ([message]).
    - Code that can raise lives in the [result] monad.
    - [validate_assets] is the function on values; [validate_assets_h] is
      the same function with its arguments and the objects it builds held
      by reference in a store. *)

From Stdlib Require Import ZArith Ascii String.
From stdpp Require Import base tactics option list list_numbers sorting gmap sets strings pretty.

Set Warnings "-register-all,-clear-no-such-hyp".
Local Open Scope Z_scope.

(** ** Values produced by [yaml.safe_load] *)

Inductive pyval : Type :=
| PNone
| PBool (b : bool)
| PInt (z : Z)
| PStr (s : string)
| PList (items : list pyval)
| PDict (entries : list (string * pyval)).

(** ** Exceptions and the error monad *)

Inductive exn : Type := TypeError | ValueError | KeyError | OSError | AttributeError.

Inductive result (A : Type) : Type :=
| Ok (a : A)
| Raise (e : exn).
Arguments Ok {A} a.
Arguments Raise {A} e.

#[global] Instance result_bind : MBind result := λ A B k m,
  match m with
  | Ok a => k a
  | Raise e => Raise e
  end.

(** A [for] loop whose body may raise: the state built so far is threaded
    through, and the first exception leaves the loop. *)
Fixpoint for_each {A S} (body : S → A → result S) (xs : list A) (s : S) : result S :=
  match xs with
  | [] => Ok s
  | x :: xs' => s' ← body s x; for_each body xs' s'
  end.

(** ** Dictionaries in insertion order *)

Module Dict.
Section ops.
Context {V : Type}.

Fixpoint get (k : string) (d : list (string * V)) : option V :=
  match d with
  | [] => None
  | (k', v) :: d' => if String.eqb k k' then Some v else get k d'
  end.

(** [d[k] = v]: an existing key keeps its position. *)
Fixpoint set (k : string) (v : V) (d : list (string * V)) : list (string * V) :=
  match d with
  | [] => [(k, v)]
  | (k', v') :: d' =>
      if String.eqb k k' then (k', v) :: d' else (k', v') :: set k v d'
  end.

Definition keys (d : list (string * V)) : list string := d.*1.

Definition mem (k : string) (d : list (string * V)) : bool :=
  match get k d with Some _ => true | None => false end.
End ops.
End Dict.

(** ** Strings: ASCII case folding, whitespace, digits *)

Definition is_upper (c : ascii) : bool :=
  let n := N_of_ascii c in (65 <=? n)%N && (n <=? 90)%N.

Definition lower_ascii (c : ascii) : ascii :=
  if is_upper c then ascii_of_N (N_of_ascii c + 32) else c.

(** [s.lower()] *)
Fixpoint lower (s : string) : string :=
  match s with
  | EmptyString => EmptyString
  | String c s' => String (lower_ascii c) (lower s')
  end.

(** [c.isspace()] on ASCII: tab, LF, VT, FF, CR, FS, GS, RS, US, space. *)
Definition is_space (c : ascii) : bool :=
  let n := N_of_ascii c in
  ((9 <=? n)%N && (n <=? 13)%N) || ((28 <=? n)%N && (n <=? 32)%N).

Fixpoint lstrip (s : string) : string :=
  match s with
  | EmptyString => EmptyString
  | String c s' => if is_space c then lstrip s' else s
  end.

Fixpoint rstrip (s : string) : string :=
  match s with
  | EmptyString => EmptyString
  | String c s' =>
      match rstrip s' with
      | EmptyString => if is_space c then EmptyString else String c EmptyString
      | t => String c t
      end
  end.

(** [s.strip()] *)
Definition strip (s : string) : string := rstrip (lstrip s).

Definition digit_val (c : ascii) : option Z :=
  let n := N_of_ascii c in
  if (48 <=? n)%N && (n <=? 57)%N then Some (Z.of_N n - 48) else None.

(** Reads a maximal run of decimal digits: the number of digits read, their
    value continuing from [acc], and the rest of the string. *)
Fixpoint read_digits (acc : Z) (s : string) : nat * Z * string :=
  match s with
  | EmptyString => (O, acc, s)
  | String c s' =>
      match digit_val c with
      | Some d => let '(n, v, rest) := read_digits (10 * acc + d) s' in (S n, v, rest)
      | None => (O, acc, s)
      end
  end.

(** The whitespace [int] skips around a literal: tab, LF, VT, FF, CR and
    space.  The separators FS, GS, RS and US, which [str.strip] removes,
    are not skipped by [int]. *)
Definition is_c_space (c : ascii) : bool :=
  let n := N_of_ascii c in
  ((9 <=? n)%N && (n <=? 13)%N) || (n =? 32)%N.

Fixpoint skip_c_spaces (s : string) : string :=
  match s with
  | EmptyString => EmptyString
  | String c s' => if is_c_space c then skip_c_spaces s' else s
  end.

Fixpoint all_c_space (s : string) : bool :=
  match s with
  | EmptyString => true
  | String c s' => is_c_space c && all_c_space s'
  end.

(** The interpreter's limit on the number of digits of a decimal literal
    given to [int] (the default of [sys.int_max_str_digits]). *)
Definition int_max_str_digits : nat := 4300.

(** The digit part of an [int] literal: groups of digits separated by single
    underscores, then nothing but whitespace.  [count] is the number of
    digits read so far. *)
Fixpoint read_int_body (fuel : nat) (count : nat) (acc : Z) (s : string)
    : option (nat * Z) :=
  match fuel with
  | O => None
  | S fuel' =>
      match read_digits acc s with
      | (O, _, _) => None
      | (n, v, String "_" rest) => read_int_body fuel' (count + n)%nat v rest
      | (n, v, rest) => if all_c_space rest then Some ((count + n)%nat, v) else None
      end
  end.

Definition int_digits (t : string) : option Z :=
  match read_int_body (S (String.length t)) 0 0 t with
  | Some (n, v) => if (n <=? int_max_str_digits)%nat then Some v else None
  | None => None
  end.

(** [int(s)] for a [str]: leading whitespace, an optional sign, the digits,
    trailing whitespace. *)
Definition int_of_str (s : string) : option Z :=
  match skip_c_spaces s with
  | String "-" t => Z.opp <$> int_digits t
  | String "+" t => int_digits t
  | t => int_digits t
  end.

(** [int(v)] *)
Definition py_int (v : pyval) : result Z :=
  match v with
  | PNone => Raise TypeError
  | PBool b => Ok (if b then 1 else 0)
  | PInt z => Ok z
  | PStr s => match int_of_str s with Some z => Ok z | None => Raise ValueError end
  | PList _ | PDict _ => Raise TypeError
  end.

(** ** Small coercion helpers *)

(** [_to_tuple2]: a sequence of length 2, each item through [int]. *)
Definition _to_tuple2 (v : pyval) : result (Z * Z) :=
  match v with
  | PList [a; b] => x ← py_int a; y ← py_int b; Ok (x, y)
  | _ => Raise ValueError
  end.

(** [_to_tuple3]: a sequence of length 3, each item through [int]. *)
Definition _to_tuple3 (v : pyval) : result (Z * Z * Z) :=
  match v with
  | PList [a; b; c] => x ← py_int a; y ← py_int b; z ← py_int c; Ok (x, y, z)
  | _ => Raise ValueError
  end.

(** [d.get(k)] and [d.get(k, default)] on a dict. *)
Definition py_get (k : string) (d : list (string * pyval)) : pyval :=
  default PNone (Dict.get k d).
Definition py_get_default (k : string) (dflt : pyval) (d : list (string * pyval)) : pyval :=
  default dflt (Dict.get k d).

(** ** Config readers *)

(** One entry of a role's text configuration, as [load_text_configs]
    stores it. *)
Record text_entry : Type := TextEntry {
  text : pyval;
  position : Z * Z;
  font_color : Z * Z * Z;
  font_size : Z
}.

(** The body of the [try] of [load_text_configs] for one dict item. *)
Definition parse_text_item (item : list (string * pyval)) : result text_entry :=
  let text := py_get_default "text" (PStr "") item in
  let text := match text with PNone => PStr "" | _ => text end in
  position ← _to_tuple2 (py_get "position" item);
  font_color ← _to_tuple3 (py_get "font_color" item);
  font_size ← py_int (py_get "font_size" item);
  Ok (TextEntry text position font_color font_size).

(** One turn of the inner loop: items that are not dicts and items whose
    parsing raises are skipped ([except Exception: continue]). *)
Definition text_item_step (out : list text_entry) (item : pyval) : list text_entry :=
  match item with
  | PDict d =>
      match parse_text_item d with
      | Ok e => out ++ [e]
      | Raise _ => out
      end
  | _ => out
  end.

(** One turn of the outer loop over [root.items()]. *)
Definition text_role_step (result : list (string * list text_entry))
    (kv : string * pyval) : list (string * list text_entry) :=
  match kv.2 with
  | PList items => Dict.set kv.1 (fold_left text_item_step items []) result
  | _ => result
  end.

(** [load_text_configs], from the value [_read_yaml] returned. *)
Definition load_text_configs (data : option (list (string * pyval)))
    : list (string * list text_entry) :=
  match data with
  | None | Some [] => []
  | Some d =>
      match Dict.get "text_configs" d with
      | Some (PDict root) => fold_left text_role_step root []
      | _ => []
      end
  end.

(** One turn of the loop of [load_process_whitelist]. *)
Definition whitelist_step (result : list string) (it : pyval) : list string :=
  match it with
  | PStr s => if String.eqb (strip s) "" then result else result ++ [strip s]
  | _ => result
  end.

(** [load_process_whitelist], from the value [_read_yaml] returned.  The
    key is [(os_name or "").lower()], for [os_name] a [str]. *)
Definition load_process_whitelist (data : option (list (string * pyval)))
    (os_name : string) : list string :=
  match data with
  | None | Some [] => []
  | Some d =>
      let key := lower (if String.eqb os_name "" then "" else os_name) in
      match Dict.get key d with
      | Some (PList items) => fold_left whitelist_step items []
      | _ => []
      end
  end.

(** ** The assets directory *)

(** What [os.path.isdir] followed by [os.listdir] gives for a path: not a
    directory, the names in it (in the order the system lists them), or a
    directory whose listing fails with [OSError]. *)
Inductive listing : Type :=
| NotADirectory
| Entries (names : list string)
| Unreadable.

Record assets : Type := Assets {
  background_dir : listing;          (* <assets_dir>/background *)
  chara_dir : listing;               (* <assets_dir>/chara *)
  chara_isdir : string → bool;       (* isdir(<assets_dir>/chara/<name>) *)
  role_dir : string → listing;       (* <assets_dir>/chara/<role> *)
  font_isfile : string → bool        (* isfile(<assets_dir>/fonts/<font>) *)
}.

(** The tail [\.png$] of both patterns, case-insensitive; [$] also matches
    before a final line feed. *)
Definition is_png_tail (s : string) : bool :=
  let t := lower s in
  String.eqb t ".png" || String.eqb t (".png" ++ String (ascii_of_N 10) "").

(** [^c(\d+)\.png$], case-insensitive: the integer of group 1. *)
Definition match_background (name : string) : option Z :=
  match name with
  | String c rest =>
      if Ascii.eqb (lower_ascii c) "c" then
        match read_digits 0 rest with
        | (S _, v, tail) => if is_png_tail tail then Some v else None
        | _ => None
        end
      else None
  | EmptyString => None
  end.

(** Removes the literal [role] from the front of [name], ignoring case. *)
Fixpoint drop_prefix_ci (role name : string) : option string :=
  match role, name with
  | EmptyString, _ => Some name
  | String a role', String b name' =>
      if Ascii.eqb (lower_ascii a) (lower_ascii b) then drop_prefix_ci role' name' else None
  | String _ _, EmptyString => None
  end.

(** [^<role>\s*\((\d+)\)\.png$], case-insensitive: the integer of group 1. *)
Definition match_diff (role name : string) : option Z :=
  match drop_prefix_ci role name with
  | Some rest =>
      match lstrip rest with
      | String "(" rest' =>
          match read_digits 0 rest' with
          | (S _, v, String ")" tail) => if is_png_tail tail then Some v else None
          | _ => None
          end
      | _ => None
      end
  | None => None
  end.

(** The loop shared by the two index scanners: [found.add(int(m.group(1)))]
    for every name the pattern matches.  ([int] fails on group 1 only
    beyond [int_max_str_digits] digits, more than a file name holds; the
    [except] around it is not modelled.) *)
Definition collect_indexes (rex : string → option Z) (names : list string) : gset Z :=
  fold_left (λ found name,
    match rex name with
    | Some k => found ∪ {[k]}
    | None => found
    end) names ∅.

Definition _scan_backgrounds (fs : assets) : result (gset Z) :=
  match background_dir fs with
  | NotADirectory => Ok ∅
  | Entries names => Ok (collect_indexes match_background names)
  | Unreadable => Raise OSError
  end.

Definition _scan_roles_in_assets (fs : assets) : result (gset string) :=
  match chara_dir fs with
  | NotADirectory => Ok ∅
  | Entries names =>
      Ok (fold_left (λ roles name,
            if chara_isdir fs name then roles ∪ {[name]} else roles) names ∅)
  | Unreadable => Raise OSError
  end.

Definition _scan_role_diffs (fs : assets) (role : string) : result (gset Z) :=
  match role_dir fs role with
  | NotADirectory => Ok ∅
  | Entries names => Ok (collect_indexes (match_diff role) names)
  | Unreadable => Raise OSError
  end.

(** ** Hashable values and the set of fonts *)

(** The values of the model that can be members of a [set]. *)
Inductive hval : Type :=
| HNone
| HBool (b : bool)
| HInt (z : Z)
| HStr (s : string).

(** Hashing a value: lists and dicts are unhashable ([TypeError]). *)
Definition to_hashable (v : pyval) : result hval :=
  match v with
  | PNone => Ok HNone
  | PBool b => Ok (HBool b)
  | PInt z => Ok (HInt z)
  | PStr s => Ok (HStr s)
  | PList _ | PDict _ => Raise TypeError
  end.

(** [==] on hashable values: [True == 1] and [False == 0]. *)
Definition hval_eqb (a b : hval) : bool :=
  match a, b with
  | HNone, HNone => true
  | HStr s, HStr t => String.eqb s t
  | HBool x, HBool y => Bool.eqb x y
  | HInt x, HInt y => Z.eqb x y
  | HBool x, HInt y | HInt y, HBool x => Z.eqb (if x then 1 else 0) y
  | _, _ => false
  end.

(** [s.add(v)]: a value equal to a member is not added. *)
Definition set_add (s : list hval) (v : hval) : list hval :=
  if existsb (hval_eqb v) s then s else s ++ [v].

(** [str(v)], as used in the font path and in the f-string. *)
Definition py_str (v : hval) : string :=
  match v with
  | HNone => "None"
  | HBool b => if b then "True" else "False"
  | HInt z => pretty z
  | HStr s => s
  end.

(** ** Python's [in] and subscript with a [str] key *)

Fixpoint contains_sub (p s : string) : bool :=
  String.prefix p s ||
  match s with
  | EmptyString => false
  | String _ s' => contains_sub p s'
  end.

Definition is_str (k : string) (v : pyval) : bool :=
  match v with PStr s => String.eqb k s | _ => false end.

(** [k in v] *)
Definition py_contains (k : string) (v : pyval) : result bool :=
  match v with
  | PDict d => Ok (Dict.mem k d)
  | PList l => Ok (existsb (is_str k) l)
  | PStr s => Ok (contains_sub k s)
  | PNone | PBool _ | PInt _ => Raise TypeError
  end.

(** [v[k]] *)
Definition py_getitem (v : pyval) (k : string) : result pyval :=
  match v with
  | PDict d => match Dict.get k d with Some x => Ok x | None => Raise KeyError end
  | _ => Raise TypeError
  end.

(** ** The validation report *)

(** The lines of the report.  Each constructor is one f-string of
    [validate_assets] with the values it formats. *)
Inductive message : Type :=
| MissingBackgrounds (miss_bg : list Z)          (* "缺少背景: {miss_bg}" *)
| ExtraBackgrounds (extra_bg : list Z)           (* "多余背景: {extra_bg}" *)
| MissingRoleDirs (miss_roles : list string)     (* "缺少角色目录: {miss_roles}" *)
| UnconfiguredRoleDirs (extra_roles : list string) (* "资产中存在未配置角色: {extra_roles}" *)
| MissingFont (font : hval)                      (* "缺少字体文件: {font}" *)
| MissingDiffs (role : string) (miss : list Z)   (* "角色 {role} 缺少差分: {miss}" *)
| ExtraDiffs (role : string) (extra : list Z)    (* "角色 {role} 多余差分: {extra}" *)
| TextRolesUnconfigured (diff_a : list string)   (* "文字配置存在未配置角色: {diff_a}" *)
| RolesWithoutText (diff_b : list string).       (* "角色配置缺少文字配置: {diff_b}" *)

Record role_stat : Type := RoleStat {
  stat_expected : nat;
  stat_found : nat
}.

Record stats_t : Type := Stats {
  stats_backgrounds_found : nat;
  stats_roles : list (string * role_stat)
}.

Record report : Type := Report {
  ok : bool;
  errors : list message;
  warnings : list message;
  stats : stats_t
}.

(** [sorted(s)] for a set of ints and for a set of strings. *)
Definition sorted_ints (s : gset Z) : list Z := merge_sort Z.le (elements s).
Definition sorted_strs (s : gset string) : list string := merge_sort String.le (elements s).

(** [if l: out.append(m)] *)
Definition append_if_nonempty {A} (l : list A) (m : message) (out : list message)
    : list message :=
  match l with
  | [] => out
  | _ :: _ => out ++ [m]
  end.

(** [set(range(1, n + 1))] *)
Definition range_set (n : Z) : gset Z := list_to_set (seqZ 1 n).

(** ** The validator *)

Section validator.
(** The order in which the interpreter iterates over a set, given its
    members in insertion order.  It depends on the hashes of the members
    (for strings, on the hash seed of the process). *)
Variable set_iter : list hval → list hval.

(** The set comprehension of the font check. *)
Definition font_step (meta : list (string * pyval)) (fonts : list hval) (r : string)
    : result (list hval) :=
  match Dict.get r meta with
  | Some (PDict d) => font ← to_hashable (py_get "font" d); Ok (set_add fonts font)
  | _ => Ok fonts
  end.

(** The body of the loop over the fonts. *)
Definition font_check (fs : assets) (errors : list message) (font : hval) : list message :=
  if font_isfile fs (py_str font) then errors else errors ++ [MissingFont font].

(** [int(entry["emotion_count"]) if "emotion_count" in entry else 0] *)
Definition emotion_count_of (entry : pyval) : result Z :=
  has_ec ← py_contains "emotion_count" entry;
  if (has_ec : bool) then v ← py_getitem entry "emotion_count"; py_int v else Ok 0.

(** The body of the loop over the configured roles (differentials).  The
    conditional expression reads [meta[role]] twice with nothing in
    between; one lookup stands for both. *)
Definition diff_step (meta : list (string * pyval)) (fs : assets)
    (st : list message * list message * list (string * role_stat)) (role : string)
    : result (list message * list message * list (string * role_stat)) :=
  let '(errors, warnings, roles) := st in
  entry ← match Dict.get role meta with Some v => Ok v | None => Raise KeyError end;
  ec ← emotion_count_of entry;
  let expected := range_set ec in
  found ← _scan_role_diffs fs role;
  let roles := Dict.set role (RoleStat (size expected) (size found)) roles in
  let miss := sorted_ints (expected ∖ found) in
  let extra := sorted_ints (found ∖ expected) in
  let errors := append_if_nonempty miss (MissingDiffs role miss) errors in
  let warnings := append_if_nonempty extra (ExtraDiffs role extra) warnings in
  Ok (errors, warnings, roles).

(** The text-configuration part: only for a non-empty mapping. *)
Definition text_check {T} (cfg_roles : list string)
    (text_cfg : option (list (string * T))) (warnings : list message) : list message :=
  match text_cfg with
  | None | Some [] => warnings
  | Some tc =>
      let text_roles : gset string := list_to_set (Dict.keys tc) in
      let cfg_roles_set : gset string := list_to_set cfg_roles in
      let diff_a := sorted_strs (text_roles ∖ cfg_roles_set) in
      let diff_b := sorted_strs (cfg_roles_set ∖ text_roles) in
      let warnings := append_if_nonempty diff_a (TextRolesUnconfigured diff_a) warnings in
      append_if_nonempty diff_b (RolesWithoutText diff_b) warnings
  end.

Definition validate_assets {T} (meta : list (string * pyval))
    (text_cfg : option (list (string * T))) (fs : assets) : result report :=
  let errors : list message := [] in
  let warnings : list message := [] in
  (* backgrounds *)
  bg_found ← _scan_backgrounds fs;
  let expected_bg := range_set 16 in
  let stats_bg := size bg_found in
  let miss_bg := sorted_ints (expected_bg ∖ bg_found) in
  let extra_bg := sorted_ints (bg_found ∖ expected_bg) in
  let errors := append_if_nonempty miss_bg (MissingBackgrounds miss_bg) errors in
  let warnings := append_if_nonempty extra_bg (ExtraBackgrounds extra_bg) warnings in
  (* role directories *)
  let cfg_roles := Dict.keys meta in
  assets_roles ← _scan_roles_in_assets fs;
  let miss_roles := sorted_strs (list_to_set cfg_roles ∖ assets_roles) in
  let extra_roles := sorted_strs (assets_roles ∖ list_to_set cfg_roles) in
  let errors := append_if_nonempty miss_roles (MissingRoleDirs miss_roles) errors in
  let warnings := append_if_nonempty extra_roles (UnconfiguredRoleDirs extra_roles) warnings in
  (* fonts *)
  fonts ← for_each (font_step meta) cfg_roles [];
  let errors := fold_left (font_check fs) (set_iter fonts) errors in
  (* differentials *)
  '(errors, warnings, roles) ← for_each (diff_step meta fs) cfg_roles (errors, warnings, []);
  (* text configuration *)
  let warnings := text_check cfg_roles text_cfg warnings in
  let ok := Nat.eqb (length errors) 0 in
  Ok (Report ok errors warnings (Stats stats_bg roles)).
End validator.


(** ** The validator over a store of objects

    Python passes [meta] and [text_cfg] by reference, and the lists and
    dicts the validator builds are objects too.  Here the objects live in a
    store; a location is an index in it.  An object of the caller is held
    as a whole value (a nested dict or list is part of the value of the
    object that contains it).  The statements of [validate_assets] that
    read or update an object are the operations below. *)

Inductive cell : Type :=
| CValue (v : pyval)                  (* an object of the caller *)
| CMessages (lines : list message)    (* [errors], [warnings] *)
| CStats (backgrounds : option nat) (roles : list (string * role_stat)).
                                      (* [stats]; no ["found"] at first *)

Definition M (A : Type) : Type := list cell → result (A * list cell).

#[global] Instance M_ret : MRet M := λ A a h, Ok (a, h).

#[global] Instance M_bind : MBind M := λ A B k m h,
  match m h with
  | Ok (a, h') => k a h'
  | Raise e => Raise e
  end.

(** A computation that does not touch the store. *)
Definition lift {A} (m : result A) : M A := λ h,
  match m with
  | Ok a => Ok (a, h)
  | Raise e => Raise e
  end.

(** A new object. *)
Definition alloc (c : cell) : M nat := λ h, Ok (length h, h ++ [c]).

(** [l.append(m)] *)
Definition append (l : nat) (m : message) : M unit := λ h,
  match h !! l with
  | Some (CMessages lines) => Ok ((), <[l := CMessages (lines ++ [m])]> h)
  | _ => Raise AttributeError
  end.

(** [len(l)], through the lines of the list [l]. *)
Definition read_messages (l : nat) : M (list message) := λ h,
  match h !! l with
  | Some (CMessages lines) => Ok (lines, h)
  | _ => Raise AttributeError
  end.

(** [stats["backgrounds"] = {"found": n}] *)
Definition set_backgrounds (l : nat) (n : nat) : M unit := λ h,
  match h !! l with
  | Some (CStats _ roles) => Ok ((), <[l := CStats (Some n) roles]> h)
  | _ => Raise TypeError
  end.

(** [stats["roles"][role] = st] *)
Definition set_role_stat (l : nat) (role : string) (st : role_stat) : M unit := λ h,
  match h !! l with
  | Some (CStats bg roles) => Ok ((), <[l := CStats bg (Dict.set role st roles)]> h)
  | _ => Raise TypeError
  end.

(** The object behind a reference of the caller. *)
Definition read_value (l : nat) : M pyval := λ h,
  match h !! l with
  | Some (CValue v) => Ok (v, h)
  | _ => Raise AttributeError
  end.

(** [list(d.keys())] *)
Definition keys_of (l : nat) : M (list string) :=
  v ← read_value l;
  match v with
  | PDict d => mret (Dict.keys d)
  | _ => lift (Raise AttributeError)
  end.

(** [d.get(k)]: [None] of the model for an absent key. *)
Definition get_of (l : nat) (k : string) : M (option pyval) :=
  v ← read_value l;
  match v with
  | PDict d => mret (Dict.get k d)
  | _ => lift (Raise AttributeError)
  end.

(** [d[k]] *)
Definition getitem_of (l : nat) (k : string) : M pyval :=
  v ← read_value l;
  match v with
  | PDict d => lift (match Dict.get k d with Some x => Ok x | None => Raise KeyError end)
  | _ => lift (Raise TypeError)
  end.

(** [bool(v)] *)
Definition py_truthy (v : pyval) : bool :=
  match v with
  | PNone => false
  | PBool b => b
  | PInt z => negb (Z.eqb z 0)
  | PStr s => negb (String.eqb s "")
  | PList l => match l with [] => false | _ => true end
  | PDict d => match d with [] => false | _ => true end
  end.

(** [if l: out.append(m)] on the store. *)
Definition append_if_nonempty_h {A} (l : list A) (out : nat) (m : message) : M unit :=
  match l with
  | [] => mret ()
  | _ :: _ => append out m
  end.

Fixpoint for_each_h {A S} (body : S → A → M S) (xs : list A) (s : S) : M S :=
  match xs with
  | [] => mret s
  | x :: xs' => s' ← body s x; for_each_h body xs' s'
  end.

(** What [validate_assets] returns: [ok] and the references to the three
    objects of the report. *)
Record report_refs : Type := ReportRefs {
  ref_ok : bool;
  ref_errors : nat;
  ref_warnings : nat;
  ref_stats : nat
}.

Section validator_store.
Variable set_iter : list hval → list hval.

Definition font_step_h (meta : nat) (fonts : list hval) (r : string) : M (list hval) :=
  entry ← get_of meta r;
  match entry with
  | Some (PDict _) =>
      entry ← getitem_of meta r;
      match entry with
      | PDict d => font ← lift (to_hashable (py_get "font" d)); mret (set_add fonts font)
      | _ => lift (Raise AttributeError)
      end
  | _ => mret fonts
  end.

Definition font_check_h (fs : assets) (errors : nat) (_ : unit) (font : hval) : M unit :=
  if font_isfile fs (py_str font) then mret () else append errors (MissingFont font).

Definition diff_step_h (meta : nat) (fs : assets) (errors warnings stats : nat)
    (_ : unit) (role : string) : M unit :=
  entry ← getitem_of meta role;
  ec ← lift (emotion_count_of entry);
  let expected := range_set ec in
  found ← lift (_scan_role_diffs fs role);
  _ ← set_role_stat stats role (RoleStat (size expected) (size found));
  let miss := sorted_ints (expected ∖ found) in
  let extra := sorted_ints (found ∖ expected) in
  _ ← append_if_nonempty_h miss errors (MissingDiffs role miss);
  append_if_nonempty_h extra warnings (ExtraDiffs role extra).

Definition text_check_h (cfg_roles : list string) (text_cfg warnings : nat) : M unit :=
  tc ← read_value text_cfg;
  if py_truthy tc then
    keys ← keys_of text_cfg;
    let text_roles : gset string := list_to_set keys in
    let cfg_roles_set : gset string := list_to_set cfg_roles in
    let diff_a := sorted_strs (text_roles ∖ cfg_roles_set) in
    let diff_b := sorted_strs (cfg_roles_set ∖ text_roles) in
    _ ← append_if_nonempty_h diff_a warnings (TextRolesUnconfigured diff_a);
    append_if_nonempty_h diff_b warnings (RolesWithoutText diff_b)
  else mret ().

Definition validate_assets_h (meta text_cfg : nat) (fs : assets) : M report_refs :=
  errors ← alloc (CMessages []);
  warnings ← alloc (CMessages []);
  stats ← alloc (CStats None []);
  (* backgrounds *)
  bg_found ← lift (_scan_backgrounds fs);
  let expected_bg := range_set 16 in
  _ ← set_backgrounds stats (size bg_found);
  let miss_bg := sorted_ints (expected_bg ∖ bg_found) in
  let extra_bg := sorted_ints (bg_found ∖ expected_bg) in
  _ ← append_if_nonempty_h miss_bg errors (MissingBackgrounds miss_bg);
  _ ← append_if_nonempty_h extra_bg warnings (ExtraBackgrounds extra_bg);
  (* role directories *)
  cfg_roles ← keys_of meta;
  assets_roles ← lift (_scan_roles_in_assets fs);
  let miss_roles := sorted_strs (list_to_set cfg_roles ∖ assets_roles) in
  let extra_roles := sorted_strs (assets_roles ∖ list_to_set cfg_roles) in
  _ ← append_if_nonempty_h miss_roles errors (MissingRoleDirs miss_roles);
  _ ← append_if_nonempty_h extra_roles warnings (UnconfiguredRoleDirs extra_roles);
  (* fonts *)
  fonts ← for_each_h (font_step_h meta) cfg_roles [];
  _ ← for_each_h (font_check_h fs errors) (set_iter fonts) ();
  (* differentials *)
  _ ← for_each_h (diff_step_h meta fs errors warnings stats) cfg_roles ();
  (* text configuration *)
  _ ← text_check_h cfg_roles text_cfg warnings;
  lines ← read_messages errors;
  mret (ReportRefs (Nat.eqb (length lines) 0) errors warnings stats).
End validator_store.

(** ** Vocabulary of the statements *)

Definition is_Ok {A} (m : result A) : Prop := ∃ a, m = Ok a.

(** [l] lists, in increasing order and each once, the integers (strings)
    that satisfy [P]. *)
Definition lists_ints (l : list Z) (P : Z → Prop) : Prop :=
  Sorted Z.le l ∧ NoDup l ∧ ∀ k, k ∈ l ↔ P k.

Definition lists_strs (l : list string) (P : string → Prop) : Prop :=
  Sorted String.le l ∧ NoDup l ∧ ∀ k, k ∈ l ↔ P k.

#[global] Instance hval_eq_dec : EqDecision hval.
Proof. solve_decision. Defined.

(** The lines of the background check. *)
Definition is_background_msg (m : message) : bool :=
  match m with
  | MissingBackgrounds _ | ExtraBackgrounds _ => true
  | _ => false
  end.

(** The lines of the font check. *)
Definition is_font_msg (m : message) : bool :=
  match m with
  | MissingFont _ => true
  | _ => false
  end.

(** The line of the font check for the font [font]. *)
Definition is_font_line (font : hval) (m : message) : bool :=
  match m with
  | MissingFont f => bool_decide (f = font)
  | _ => false
  end.

(** The role [role] of [meta] is configured with the font file [s]. *)
Definition references_font (meta : list (string * pyval)) (role s : string) : Prop :=
  ∃ d, Dict.get role meta = Some (PDict d) ∧ py_get "font" d = PStr s.

(** The lines of the differential check of one role. *)
Definition is_diff_msg (role : string) (m : message) : bool :=
  match m with
  | MissingDiffs r _ | ExtraDiffs r _ => String.eqb r role
  | _ => false
  end.

(** The lists embedded in a line are in increasing order. *)
Definition message_sorted (m : message) : Prop :=
  match m with
  | MissingBackgrounds l | ExtraBackgrounds l
  | MissingDiffs _ l | ExtraDiffs _ l => Sorted Z.le l
  | MissingRoleDirs l | UnconfiguredRoleDirs l
  | TextRolesUnconfigured l | RolesWithoutText l => Sorted String.le l
  | MissingFont _ => True
  end.

(** ** The validator, check by check

    The pieces below name what each check of [validate_assets] contributes;
    [validate_assets_Ok] relates them to the function. *)

Definition bg_errors (bg_found : gset Z) : list message :=
  let miss_bg := sorted_ints (range_set 16 ∖ bg_found) in
  append_if_nonempty miss_bg (MissingBackgrounds miss_bg) [].

Definition bg_warnings (bg_found : gset Z) : list message :=
  let extra_bg := sorted_ints (bg_found ∖ range_set 16) in
  append_if_nonempty extra_bg (ExtraBackgrounds extra_bg) [].

Definition role_dir_errors (cfg_roles : list string) (assets_roles : gset string)
    : list message :=
  let miss_roles := sorted_strs (list_to_set cfg_roles ∖ assets_roles) in
  append_if_nonempty miss_roles (MissingRoleDirs miss_roles) [].

Definition role_dir_warnings (cfg_roles : list string) (assets_roles : gset string)
    : list message :=
  let extra_roles := sorted_strs (assets_roles ∖ list_to_set cfg_roles) in
  append_if_nonempty extra_roles (UnconfiguredRoleDirs extra_roles) [].

Definition font_missing (fs : assets) (font : hval) : bool :=
  negb (font_isfile fs (py_str font)).

Definition font_errors (fs : assets) (fonts : list hval) : list message :=
  MissingFont <$> filter (λ font, font_missing fs font = true) fonts.

(** The expected and the found indices of a role, as one turn of the
    differential loop computes them. *)
Definition role_sets (meta : list (string * pyval)) (fs : assets) (role : string)
    : result (gset Z * gset Z) :=
  entry ← match Dict.get role meta with Some v => Ok v | None => Raise KeyError end;
  ec ← emotion_count_of entry;
  found ← _scan_role_diffs fs role;
  Ok (range_set ec, found).

Definition role_sets_or_empty (meta : list (string * pyval)) (fs : assets) (role : string)
    : gset Z * gset Z :=
  match role_sets meta fs role with
  | Ok p => p
  | Raise _ => (∅, ∅)
  end.

Definition diff_errors (role : string) (p : gset Z * gset Z) : list message :=
  let miss := sorted_ints (p.1 ∖ p.2) in
  append_if_nonempty miss (MissingDiffs role miss) [].

Definition diff_warnings (role : string) (p : gset Z * gset Z) : list message :=
  let extra := sorted_ints (p.2 ∖ p.1) in
  append_if_nonempty extra (ExtraDiffs role extra) [].

Definition diff_stat (p : gset Z * gset Z) : role_stat :=
  RoleStat (size p.1) (size p.2).

Definition all_diff_errors (meta : list (string * pyval)) (fs : assets)
    (roles : list string) : list message :=
  flat_map (λ role, diff_errors role (role_sets_or_empty meta fs role)) roles.

Definition all_diff_warnings (meta : list (string * pyval)) (fs : assets)
    (roles : list string) : list message :=
  flat_map (λ role, diff_warnings role (role_sets_or_empty meta fs role)) roles.

Definition all_diff_stats (meta : list (string * pyval)) (fs : assets)
    (roles : list string) (acc : list (string * role_stat)) : list (string * role_stat) :=
  fold_left (λ acc role, Dict.set role (diff_stat (role_sets_or_empty meta fs role)) acc)
    roles acc.

(** The report assembled from the results of the scans. *)
Definition report_of {T} (set_iter : list hval → list hval)
    (meta : list (string * pyval)) (text_cfg : option (list (string * T)))
    (fs : assets) (bg_found : gset Z) (assets_roles : gset string) (fonts : list hval)
    : report :=
  let cfg_roles := Dict.keys meta in
  let errors :=
    bg_errors bg_found ++ role_dir_errors cfg_roles assets_roles ++
    font_errors fs (set_iter fonts) ++ all_diff_errors meta fs cfg_roles in
  let warnings :=
    text_check cfg_roles text_cfg
      (bg_warnings bg_found ++ role_dir_warnings cfg_roles assets_roles ++
       all_diff_warnings meta fs cfg_roles) in
  Report (Nat.eqb (length errors) 0) errors warnings
    (Stats (size bg_found) (all_diff_stats meta fs cfg_roles [])).

(** A role entry as [load_chara_meta] stores them, as far as the validator
    looks at it: a dict whose [font] can be put in a set and whose
    [emotion_count], when present, is accepted by [int]. *)
Definition well_typed_entry (entry : pyval) : Prop :=
  ∃ d, entry = PDict d ∧
       is_Ok (to_hashable (py_get "font" d)) ∧
       match Dict.get "emotion_count" d with
       | None => True
       | Some v => is_Ok (py_int v)
       end.

(** Every directory the validator lists for these roles can be listed. *)
Definition listable (fs : assets) (roles : list string) : Prop :=
  background_dir fs ≠ Unreadable ∧
  chara_dir fs ≠ Unreadable ∧
  ∀ role, role ∈ roles → role_dir fs role ≠ Unreadable.

(** Two listings of the same directory content: the system may list the
    names in any order. *)
Definition same_listing (a b : listing) : Prop :=
  match a, b with
  | NotADirectory, NotADirectory => True
  | Unreadable, Unreadable => True
  | Entries l, Entries l' => l ≡ₚ l'
  | _, _ => False
  end.

(** Two observations of the same assets directory. *)
Definition same_assets (fs fs' : assets) : Prop :=
  same_listing (background_dir fs) (background_dir fs') ∧
  same_listing (chara_dir fs) (chara_dir fs') ∧
  (∀ name, chara_isdir fs name = chara_isdir fs' name) ∧
  (∀ role, same_listing (role_dir fs role) (role_dir fs' role)) ∧
  (∀ font, font_isfile fs font = font_isfile fs' font).

(** The whitelist in the words of the specification.  Whitespace is the
    ASCII characters [str.isspace] holds of: space, tab, LF, VT, FF, CR and
    the separators FS, GS, RS, US. *)
Definition whitespace : list ascii :=
  [" "; "009"; "010"; "011"; "012"; "013"; "028"; "029"; "030"; "031"]%char.

(** A blank string holds nothing but whitespace. *)
Fixpoint blank (s : string) : Prop :=
  match s with
  | EmptyString => True
  | String c s' => c ∈ whitespace ∧ blank s'
  end.

(** [t] is [s] trimmed: [s] is [t] between two blank strings, and [t]
    neither begins nor ends with whitespace. *)
Definition trimmed_of (s t : string) : Prop :=
  (∃ pre post, s = pre +:+ t +:+ post ∧ blank pre ∧ blank post) ∧
  (∀ c t', t = String c t' → c ∉ whitespace) ∧
  (∀ t' c, t = t' +:+ String c "" → c ∉ whitespace).

(** [out] is the whitelist of [items]: the string entries that are not
    blank, each trimmed, in their order; the other items are dropped. *)
Inductive whitelist_of : list pyval → list string → Prop :=
| whitelist_nil : whitelist_of [] []
| whitelist_keep s t items out :
    trimmed_of s t → t ≠ "" → whitelist_of items out →
    whitelist_of (PStr s :: items) (t :: out)
| whitelist_blank s items out :
    blank s → whitelist_of items out → whitelist_of (PStr s :: items) out
| whitelist_not_str v items out :
    (∀ s, v ≠ PStr s) → whitelist_of items out → whitelist_of (v :: items) out.

(** Lower-casing in the words of the specification: each capital letter
    of the table is replaced by the letter beside it, every other
    character is kept. *)
Definition letter_table : list (ascii * ascii) :=
  zip (list_ascii_of_string "ABCDEFGHIJKLMNOPQRSTUVWXYZ")
      (list_ascii_of_string "abcdefghijklmnopqrstuvwxyz").

Fixpoint lowercase_char (table : list (ascii * ascii)) (c : ascii) : ascii :=
  match table with
  | [] => c
  | (capital, small) :: table' =>
      if Ascii.eqb c capital then small else lowercase_char table' c
  end.

Fixpoint lowercase (s : string) : string :=
  match s with
  | EmptyString => EmptyString
  | String c s' => String (lowercase_char letter_table c) (lowercase s')
  end.

(** The same list as a function of the items, with the reader's [strip]. *)
Definition trimmed_entries (items : list pyval) : list string :=
  omap (λ it,
    match it with
    | PStr s => if decide (strip s = "") then None else Some (strip s)
    | _ => None
    end) items.

(** The entry a well-formed item of a text configuration is read as; [None]
    for an item that is malformed and skipped. *)
Definition text_item_ok (item : pyval) : option text_entry :=
  match item with
  | PDict d =>
      match parse_text_item d with
      | Ok e => Some e
      | Raise _ => None
      end
  | _ => None
  end.

(** The computation [m] leaves the first [n] objects of the store as they
    are, never shrinks the store, and gives a result that satisfies [Q]. *)
Definition keeps {A} (n : nat) (Q : A → Prop) (m : M A) : Prop :=
  ∀ h a h', (n ≤ length h)%nat → m h = Ok (a, h') →
    take n h' = take n h ∧ (length h ≤ length h')%nat ∧ Q a.

(** The store after the validator created its three objects behind the
    objects [h] of the caller. *)
Definition with_report (h : list cell) (errors warnings : list message)
    (backgrounds : option nat) (roles : list (string * role_stat)) : list cell :=
  h ++ [CMessages errors; CMessages warnings; CStats backgrounds roles].

(** The text configuration an object stands for: none when it is falsy, the
    mapping when it is a non-empty dict. *)
Definition text_view (v : pyval) : option (option (list (string * pyval))) :=
  if py_truthy v then
    match v with
    | PDict d => Some (Some d)
    | _ => None
    end
  else Some None.

(** ** Sample inputs *)

Definition background_names : list string :=
  (λ k : Z, "c" +:+ pretty k +:+ ".png") <$> seqZ 1 16.

(** The end-to-end example of the specification: one role [luna] with two
    differentials and its font, and the sixteen backgrounds. *)
Definition luna_meta : list (string * pyval) :=
  [("luna", PDict [("emotion_count", PInt 2); ("font", PStr "luna.ttf");
                   ("full_name", PStr "")])].

Definition luna_assets : assets :=
  Assets (Entries background_names) (Entries ["luna"]) (λ _, true)
    (λ role, if String.eqb role "luna"
             then Entries ["luna(1).png"; "luna(2).png"] else NotADirectory)
    (λ font, String.eqb font "luna.ttf").

(** An assets directory with nothing in it. *)
Definition empty_assets : assets :=
  Assets NotADirectory NotADirectory (λ _, false) (λ _, NotADirectory) (λ _, false).

(** The same directory for [luna] with background 5 removed. *)
Definition no_c5_assets : assets :=
  Assets (Entries (filter (λ name, name ≠ "c5.png") background_names))
    (chara_dir luna_assets) (chara_isdir luna_assets) (role_dir luna_assets)
    (font_isfile luna_assets).

(** A role with three declared differentials of which two are on disk. *)
Definition mira_meta : list (string * pyval) :=
  [("mira", PDict [("emotion_count", PInt 3); ("font", PStr "mira.ttf")])].

Definition mira_assets : assets :=
  Assets (Entries background_names) (Entries ["mira"]) (λ _, true)
    (λ role, if String.eqb role "mira"
             then Entries ["mira(2).png"; "mira(1).png"] else NotADirectory)
    (λ font, String.eqb font "mira.ttf").

(** Two roles sharing one font whose file is missing. *)
Definition twins_meta : list (string * pyval) :=
  [("ann", PDict [("emotion_count", PInt 1); ("font", PStr "shared.ttf")]);
   ("bea", PDict [("emotion_count", PInt 1); ("font", PStr "shared.ttf")])].

Definition twins_assets : assets :=
  Assets (Entries background_names) (Entries ["ann"; "bea"]) (λ _, true)
    (λ role, Entries [role +:+ "(1).png"])
    (λ _, false).







(** The directory of [luna] listed by the system in the opposite order. *)
Definition relist (l : listing) : listing :=
  match l with
  | Entries names => Entries (reverse names)
  | _ => l
  end.

Definition luna_assets_relisted : assets :=
  Assets (relist (background_dir luna_assets)) (relist (chara_dir luna_assets))
    (chara_isdir luna_assets) (λ role, relist (role_dir luna_assets role))
    (font_isfile luna_assets).

(** A text configuration whose only role has nothing but malformed items. *)
Definition malformed_text_data : option (list (string * pyval)) :=
  Some [("text_configs",
         PDict [("luna", PList [PInt 1; PDict [("position", PList [PInt 1])]]);
                ("sol", PStr "none")])].

(** A whitelist document. *)
Definition whitelist_data : option (list (string * pyval)) :=
  Some [("win32", PList [PStr " game.exe "; PInt 3; PStr "   "; PStr "launcher.exe"]);
        ("darwin", PList [PStr "Game"])].

(** A store holding the metadata of [luna] and a text configuration. *)
Definition luna_store : list cell :=
  [CValue (PDict luna_meta); CValue (PDict [("nobody", PList [])])].

(** A directory on disk that no role of the metadata declares. *)
Definition ghost_assets : assets :=
  Assets (background_dir luna_assets) (Entries ["luna"; "ghost"; "notes.txt"])
    (λ name, negb (String.eqb name "notes.txt"))
    (role_dir luna_assets) (font_isfile luna_assets).

(** ** The character metadata reader *)

(** The body of the [try] of [load_chara_meta] for one role: the entry that
    is stored, or the exception that makes the role be skipped. *)
Definition parse_chara_cfg (cfg : list (string * pyval)) : result pyval :=
  ec ← py_int (py_get "emotion_count" cfg);
  if ec <=? 0 then Raise ValueError
  else
    match py_get "font" cfg with
    | PStr font =>
        if String.eqb font "" then Raise ValueError
        else
          let full_name :=
            match py_get_default "full_name" (PStr "") cfg with
            | PStr s => s
            | _ => ""
            end in
          Ok (PDict [("emotion_count", PInt ec); ("font", PStr font);
                     ("full_name", PStr full_name)])
    | _ => Raise ValueError
    end.

(** One turn of the loop over [root.items()]. *)
Definition chara_role_step (result : list (string * pyval)) (kv : string * pyval)
    : list (string * pyval) :=
  match kv.2 with
  | PDict cfg =>
      match parse_chara_cfg cfg with
      | Ok entry => Dict.set kv.1 entry result
      | Raise _ => result
      end
  | _ => result
  end.

(** [load_chara_meta], from the value [_read_yaml] returned. *)
Definition load_chara_meta (data : option (list (string * pyval)))
    : list (string * pyval) :=
  match data with
  | None | Some [] => []
  | Some d =>
      match Dict.get "mahoshojo" d with
      | Some (PDict root) => fold_left chara_role_step root []
      | _ => []
      end
  end.

(** ** The entry point *)

(** What [_read_yaml] returned for each of the three configuration files. *)
Record config_files : Type := ConfigFiles {
  chara_meta_yml : option (list (string * pyval));
  text_configs_yml : option (list (string * pyval));
  process_whitelist_yml : option (list (string * pyval))
}.

(** The module's global variables. *)
Record globals : Type := Globals {
  MAHOSHOJO : list (string * pyval);
  TEXT_CONFIGS : list (string * list text_entry);
  PROCESS_WHITELIST : list string;
  BACKGROUND_INDEXES : gset Z
}.

(** The [loaded] dict of [load_all_and_validate]. *)
Record loaded : Type := Loaded {
  loaded_mahoshojo : list (string * pyval);
  loaded_text_configs : list (string * list text_entry);
  loaded_whitelist : list string;
  loaded_backgrounds : list Z
}.

(** What is handed to the callback: a line of the report with its prefix. *)
Inductive callback_line : Type :=
| WarningLine (w : message)     (* "[警告] {w}" *)
| ErrorLine (e : message).      (* "[错误] {e}" *)

(** One call of the callback inside its [try]: the callback acts on a state
    of its own and may raise an [Exception]; the exception is logged and
    dropped, what the callback did before raising stays done. *)
Definition call_guarded {S} (callback : S → callback_line → S * bool)
    (s : S) (l : callback_line) : S :=
  (callback s l).1.

(** [load_all_and_validate] for an [assets_dir] whose state is [fs]: the
    globals after the call, and what the call returns or raises.  The
    callback, when there is one, is a function of a state of its own that
    says whether it raised. *)
Definition load_all_and_validate {S} (set_iter : list hval → list hval)
    (files : config_files) (os_name : string) (fs : assets)
    (callback : option (S → callback_line → S * bool)) (s : S) (g : globals)
    : globals * result (loaded * report * S) :=
  let g := Globals (load_chara_meta (chara_meta_yml files)) (TEXT_CONFIGS g)
             (PROCESS_WHITELIST g) (BACKGROUND_INDEXES g) in
  let g := Globals (MAHOSHOJO g) (load_text_configs (text_configs_yml files))
             (PROCESS_WHITELIST g) (BACKGROUND_INDEXES g) in
  let g := Globals (MAHOSHOJO g) (TEXT_CONFIGS g)
             (load_process_whitelist (process_whitelist_yml files) os_name)
             (BACKGROUND_INDEXES g) in
  match _scan_backgrounds fs with
  | Raise e => (g, Raise e)
  | Ok bg =>
      let g := Globals (MAHOSHOJO g) (TEXT_CONFIGS g) (PROCESS_WHITELIST g) bg in
      match validate_assets set_iter (MAHOSHOJO g) (Some (TEXT_CONFIGS g)) fs with
      | Raise e => (g, Raise e)
      | Ok report =>
          let s :=
            match callback with
            | Some cb =>
                let s := fold_left (λ s w, call_guarded cb s (WarningLine w))
                           (warnings report) s in
                fold_left (λ s e, call_guarded cb s (ErrorLine e)) (errors report) s
            | None => s
            end in
          (g, Ok (Loaded (MAHOSHOJO g) (TEXT_CONFIGS g) (PROCESS_WHITELIST g)
                    (sorted_ints (BACKGROUND_INDEXES g)), report, s))
      end
  end.

(** ** More vocabulary *)

(** An entry as [load_chara_meta] stores it. *)
Definition stored_entry (ec : Z) (font full_name : string) : pyval :=
  PDict [("emotion_count", PInt ec); ("font", PStr font); ("full_name", PStr full_name)].

Definition is_stored_entry (entry : pyval) : Prop :=
  ∃ ec font full_name,
    entry = stored_entry ec font full_name ∧ 0 < ec ∧ font ≠ "".

(** The lines of the role directory check. *)
Definition is_role_dir_msg (m : message) : bool :=
  match m with
  | MissingRoleDirs _ | UnconfiguredRoleDirs _ => true
  | _ => false
  end.

(** The lines of the text coverage check. *)
Definition is_text_msg (m : message) : bool :=
  match m with
  | TextRolesUnconfigured _ | RolesWithoutText _ => true
  | _ => false
  end.

(** The rank of the check a line comes from, in the order of the checks. *)
Definition check_rank (m : message) : nat :=
  match m with
  | MissingBackgrounds _ | ExtraBackgrounds _ => 0
  | MissingRoleDirs _ | UnconfiguredRoleDirs _ => 1
  | MissingFont _ => 2
  | MissingDiffs _ _ | ExtraDiffs _ _ => 3
  | TextRolesUnconfigured _ => 4
  | RolesWithoutText _ => 5
  end.

(** The lines [l] come in the order of the checks, from checks of rank [lo]
    to [hi]. *)
Definition ranked (lo hi : nat) (l : list message) : Prop :=
  StronglySorted le (check_rank <$> l) ∧
  Forall (λ m, (lo ≤ check_rank m ≤ hi)%nat) l.

(** Something declared is missing / something found is not declared. *)
Definition reports_missing (m : message) : bool :=
  match m with
  | MissingBackgrounds _ | MissingRoleDirs _ | MissingFont _ | MissingDiffs _ _ => true
  | _ => false
  end.

(** The role a differential line is about. *)
Definition diff_role (m : message) : option string :=
  match m with
  | MissingDiffs role _ | ExtraDiffs role _ => Some role
  | _ => None
  end.

(** The name of the image of background [k], and of differential [k] of a
    role, as the assets directory lays them out. *)
Definition background_name (k : Z) : string := "c" +:+ pretty k +:+ ".png".
Definition diff_name (role : string) (k : Z) : string :=
  role +:+ "(" +:+ pretty k +:+ ").png".

(** The entry stored for the configuration [v] of a role, if any. *)
Definition chara_entry_of (v : pyval) : option pyval :=
  match v with
  | PDict cfg =>
      match parse_chara_cfg cfg with
      | Ok entry => Some entry
      | Raise _ => None
      end
  | _ => None
  end.

(** The entries stored for the value [v] of a role of the text
    configuration, if the role is kept. *)
Definition text_entries_of (v : pyval) : option (list text_entry) :=
  match v with
  | PList items => Some (omap text_item_ok items)
  | _ => None
  end.

(** The loop of both readers: the roles whose value [f] accepts are stored,
    the others are skipped. *)
Definition keep_step {W} (f : pyval → option W) (result : list (string * W))
    (kv : string * pyval) : list (string * W) :=
  match f kv.2 with
  | Some w => Dict.set kv.1 w result
  | None => result
  end.

(** A callback together with a record of the lines it was called with. *)
Definition recording {S} (callback : S → callback_line → S * bool)
    (st : S * list callback_line) (l : callback_line) : (S * list callback_line) * bool :=
  let '(s, raised) := callback st.1 l in ((s, st.2 ++ [l]), raised).

(** The lines of a report as the callback gets them: the warnings, then the
    errors. *)
Definition callback_lines (r : report) : list callback_line :=
  (WarningLine <$> warnings r) ++ (ErrorLine <$> errors r).

(** The item of a text configuration document that an entry is read from. *)
Definition item_of_entry (e : text_entry) : pyval :=
  PDict [("text", text e);
         ("position", PList [PInt (position e).1; PInt (position e).2]);
         ("font_color", PList [PInt (font_color e).1.1; PInt (font_color e).1.2;
                               PInt (font_color e).2]);
         ("font_size", PInt (font_size e))].

(** The documents that hold a loaded configuration. *)
Definition text_document (tc : list (string * list text_entry))
    : option (list (string * pyval)) :=
  Some [("text_configs", PDict (prod_map id (λ es, PList (item_of_entry <$> es)) <$> tc))].

Definition chara_document (meta : list (string * pyval)) : option (list (string * pyval)) :=
  Some [("mahoshojo", PDict meta)].

(** The assets [fs'] hold at least what [fs] holds. *)
Definition listing_le (a b : listing) : Prop :=
  match a, b with
  | NotADirectory, (NotADirectory | Entries _) => True
  | Entries l, Entries l' => l ⊆ l'
  | _, _ => False
  end.

Definition assets_le (fs fs' : assets) : Prop :=
  listing_le (background_dir fs) (background_dir fs') ∧
  listing_le (chara_dir fs) (chara_dir fs') ∧
  (∀ name, chara_isdir fs name = true → chara_isdir fs' name = true) ∧
  (∀ role, listing_le (role_dir fs role) (role_dir fs' role)) ∧
  (∀ font, font_isfile fs font = true → font_isfile fs' font = true).

(** ** More sample inputs *)

(** A metadata document with one valid role and three that are skipped. *)
Definition chara_data : option (list (string * pyval)) :=
  Some [("mahoshojo",
         PDict [("luna", PDict [("emotion_count", PStr " 2 "); ("font", PStr "luna.ttf")]);
                ("sol", PDict [("emotion_count", PInt 0); ("font", PStr "sol.ttf")]);
                ("nox", PDict [("emotion_count", PInt 3)]);
                ("vega", PStr "later")])].

Definition sample_files : config_files :=
  ConfigFiles chara_data malformed_text_data whitelist_data.

Definition empty_globals : globals := Globals [] [] [] ∅.

(** A callback that keeps the lines it is given and raises on every error
    line. *)
Definition touchy_callback (seen : list callback_line) (l : callback_line)
    : list callback_line * bool :=
  (seen ++ [l], match l with ErrorLine _ => true | WarningLine _ => false end).

(** A directory in which the images are named in capitals. *)
Definition shouting_assets : assets :=
  Assets (Entries ["C1.PNG"; "c2.png"; "readme.txt"]) (Entries ["luna"]) (λ _, true)
    (λ _, Entries ["LUNA (1).PNG"; "Luna(2).png"]) (λ _, true).

Definition quiet_assets : assets :=
  Assets (Entries (lower <$> ["C1.PNG"; "c2.png"; "readme.txt"])) (Entries ["luna"])
    (λ _, true) (λ _, Entries (lower <$> ["LUNA (1).PNG"; "Luna(2).png"])) (λ _, true).

(** A text configuration with one well-formed item that has a null text. *)
Definition null_text_data : option (list (string * pyval)) :=
  Some [("text_configs",
         PDict [("luna", PList [PDict [("text", PNone);
                                       ("position", PList [PInt 10; PInt 20]);
                                       ("font_color", PList [PInt 255; PInt 0; PInt 0]);
                                       ("font_size", PStr "12")]])])].

(** The directory of [luna] after more files were added: a seventeenth
    background, a third differential and a second role directory. *)
Definition crowded_assets : assets :=
  Assets (Entries (background_names ++ ["c17.png"])) (Entries ["luna"; "stella"]) (λ _, true)
    (λ role, if String.eqb role "luna"
             then Entries ["luna(1).png"; "luna(2).png"; "luna(3).png"] else Entries [])
    (λ font, String.eqb font "luna.ttf" || String.eqb font "stella.ttf").
(** * Properties *)

(** ** The string helpers on examples *)

Example int_of_str_examples :
  int_of_str " 12 " = Some 12 ∧ int_of_str "-1_000" = Some (-1000) ∧
  int_of_str "1__0" = None ∧ int_of_str "" = None ∧ int_of_str "3x" = None ∧
  int_of_str "+" = None ∧ int_of_str "007" = Some 7 ∧
  int_of_str " -1" = Some (-1) ∧ int_of_str "- 1" = None ∧ int_of_str "1_0 " = Some 10 ∧
  int_of_str (String "031" "2") = None ∧ int_of_str (String "2" (String "028" "")) = None ∧
  int_of_str (String "011" (String "2" (String "012" ""))) = Some 2.
Proof. repeat split; reflexivity. Qed.

(** The digit limit: a literal of 4300 digits is read, one of 4301 is not. *)
Example int_of_str_digit_limit :
  is_Some (int_of_str (String.concat "" (replicate 4300%nat "1"))) ∧
  int_of_str (String.concat "" (replicate 4301%nat "0")) = None.
Proof. split; [vm_compute; eauto | vm_compute; reflexivity]. Qed.

Example strip_examples :
  strip "  a b  " = "a b" ∧ strip "   " = "" ∧ lower "Win32" = "win32".
Proof. repeat split; reflexivity. Qed.

Example match_examples :
  match_background "c12.png" = Some 12 ∧ match_background "C03.PNG" = Some 3 ∧
  match_background "c.png" = None ∧ match_background "c1.png.bak" = None ∧
  match_diff "luna" "luna(1).png" = Some 1 ∧ match_diff "luna" "Luna  (02).png" = Some 2 ∧
  match_diff "luna" "lunar(1).png" = None ∧ match_diff "luna" "luna(1.png" = None.
Proof. repeat split; reflexivity. Qed.

(** ** The validator on examples *)

(** The end-to-end example: everything declared is on disk. *)
Example luna_end_to_end :
  validate_assets id luna_meta (None : option (list (string * list text_entry)))
    luna_assets =
  Ok (Report true [] [] (Stats 16 [("luna", RoleStat 2 2)])).
Proof. vm_compute. reflexivity. Qed.

(** An undeclared directory gives one warning and leaves [ok] true; a file
    in [chara] is not a role. *)
Example ghost_directory :
  validate_assets id luna_meta (None : option (list (string * list text_entry)))
    ghost_assets =
  Ok (Report true [] [UnconfiguredRoleDirs ["ghost"]] (Stats 16 [("luna", RoleStat 2 2)])).
Proof. vm_compute. reflexivity. Qed.

(** ** The error monad and loops *)

Lemma bind_Ok {A B} (m : result A) (k : A → result B) (b : B) :
  (m ≫= k) = Ok b ↔ ∃ a, m = Ok a ∧ k a = Ok b.
Proof.
  destruct m as [a|e]; simpl; split.
  - eauto.
  - by intros (a' & [= ->] & ?).
  - done.
  - by intros (a' & ? & ?).
Qed.

(** ** Dictionaries *)

Module DictFacts.
Section facts.
Context {V : Type}.
Implicit Types (d : list (string * V)) (k : string) (v : V).

Lemma get_Some_elem d k v : Dict.get k d = Some v → (k, v) ∈ d.
Proof.
  induction d as [|[k' v'] d IH]; simpl; [done|].
  destruct (String.eqb_spec k k') as [->|Hne].
  - intros [= ->]. left.
  - intros ?. right. auto.
Qed.

Lemma get_None d k : Dict.get k d = None ↔ k ∉ Dict.keys d.
Proof.
  unfold Dict.keys. induction d as [|[k' v'] d IH]; simpl.
  - split; [intros _; apply not_elem_of_nil | done].
  - rewrite not_elem_of_cons. destruct (String.eqb_spec k k') as [->|Hne].
    + split; [done | by intros [? _]].
    + rewrite IH. tauto.
Qed.

Lemma get_is_Some d k : is_Some (Dict.get k d) ↔ k ∈ Dict.keys d.
Proof.
  rewrite <-not_eq_None_Some, get_None.
  split; [apply dec_stable | auto].
Qed.

Lemma get_set d k k' v :
  Dict.get k' (Dict.set k v d) = if decide (k' = k) then Some v else Dict.get k' d.
Proof.
  induction d as [|[k0 v0] d IH]; simpl.
  - destruct (String.eqb_spec k' k); by case_decide.
  - destruct (String.eqb_spec k k0) as [->|Hne]; simpl.
    + destruct (String.eqb_spec k' k0); by case_decide.
    + destruct (String.eqb_spec k' k0) as [->|Hne']; [|done].
      by rewrite decide_False by done.
Qed.

Lemma keys_set d k v :
  Dict.keys (Dict.set k v d) =
    if decide (k ∈ Dict.keys d) then Dict.keys d else Dict.keys d ++ [k].
Proof.
  unfold Dict.keys. induction d as [|[k0 v0] d IH].
  - case_decide as Hin; [by apply elem_of_nil in Hin | done].
  - cbn [Dict.set fmap list_fmap].
    destruct (String.eqb_spec k k0) as [->|Hne]; cbn [fmap list_fmap fst].
    + clear IH. case_decide as Hin; [done|]. destruct Hin. apply list_elem_of_here.
    + rewrite IH. clear IH. destruct (decide (k ∈ d.*1)) as [Hin|Hnin].
      * rewrite decide_True; [done | by apply list_elem_of_further].
      * rewrite decide_False; [done|]. by intros [?|?]%elem_of_cons.
Qed.
End facts.
End DictFacts.

(** ** Sorting the members of a set *)

Lemma elem_of_range_set n k : k ∈ range_set n ↔ 1 ≤ k ≤ n.
Proof.
  unfold range_set. rewrite elem_of_list_to_set, elem_of_seqZ. lia.
Qed.

Lemma size_range_set n : size (range_set n) = Z.to_nat n.
Proof.
  unfold range_set. rewrite size_list_to_set by apply NoDup_seqZ.
  apply length_seqZ.
Qed.

Lemma sorted_ints_lists s : lists_ints (sorted_ints s) (.∈ s).
Proof.
  unfold lists_ints, sorted_ints. split_and!.
  - apply (Sorted_merge_sort Z.le).
  - rewrite merge_sort_Permutation. apply NoDup_elements.
  - intros k. rewrite merge_sort_Permutation. apply elem_of_elements.
Qed.

Lemma sorted_strs_lists s : lists_strs (sorted_strs s) (.∈ s).
Proof.
  unfold lists_strs, sorted_strs. split_and!.
  - apply (Sorted_merge_sort String.le).
  - rewrite merge_sort_Permutation. apply NoDup_elements.
  - intros k. rewrite merge_sort_Permutation. apply elem_of_elements.
Qed.

Lemma sorted_ints_nil s : sorted_ints s = [] ↔ s = ∅.
Proof.
  destruct (sorted_ints_lists s) as (_ & _ & Hel). split.
  - intros Hnil. apply set_eq. intros k. rewrite <-Hel, Hnil. by rewrite elem_of_nil, elem_of_empty.
  - intros ->. unfold sorted_ints. by rewrite elements_empty.
Qed.

Lemma sorted_ints_singleton k : sorted_ints {[k]} = [k].
Proof. unfold sorted_ints. by rewrite elements_singleton. Qed.

Lemma append_if_nonempty_app {A} (l : list A) m out :
  append_if_nonempty l m out = out ++ append_if_nonempty l m [].
Proof. destruct l; simpl; [by rewrite app_nil_r | done]. Qed.

(** ** The loops of the validator *)

Lemma font_loop fs fonts errors :
  fold_left (font_check fs) fonts errors = errors ++ font_errors fs fonts.
Proof.
  unfold font_errors. revert errors.
  induction fonts as [|f fonts IH]; intros errors; simpl.
  - by rewrite app_nil_r.
  - rewrite IH. unfold font_check, font_missing. rewrite filter_cons.
    destruct (font_isfile fs (py_str f)); simpl.
    + done.
    + by rewrite <-app_assoc.
Qed.

Lemma diff_step_eq meta fs E W R role :
  diff_step meta fs (E, W, R) role =
    (p ← role_sets meta fs role;
     Ok (E ++ diff_errors role p, W ++ diff_warnings role p,
         Dict.set role (diff_stat p) R)).
Proof.
  unfold diff_step, role_sets.
  destruct (Dict.get role meta) as [entry|]; simpl; [|done].
  destruct (emotion_count_of entry) as [ec|]; simpl; [|done].
  destruct (_scan_role_diffs fs role) as [found|]; simpl; [|done].
  unfold diff_errors, diff_warnings, diff_stat; simpl.
  by rewrite (append_if_nonempty_app _ _ E), (append_if_nonempty_app _ _ W).
Qed.

Lemma diff_loop meta fs roles E W R st :
  for_each (diff_step meta fs) roles (E, W, R) = Ok st ↔
    Forall (λ role, is_Ok (role_sets meta fs role)) roles ∧
    st = (E ++ all_diff_errors meta fs roles,
          W ++ all_diff_warnings meta fs roles,
          all_diff_stats meta fs roles R).
Proof.
  unfold all_diff_errors, all_diff_warnings, all_diff_stats.
  revert E W R. induction roles as [|role roles IH]; intros E W R;
    cbn [for_each flat_map fold_left].
  - rewrite !app_nil_r. split.
    + intros [= <-]. by split.
    + by intros [_ ->].
  - rewrite diff_step_eq, Forall_cons. unfold role_sets_or_empty.
    destruct (role_sets meta fs role) as [p|e]; simpl.
    + rewrite IH, <-!app_assoc. split.
      * intros [? ->]. split; [split; [by exists p | done] | done].
      * intros [[_ ?] ->]. by split.
    + split; [done|]. by intros [[[p ?] _] _].
Qed.

(** [validate_assets] returns exactly when its three scans, the font set and
    every turn of the differential loop do, and its report is then
    [report_of] their results. *)
Lemma validate_assets_Ok {T} set_iter meta (text_cfg : option (list (string * T))) fs r :
  validate_assets set_iter meta text_cfg fs = Ok r ↔
    ∃ bg_found assets_roles fonts,
      _scan_backgrounds fs = Ok bg_found ∧
      _scan_roles_in_assets fs = Ok assets_roles ∧
      for_each (font_step meta) (Dict.keys meta) [] = Ok fonts ∧
      Forall (λ role, is_Ok (role_sets meta fs role)) (Dict.keys meta) ∧
      r = report_of set_iter meta text_cfg fs bg_found assets_roles fonts.
Proof.
  unfold validate_assets, report_of.
  destruct (_scan_backgrounds fs) as [bg_found|e]; simpl; [|by split; [|intros (?&?&?&?&_)]].
  destruct (_scan_roles_in_assets fs) as [assets_roles|e]; simpl;
    [|by split; [|intros (?&?&?&_&?&_)]].
  destruct (for_each (font_step meta) (Dict.keys meta) []) as [fonts|e]; simpl;
    [|by split; [|intros (?&?&?&_&_&?&_)]].
  rewrite font_loop.
  rewrite !(append_if_nonempty_app _ _ (append_if_nonempty _ _ [])).
  fold (bg_errors bg_found) (bg_warnings bg_found).
  fold (role_dir_errors (Dict.keys meta) assets_roles)
       (role_dir_warnings (Dict.keys meta) assets_roles).
  match goal with
  | |- context [for_each (diff_step meta fs) _ ?s] =>
      destruct (for_each (diff_step meta fs) (Dict.keys meta) s) as [[[E W] R]|e] eqn:Hloop
  end; simpl.
  - apply diff_loop in Hloop as [Hall [= -> -> ->]]. rewrite <-!app_assoc. split.
    + intros [= <-]. by exists bg_found, assets_roles, fonts.
    + by intros (? & ? & ? & [= <-] & [= <-] & [= <-] & _ & ->).
  - split; [done|]. intros (? & ? & ? & [= <-] & [= <-] & [= <-] & Hall & _).
    eassert (for_each (diff_step meta fs) (Dict.keys meta) _ = Ok _) as Hok
      by (apply diff_loop; split; [exact Hall | reflexivity]).
    rewrite Hloop in Hok. done.
Qed.

Lemma lists_ints_ext l (P Q : Z → Prop) :
  (∀ k, P k ↔ Q k) → lists_ints l P → lists_ints l Q.
Proof.
  intros HPQ (? & ? & Hel). split_and!; [done..|].
  intros k. by rewrite Hel.
Qed.

(** ** Selecting the lines of one check *)

Section selecting.
Variable P : message → bool.

Lemma select_append_if_nonempty {A} (l : list A) m :
  filter P (append_if_nonempty l m []) =
    match l with [] => [] | _ :: _ => if P m then [m] else [] end.
Proof.
  destruct l; simpl; [done|]. rewrite filter_cons, filter_nil.
  by destruct (P m).
Qed.

Lemma select_none l : Forall (λ m, P m = false) l → filter P l = [].
Proof.
  induction 1 as [|m l Hm _ IH]; [done|].
  rewrite filter_cons, IH. by rewrite Hm.
Qed.

Lemma select_all l : Forall (λ m, P m = true) l → filter P l = l.
Proof.
  induction 1 as [|m l Hm _ IH]; [done|].
  rewrite filter_cons, IH. by rewrite Hm.
Qed.

Lemma select_font_errors fs fonts :
  (∀ f, P (MissingFont f) = false) → filter P (font_errors fs fonts) = [].
Proof.
  intros HP. apply select_none, Forall_fmap, Forall_forall. intros f _. apply HP.
Qed.

Lemma select_text_check {T} cfg_roles (text_cfg : option (list (string * T))) W :
  (∀ l, P (TextRolesUnconfigured l) = false) →
  (∀ l, P (RolesWithoutText l) = false) →
  filter P (text_check cfg_roles text_cfg W) = filter P W.
Proof.
  intros Ha Hb. unfold text_check.
  destruct text_cfg as [[|kv tc]|]; [done| |done].
  rewrite append_if_nonempty_app, (append_if_nonempty_app _ _ W).
  rewrite !filter_app, !select_append_if_nonempty, Ha, Hb.
  rewrite <-app_assoc.
  by repeat match goal with |- context [match ?l with [] => _ | _ :: _ => _ end] =>
    destruct l end; rewrite ?app_nil_r.
Qed.
End selecting.

Lemma Forall_all_diff_errors meta fs roles :
  Forall (λ m, ∃ role l, role ∈ roles ∧ m = MissingDiffs role l)
    (all_diff_errors meta fs roles).
Proof.
  unfold all_diff_errors. apply Forall_forall. intros m Hm.
  apply list_elem_of_In, in_flat_map in Hm as (role & Hrole%list_elem_of_In & Hm).
  unfold diff_errors in Hm. simpl in Hm.
  destruct (sorted_ints _) eqn:Hs in Hm; simpl in Hm; [done|].
  destruct Hm as [<-|[]]. eauto.
Qed.

Lemma Forall_all_diff_warnings meta fs roles :
  Forall (λ m, ∃ role l, role ∈ roles ∧ m = ExtraDiffs role l)
    (all_diff_warnings meta fs roles).
Proof.
  unfold all_diff_warnings. apply Forall_forall. intros m Hm.
  apply list_elem_of_In, in_flat_map in Hm as (role & Hrole%list_elem_of_In & Hm).
  unfold diff_warnings in Hm. simpl in Hm.
  destruct (sorted_ints _) eqn:Hs in Hm; simpl in Hm; [done|].
  destruct Hm as [<-|[]]. eauto.
Qed.

(** ** The report: [ok] and the background check *)

(** C4. For every input on which [validate_assets] returns a report [r],
    [ok r] is true exactly when [errors r] is empty ([ok] is
    [len(errors) == 0]).  Warnings play no part: the text configuration,
    which only ever adds warnings, can be replaced by any other one without
    changing the errors or [ok]. *)
Theorem ok_iff_no_errors {T} set_iter meta (text_cfg : option (list (string * T))) fs r :
  validate_assets set_iter meta text_cfg fs = Ok r →
  ok r = Nat.eqb (length (errors r)) 0 ∧
  (ok r = true ↔ errors r = []) ∧
  ∀ (text_cfg' : option (list (string * T))) r',
    validate_assets set_iter meta text_cfg' fs = Ok r' →
    errors r' = errors r ∧ ok r' = ok r.
Proof.
  intros (bg & ar & fonts & Hbg & Har & Hfonts & Hall & ->)%validate_assets_Ok.
  split_and!.
  - done.
  - simpl. rewrite Nat.eqb_eq. apply length_zero_iff_nil.
  - intros text_cfg' r' (bg' & ar' & fonts' & Hbg' & Har' & Hfonts' & _ & ->)%validate_assets_Ok.
    rewrite Hbg in Hbg'. rewrite Har in Har'. rewrite Hfonts in Hfonts'.
    by simplify_eq.
Qed.

Lemma ok_iff_no_errors_witness :
  ∃ r, validate_assets id luna_meta (Some [("nobody", [] : list text_entry)]) luna_assets = Ok r ∧
       warnings r ≠ [] ∧ ok r = true ∧ errors r = [].
Proof.
  set (r := Report true [] [TextRolesUnconfigured ["nobody"]; RolesWithoutText ["luna"]]
              (Stats 16 [("luna", RoleStat 2 2)])).
  assert (Hr : validate_assets id luna_meta (Some [("nobody", [] : list text_entry)])
                 luna_assets = Ok r) by (vm_compute; reflexivity).
  destruct (ok_iff_no_errors _ _ _ _ _ Hr) as (_ & Hiff & _).
  exists r. split_and!; [exact Hr | discriminate | apply Hiff; reflexivity | reflexivity].
Defined.

(** C1. Background reconciliation.  Whatever the metadata and the text
    configuration, when [validate_assets] returns [r] the background scan
    gave a set [found]; with expected = 1..16, [miss] lists in increasing
    order the expected indices not found and [extra] the found indices not
    expected; the errors hold exactly one background line, with [miss],
    when [miss] is non-empty and none otherwise; the warnings hold exactly
    one background line, with [extra], when [extra] is non-empty and none
    otherwise; the statistics record the size of [found].  When [found] is
    1..16 there is no background line at all, and when 5 is the only
    expected index not found the error line lists exactly [5]. *)
Theorem backgrounds_reconciled {T} set_iter meta (text_cfg : option (list (string * T)))
    fs r :
  validate_assets set_iter meta text_cfg fs = Ok r →
  ∃ found miss extra,
    _scan_backgrounds fs = Ok found ∧
    lists_ints miss (λ k, 1 ≤ k ≤ 16 ∧ k ∉ found) ∧
    lists_ints extra (λ k, k ∈ found ∧ ¬ 1 ≤ k ≤ 16) ∧
    filter is_background_msg (errors r) =
      (if decide (miss = []) then [] else [MissingBackgrounds miss]) ∧
    filter is_background_msg (warnings r) =
      (if decide (extra = []) then [] else [ExtraBackgrounds extra]) ∧
    stats_backgrounds_found (stats r) = size found ∧
    ((∀ k, k ∈ found ↔ 1 ≤ k ≤ 16) →
       filter is_background_msg (errors r) = [] ∧
       filter is_background_msg (warnings r) = []) ∧
    ((∀ k, 1 ≤ k ≤ 16 → k ∈ found ↔ k ≠ 5) →
       filter is_background_msg (errors r) = [MissingBackgrounds [5]]).
Proof.
  intros (found & ar & fonts & Hbg & Har & Hfonts & Hall & ->)%validate_assets_Ok.
  set (miss := sorted_ints (range_set 16 ∖ found)).
  set (extra := sorted_ints (found ∖ range_set 16)).
  assert (Hmiss : lists_ints miss (λ k, 1 ≤ k ≤ 16 ∧ k ∉ found)).
  { eapply lists_ints_ext, sorted_ints_lists.
    intros k. simpl. by rewrite elem_of_difference, elem_of_range_set. }
  assert (Hextra : lists_ints extra (λ k, k ∈ found ∧ ¬ 1 ≤ k ≤ 16)).
  { eapply lists_ints_ext, sorted_ints_lists.
    intros k. simpl. by rewrite elem_of_difference, elem_of_range_set. }
  assert (Herr : filter is_background_msg
            (errors (report_of set_iter meta text_cfg fs found ar fonts)) =
          (if decide (miss = []) then [] else [MissingBackgrounds miss])).
  { simpl. rewrite !filter_app. unfold bg_errors, role_dir_errors.
    rewrite !select_append_if_nonempty, select_font_errors by done.
    rewrite (select_none _ (all_diff_errors _ _ _)).
    2:{ eapply Forall_impl; [apply Forall_all_diff_errors|].
        by intros m (? & ? & _ & ->). }
    fold miss. destruct (sorted_strs _); simpl; rewrite app_nil_r;
      by destruct miss. }
  assert (Hwarn : filter is_background_msg
            (warnings (report_of set_iter meta text_cfg fs found ar fonts)) =
          (if decide (extra = []) then [] else [ExtraBackgrounds extra])).
  { simpl. rewrite select_text_check by done. rewrite !filter_app.
    unfold bg_warnings, role_dir_warnings.
    rewrite !select_append_if_nonempty.
    rewrite (select_none _ (all_diff_warnings _ _ _)).
    2:{ eapply Forall_impl; [apply Forall_all_diff_warnings|].
        by intros m (? & ? & _ & ->). }
    fold extra. destruct (sorted_strs _); simpl; rewrite app_nil_r;
      by destruct extra. }
  exists found, miss, extra. split_and!; try done.
  - intros Hfull. rewrite Herr, Hwarn.
    assert (miss = []) as ->.
    { apply sorted_ints_nil, set_eq. intros k.
      rewrite elem_of_difference, elem_of_range_set, Hfull, elem_of_empty. tauto. }
    assert (extra = []) as ->.
    { apply sorted_ints_nil, set_eq. intros k.
      rewrite elem_of_difference, elem_of_range_set, Hfull, elem_of_empty. tauto. }
    done.
  - intros Honly. rewrite Herr.
    assert (miss = [5]) as ->; [|done].
    rewrite <-(sorted_ints_singleton 5). unfold miss. f_equal.
    apply set_eq. intros k.
    rewrite elem_of_difference, elem_of_range_set, elem_of_singleton.
    split.
    + intros [Hk Hnot]. destruct (decide (k = 5)); [done|].
      destruct Hnot. by apply Honly.
    + intros ->. split; [lia|]. intros Hin. by apply (Honly 5) in Hin.
Qed.

Lemma backgrounds_reconciled_witness :
  ∃ r found,
    validate_assets id luna_meta (None : option (list (string * list text_entry)))
      no_c5_assets = Ok r ∧
    _scan_backgrounds no_c5_assets = Ok found ∧
    stats_backgrounds_found (stats r) = size found ∧
    filter is_background_msg (errors r) = [MissingBackgrounds [5]].
Proof.
  set (r := Report false [MissingBackgrounds [5]] [] (Stats 15 [("luna", RoleStat 2 2)])).
  assert (Hr : validate_assets id luna_meta
                 (None : option (list (string * list text_entry))) no_c5_assets = Ok r)
    by (vm_compute; reflexivity).
  destruct (backgrounds_reconciled _ _ _ _ _ Hr)
    as (found & miss & extra & Hscan & _ & _ & _ & _ & Hsize & _).
  exists r, found. split_and!; [exact Hr | exact Hscan | exact Hsize | reflexivity].
Defined.

(** ** The differential check *)

Lemma get_all_diff_stats meta fs roles acc role :
  Dict.get role (all_diff_stats meta fs roles acc) =
    if decide (role ∈ roles) then Some (diff_stat (role_sets_or_empty meta fs role))
    else Dict.get role acc.
Proof.
  unfold all_diff_stats. revert acc.
  induction roles as [|r0 roles IH]; intros acc; cbn [fold_left].
  - rewrite decide_False; [done | apply not_elem_of_nil].
  - rewrite IH, DictFacts.get_set.
    destruct (decide (role ∈ roles)) as [Hin|Hnin].
    + rewrite decide_True; [done | by right].
    + destruct (decide (role = r0)) as [->|Hne].
      * rewrite decide_True; [done | left].
      * rewrite decide_False; [done|]. by intros [?|?]%elem_of_cons.
Qed.

Lemma keys_all_diff_stats meta fs roles acc :
  NoDup roles → (∀ role, role ∈ roles → role ∉ Dict.keys acc) →
  Dict.keys (all_diff_stats meta fs roles acc) = Dict.keys acc ++ roles.
Proof.
  unfold all_diff_stats. revert acc.
  induction roles as [|r0 roles IH]; intros acc Hnd Hfresh; cbn [fold_left].
  - by rewrite app_nil_r.
  - apply NoDup_cons in Hnd as [Hr0 Hnd].
    rewrite IH; [|done|].
    + rewrite DictFacts.keys_set, decide_False, <-app_assoc; [done|].
      apply Hfresh. left.
    + intros role Hrole. rewrite DictFacts.keys_set, decide_False.
      * rewrite not_elem_of_app, not_elem_of_cons. split_and!.
        -- apply Hfresh. by right.
        -- by intros ->.
        -- apply not_elem_of_nil.
      * apply Hfresh. left.
Qed.

Lemma select_role_lines (g : string → list message) roles role :
  (∀ r0, r0 ≠ role → filter (is_diff_msg role) (g r0) = []) →
  filter (is_diff_msg role) (g role) = g role →
  NoDup roles → role ∈ roles →
  filter (is_diff_msg role) (flat_map g roles) = g role.
Proof.
  intros Hother Hsame.
  induction roles as [|r0 roles IH]; intros Hnd Hin; cbn [flat_map].
  - by apply elem_of_nil in Hin.
  - apply NoDup_cons in Hnd as [Hr0 Hnd]. rewrite filter_app.
    apply elem_of_cons in Hin as [<-|Hin].
    + rewrite Hsame, select_none, app_nil_r; [done|].
      apply Forall_forall. intros m Hm.
      apply list_elem_of_In, in_flat_map in Hm as (r1 & Hr1%list_elem_of_In & Hm).
      apply list_elem_of_In in Hm.
      destruct (is_diff_msg role m) eqn:Hd; [|done].
      assert (m ∈ filter (is_diff_msg role) (g r1)) as Hf
        by (apply list_elem_of_filter; by rewrite Hd).
      rewrite Hother in Hf; [by apply elem_of_nil in Hf | by intros ->].
    + rewrite Hother, IH by (done || by intros ->). done.
Qed.

Lemma select_all_diff_errors meta fs roles role :
  NoDup roles → role ∈ roles →
  filter (is_diff_msg role) (all_diff_errors meta fs roles) =
    diff_errors role (role_sets_or_empty meta fs role).
Proof.
  unfold all_diff_errors. apply select_role_lines.
  - intros r0 Hne. unfold diff_errors. rewrite select_append_if_nonempty. simpl.
    destruct (sorted_ints _); [done|]. by destruct (String.eqb_spec r0 role).
  - unfold diff_errors. rewrite select_append_if_nonempty. simpl.
    rewrite String.eqb_refl. by destruct (sorted_ints _).
Qed.

Lemma select_all_diff_warnings meta fs roles role :
  NoDup roles → role ∈ roles →
  filter (is_diff_msg role) (all_diff_warnings meta fs roles) =
    diff_warnings role (role_sets_or_empty meta fs role).
Proof.
  unfold all_diff_warnings. apply select_role_lines.
  - intros r0 Hne. unfold diff_warnings. rewrite select_append_if_nonempty. simpl.
    destruct (sorted_ints _); [done|]. by destruct (String.eqb_spec r0 role).
  - unfold diff_warnings. rewrite select_append_if_nonempty. simpl.
    rewrite String.eqb_refl. by destruct (sorted_ints _).
Qed.

(** C2. Per-role differential reconciliation.  Let [role] be configured in
    [meta] with an emotion count [ec] (0 when the key is absent), and let
    [validate_assets] return [r].  Then the scan of the role gave a set
    [found]; with expected = 1..ec, [miss] lists in increasing order the
    expected indices not found and [extra] the found indices not expected;
    the errors hold exactly one differential line for the role, with
    [miss], when [miss] is non-empty and none otherwise, and likewise the
    warnings with [extra]; the statistics of the role are
    [{expected: ec, found: |found|}].  With [ec = 3] and [found = {1, 2}]
    the error line lists [3] and the statistics are [{expected: 3, found: 2}]. *)
Theorem differentials_reconciled {T} set_iter meta (text_cfg : option (list (string * T)))
    fs r role entry ec :
  validate_assets set_iter meta text_cfg fs = Ok r →
  NoDup (Dict.keys meta) →
  Dict.get role meta = Some entry →
  emotion_count_of entry = Ok ec →
  0 ≤ ec →
  ∃ found miss extra,
    _scan_role_diffs fs role = Ok found ∧
    lists_ints miss (λ k, 1 ≤ k ≤ ec ∧ k ∉ found) ∧
    lists_ints extra (λ k, k ∈ found ∧ ¬ 1 ≤ k ≤ ec) ∧
    filter (is_diff_msg role) (errors r) =
      (if decide (miss = []) then [] else [MissingDiffs role miss]) ∧
    filter (is_diff_msg role) (warnings r) =
      (if decide (extra = []) then [] else [ExtraDiffs role extra]) ∧
    (∃ st, Dict.get role (stats_roles (stats r)) = Some st ∧
           Z.of_nat (stat_expected st) = ec ∧ stat_found st = size found) ∧
    (ec = 3 → (∀ k, k ∈ found ↔ k = 1 ∨ k = 2) →
       filter (is_diff_msg role) (errors r) = [MissingDiffs role [3]] ∧
       Dict.get role (stats_roles (stats r)) = Some (RoleStat 3 2)).
Proof.
  intros (bg & ar & fonts & Hbg & Har & Hfonts & Hall & ->)%validate_assets_Ok
    Hnd Hget Hec Hpos.
  assert (Hrole : role ∈ Dict.keys meta) by (apply DictFacts.get_is_Some; eauto).
  rewrite Forall_forall in Hall. destruct (Hall role Hrole) as [[expected found] Hsets].
  assert (Hp : role_sets_or_empty meta fs role = (expected, found))
    by (unfold role_sets_or_empty; by rewrite Hsets).
  unfold role_sets in Hsets. rewrite Hget in Hsets. simpl in Hsets.
  rewrite Hec in Hsets. simpl in Hsets.
  destruct (_scan_role_diffs fs role) as [found'|] eqn:Hscan; simplify_eq/=.
  set (miss := sorted_ints (range_set ec ∖ found)).
  set (extra := sorted_ints (found ∖ range_set ec)).
  assert (Hmiss : lists_ints miss (λ k, 1 ≤ k ≤ ec ∧ k ∉ found)).
  { eapply lists_ints_ext, sorted_ints_lists.
    intros k. simpl. by rewrite elem_of_difference, elem_of_range_set. }
  assert (Hextra : lists_ints extra (λ k, k ∈ found ∧ ¬ 1 ≤ k ≤ ec)).
  { eapply lists_ints_ext, sorted_ints_lists.
    intros k. simpl. by rewrite elem_of_difference, elem_of_range_set. }
  assert (Herr : filter (is_diff_msg role)
            (bg_errors bg ++ role_dir_errors (Dict.keys meta) ar ++
             font_errors fs (set_iter fonts) ++ all_diff_errors meta fs (Dict.keys meta)) =
          (if decide (miss = []) then [] else [MissingDiffs role miss])).
  { rewrite !filter_app. unfold bg_errors, role_dir_errors.
    rewrite !select_append_if_nonempty, select_font_errors by done.
    rewrite select_all_diff_errors, Hp by done. unfold diff_errors. simpl. fold miss.
    destruct (sorted_ints (range_set 16 ∖ bg)), (sorted_strs _); simpl; by destruct miss. }
  assert (Hwarn : filter (is_diff_msg role)
            (text_check (Dict.keys meta) text_cfg
               (bg_warnings bg ++ role_dir_warnings (Dict.keys meta) ar ++
                all_diff_warnings meta fs (Dict.keys meta))) =
          (if decide (extra = []) then [] else [ExtraDiffs role extra])).
  { rewrite select_text_check by done. rewrite !filter_app.
    unfold bg_warnings, role_dir_warnings. rewrite !select_append_if_nonempty.
    rewrite select_all_diff_warnings, Hp by done. unfold diff_warnings. simpl. fold extra.
    destruct (sorted_ints (bg ∖ range_set 16)), (sorted_strs _); simpl; by destruct extra. }
  assert (Hstat : Dict.get role (all_diff_stats meta fs (Dict.keys meta) []) =
                  Some (RoleStat (Z.to_nat ec) (size found))).
  { rewrite get_all_diff_stats, decide_True, Hp by done.
    unfold diff_stat. simpl. by rewrite size_range_set. }
  exists found, miss, extra. split_and!; try done.
  - eexists. split; [exact Hstat|]. simpl. split; [lia | done].
  - intros -> Hfound.
    assert (miss = [3]) as Hm.
    { rewrite <-(sorted_ints_singleton 3). unfold miss. f_equal.
      apply set_eq. intros k.
      rewrite elem_of_difference, elem_of_range_set, elem_of_singleton, Hfound. lia. }
    assert (size found = 2%nat) as Hsz.
    { replace found with ({[1; 2]} : gset Z); [done|].
      apply set_eq. intros k. rewrite Hfound, elem_of_union, !elem_of_singleton. done. }
    rewrite Herr, Hm, Hstat, Hsz. done.
Qed.

Lemma differentials_reconciled_witness :
  ∃ r found,
    validate_assets id mira_meta (None : option (list (string * list text_entry)))
      mira_assets = Ok r ∧
    _scan_role_diffs mira_assets "mira" = Ok found ∧
    filter (is_diff_msg "mira") (errors r) = [MissingDiffs "mira" [3]] ∧
    ∃ st, Dict.get "mira" (stats_roles (stats r)) = Some st ∧
          Z.of_nat (stat_expected st) = 3 ∧ stat_found st = size found.
Proof.
  set (r := Report false [MissingDiffs "mira" [3]] [] (Stats 16 [("mira", RoleStat 3 2)])).
  assert (Hr : validate_assets id mira_meta
                 (None : option (list (string * list text_entry))) mira_assets = Ok r)
    by (vm_compute; reflexivity).
  assert (Hnd : NoDup (Dict.keys mira_meta)) by (apply NoDup_singleton).
  destruct (differentials_reconciled id mira_meta None mira_assets r "mira"
              (PDict [("emotion_count", PInt 3); ("font", PStr "mira.ttf")]) 3
              Hr Hnd eq_refl eq_refl ltac:(lia))
    as (found & miss & extra & Hscan & _ & _ & _ & _ & Hst & _).
  exists r, found. split_and!; [exact Hr | exact Hscan | reflexivity | exact Hst].
Defined.

(** ** The statistics of the roles *)

(** C9. When [validate_assets] returns [r], the keys of [stats.roles] are
    exactly the keys of [meta]: every configured role has an entry, no
    other role has one, and (the keys of a dict being distinct) they come
    in the same order.  A configured role whose asset directory is missing
    is recorded with [found = 0]. *)
Theorem stats_roles_keys {T} set_iter meta (text_cfg : option (list (string * T))) fs r :
  validate_assets set_iter meta text_cfg fs = Ok r →
  (∀ role, role ∈ Dict.keys (stats_roles (stats r)) ↔ role ∈ Dict.keys meta) ∧
  (NoDup (Dict.keys meta) → Dict.keys (stats_roles (stats r)) = Dict.keys meta) ∧
  (∀ role, role ∈ Dict.keys meta → role_dir fs role = NotADirectory →
     ∃ st, Dict.get role (stats_roles (stats r)) = Some st ∧ stat_found st = 0%nat).
Proof.
  intros (bg & ar & fonts & Hbg & Har & Hfonts & Hall & ->)%validate_assets_Ok.
  simpl. split_and!.
  - intros role. rewrite <-DictFacts.get_is_Some, get_all_diff_stats.
    case_decide as Hin; simpl.
    + split; [done | by eexists].
    + split; [by intros [? ?] | done].
  - intros Hnd. rewrite keys_all_diff_stats; [done | done |].
    intros role _. apply not_elem_of_nil.
  - intros role Hrole Hdir. rewrite get_all_diff_stats, decide_True by done.
    eexists. split; [done|].
    rewrite Forall_forall in Hall. destruct (Hall role Hrole) as [[expected found] Hsets].
    unfold role_sets_or_empty. rewrite Hsets. unfold role_sets in Hsets.
    destruct (Dict.get role meta); simplify_eq/=.
    destruct (emotion_count_of _); simplify_eq/=.
    unfold _scan_role_diffs in Hsets. rewrite Hdir in Hsets. by simplify_eq/=.
Qed.

Lemma stats_roles_keys_witness :
  ∃ r, validate_assets id luna_meta (None : option (list (string * list text_entry)))
         empty_assets = Ok r ∧
       Dict.keys (stats_roles (stats r)) = ["luna"] ∧
       ∃ st, Dict.get "luna" (stats_roles (stats r)) = Some st ∧ stat_found st = 0%nat.
Proof.
  set (r := Report false
              [MissingBackgrounds (seqZ 1 16); MissingRoleDirs ["luna"];
               MissingFont (HStr "luna.ttf"); MissingDiffs "luna" [1; 2]]
              [] (Stats 0 [("luna", RoleStat 2 0)])).
  assert (Hr : validate_assets id luna_meta
                 (None : option (list (string * list text_entry))) empty_assets = Ok r)
    by (vm_compute; reflexivity).
  destruct (stats_roles_keys _ _ _ _ _ Hr) as (_ & Hkeys & Hmissing).
  exists r. split_and!; [exact Hr | |].
  - apply Hkeys, NoDup_singleton.
  - apply Hmissing; [left | reflexivity].
Defined.

(** ** The font check *)

Lemma hval_eqb_refl v : hval_eqb v v = true.
Proof.
  destruct v as [|[]| |]; simpl; try done.
  - apply Z.eqb_refl.
  - apply String.eqb_refl.
Qed.

Lemma set_add_NoDup fonts v : NoDup fonts → NoDup (set_add fonts v).
Proof.
  intros Hnd. unfold set_add. destruct (existsb _ _) eqn:Hex; [done|].
  apply NoDup_app. split_and!; [done | | apply NoDup_singleton].
  intros x Hx ->%list_elem_of_singleton.
  apply not_true_iff_false in Hex. apply Hex, existsb_exists.
  exists v. split; [by apply list_elem_of_In | apply hval_eqb_refl].
Qed.

Lemma elem_of_set_add_str fonts v s :
  HStr s ∈ set_add fonts v ↔ HStr s ∈ fonts ∨ v = HStr s.
Proof.
  unfold set_add. destruct (existsb _ _) eqn:Hex.
  - split; [auto|]. intros [?| ->]; [done|].
    apply existsb_exists in Hex as (x & Hx%list_elem_of_In & Heq).
    destruct x as [|[]|z|t]; simplify_eq/=.
    apply String.eqb_eq in Heq as ->. done.
  - rewrite elem_of_app, list_elem_of_singleton.
    split; (intros [?|?]; [by left | by right]).
Qed.

(** The set of fonts has no repeated member, and holds a font file name
    exactly when some role is configured with it. *)
Lemma font_set_spec meta roles acc fonts :
  for_each (font_step meta) roles acc = Ok fonts →
  NoDup acc →
  NoDup fonts ∧
  ∀ s, HStr s ∈ fonts ↔
       HStr s ∈ acc ∨ ∃ role, role ∈ roles ∧ references_font meta role s.
Proof.
  revert acc. induction roles as [|r0 roles IH]; intros acc; cbn [for_each].
  - intros [= <-] Hnd. split; [done|]. intros s. split; [auto|].
    by intros [?|(? & ?%elem_of_nil & _)].
  - intros (acc' & Hstep & Hloop)%bind_Ok Hnd.
    assert (NoDup acc' ∧ ∀ s, HStr s ∈ acc' ↔ HStr s ∈ acc ∨ references_font meta r0 s)
      as [Hnd' Hacc'].
    { unfold font_step in Hstep. unfold references_font.
      destruct (Dict.get r0 meta) as [[| | | | |d]|];
        try (simplify_eq/=; split; [done|]; intros s'; split; [auto|];
             intros [?|(? & ? & _)]; by simplify_eq).
      apply bind_Ok in Hstep as (font & Hfont & [= <-]).
      split; [by apply set_add_NoDup|]. intros s.
      rewrite elem_of_set_add_str. split.
      - intros [?| ->]; [auto|]. right. exists d. split; [done|].
        by destruct (py_get "font" d); simplify_eq/=.
      - intros [?|(d' & [= <-] & Hs)]; [auto|]. right.
        rewrite Hs in Hfont. by simplify_eq/=. }
    destruct (IH _ Hloop Hnd') as [Hnd'' Hfonts]. split; [done|].
    intros s. rewrite Hfonts, Hacc'. split.
    + intros [[?|?]|(role & ? & ?)]; [auto| |].
      * right. exists r0. split; [left | done].
      * right. exists role. split; [by right | done].
    + intros [?|(role & [->|?]%elem_of_cons & ?)]; [auto|auto|].
      right. by exists role.
Qed.

Lemma select_font_line_others f meta fs roles bg ar :
  filter (is_font_line f) (bg_errors bg) = [] ∧
  filter (is_font_line f) (role_dir_errors (Dict.keys meta) ar) = [] ∧
  filter (is_font_line f) (all_diff_errors meta fs roles) = [].
Proof.
  unfold bg_errors, role_dir_errors. rewrite !select_append_if_nonempty.
  split_and!.
  - by destruct (sorted_ints _).
  - by destruct (sorted_strs _).
  - apply select_none. eapply Forall_impl; [apply Forall_all_diff_errors|].
    by intros m (? & ? & _ & ->).
Qed.

Lemma count_font_line fs f fonts :
  NoDup fonts →
  length (filter (is_font_line f) (font_errors fs fonts)) =
    if decide (f ∈ fonts ∧ font_missing fs f = true) then 1%nat else 0%nat.
Proof.
  unfold font_errors. induction fonts as [|g fonts IH]; intros Hnd.
  - case_decide as H; [by destruct H as [?%elem_of_nil _] | done].
  - apply NoDup_cons in Hnd as [Hg Hnd]. specialize (IH Hnd).
    rewrite filter_cons. destruct (decide (font_missing fs g = true)) as [Hmiss|Hok].
    + rewrite fmap_cons, filter_cons. simpl.
      destruct (decide (g = f)) as [->|Hne].
      * rewrite bool_decide_eq_true_2 by done. simpl. rewrite IH.
        rewrite decide_False by (by intros [? _]).
        rewrite decide_True; [done | split; [left | done]].
      * rewrite bool_decide_eq_false_2 by done. simpl. rewrite IH.
        apply decide_ext. rewrite elem_of_cons. naive_solver.
    + rewrite IH. apply decide_ext. rewrite elem_of_cons. naive_solver.
Qed.

(** C5. Font check deduplication.  Whatever order the interpreter iterates
    the set of fonts in, when [validate_assets] returns [r] no font line
    occurs twice among the errors, and for every font file name [s]: if
    some configured role (one or many) has the font [s] and the file
    [<assets_dir>/fonts/<s>] does not exist, the errors hold exactly one
    line for [s]; if no role has it, or the file exists, they hold none. *)
Theorem font_errors_deduplicated {T} set_iter meta (text_cfg : option (list (string * T)))
    fs r :
  (∀ fonts, set_iter fonts ≡ₚ fonts) →
  validate_assets set_iter meta text_cfg fs = Ok r →
  NoDup (filter is_font_msg (errors r)) ∧
  ∀ s,
    ((∃ role, role ∈ Dict.keys meta ∧ references_font meta role s) →
     font_isfile fs s = false →
     length (filter (is_font_line (HStr s)) (errors r)) = 1%nat) ∧
    ((¬ ∃ role, role ∈ Dict.keys meta ∧ references_font meta role s) ∨
     font_isfile fs s = true →
     length (filter (is_font_line (HStr s)) (errors r)) = 0%nat).
Proof.
  intros Hperm (bg & ar & fonts & Hbg & Har & Hfonts & Hall & ->)%validate_assets_Ok.
  destruct (font_set_spec _ _ _ _ Hfonts NoDup_nil_2) as [Hnd Hmem].
  assert (Hnd' : NoDup (set_iter fonts)) by (by rewrite Hperm).
  assert (Hcount : ∀ f,
    length (filter (is_font_line f)
              (errors (report_of set_iter meta text_cfg fs bg ar fonts))) =
    if decide (f ∈ fonts ∧ font_missing fs f = true) then 1%nat else 0%nat).
  { intros f. simpl. rewrite !filter_app.
    destruct (select_font_line_others f meta fs (Dict.keys meta) bg ar) as (-> & -> & ->).
    rewrite app_nil_r. simpl.
    rewrite count_font_line by done. apply decide_ext. by rewrite Hperm. }
  split.
  - simpl. rewrite !filter_app. unfold bg_errors, role_dir_errors.
    rewrite !select_append_if_nonempty.
    rewrite (select_none _ (all_diff_errors _ _ _)).
    2:{ eapply Forall_impl; [apply Forall_all_diff_errors|].
        by intros m (? & ? & _ & ->). }
    rewrite select_all.
    2:{ unfold font_errors. apply Forall_fmap, Forall_forall. by intros. }
    assert (NoDup (font_errors fs (set_iter fonts))).
    { unfold font_errors. apply NoDup_fmap_2, NoDup_filter, Hnd'.
      by intros f g [= ->]. }
    destruct (sorted_ints _), (sorted_strs _); simpl; by rewrite app_nil_r.
  - intros s. rewrite Hcount. unfold font_missing. simpl. split.
    + intros Href Hfile. rewrite decide_True; [done|].
      split; [apply Hmem; by right | by rewrite Hfile].
    + intros Hno. rewrite decide_False; [done|].
      intros [[?%elem_of_nil|Href]%Hmem Hfile]; [done|].
      destruct Hno as [Hno|Hyes]; [by destruct Hno | by rewrite Hyes in Hfile].
Qed.

Lemma font_errors_deduplicated_witness :
  ∃ r, validate_assets id twins_meta (None : option (list (string * list text_entry)))
         twins_assets = Ok r ∧
       errors r = [MissingFont (HStr "shared.ttf")] ∧
       length (filter (is_font_line (HStr "shared.ttf")) (errors r)) = 1%nat.
Proof.
  set (r := Report false [MissingFont (HStr "shared.ttf")] []
              (Stats 16 [("ann", RoleStat 1 1); ("bea", RoleStat 1 1)])).
  assert (Hr : validate_assets id twins_meta
                 (None : option (list (string * list text_entry))) twins_assets = Ok r)
    by (vm_compute; reflexivity).
  destruct (font_errors_deduplicated id twins_meta None twins_assets r
              (λ fonts, reflexivity fonts) Hr) as [_ Hs].
  exists r. split_and!; [exact Hr | reflexivity |].
  apply (Hs "shared.ttf"); [|reflexivity].
  exists "bea". split; [right; left|]. eexists. split; reflexivity.
Defined.

(** ** When the validator returns *)


Lemma scans_listable fs roles :
  listable fs roles →
  is_Ok (_scan_backgrounds fs) ∧ is_Ok (_scan_roles_in_assets fs) ∧
  ∀ role, role ∈ roles → is_Ok (_scan_role_diffs fs role).
Proof.
  intros (Hbg & Hch & Hroles).
  unfold _scan_backgrounds, _scan_roles_in_assets, _scan_role_diffs. split_and!.
  - destruct (background_dir fs); [by eexists..|done].
  - destruct (chara_dir fs); [by eexists..|done].
  - intros role Hrole%Hroles. destruct (role_dir fs role); [by eexists..|done].
Qed.

Lemma font_loop_returns meta roles acc :
  (∀ role entry, Dict.get role meta = Some entry → well_typed_entry entry) →
  is_Ok (for_each (font_step meta) roles acc).
Proof.
  intros Hwt. revert acc. induction roles as [|r0 roles IH]; intros acc; cbn [for_each].
  - by eexists.
  - destruct (Dict.get r0 meta) as [entry|] eqn:Hget.
    + destruct (Hwt _ _ Hget) as (d & -> & [font Hfont] & _).
      replace (font_step meta acc r0) with (Ok (set_add acc font)); [apply IH|].
      unfold font_step. by rewrite Hget, Hfont.
    + replace (font_step meta acc r0) with (Ok acc); [apply IH|].
      unfold font_step. by rewrite Hget.
Qed.

Lemma emotion_count_of_dict d :
  emotion_count_of (PDict d) =
    match Dict.get "emotion_count" d with
    | None => Ok 0
    | Some v => py_int v
    end.
Proof.
  unfold emotion_count_of, py_contains, py_getitem, Dict.mem.
  by destruct (Dict.get "emotion_count" d).
Qed.

Lemma elem_of_all_diff_errors meta fs roles m :
  m ∈ all_diff_errors meta fs roles →
  ∃ role, role ∈ roles ∧ m ∈ diff_errors role (role_sets_or_empty meta fs role).
Proof.
  unfold all_diff_errors.
  intros (role & Hrole & Hm)%list_elem_of_In%in_flat_map.
  exists role. by rewrite !list_elem_of_In.
Qed.



(** ** Determinism *)

Lemma collect_indexes_spec rex names :
  collect_indexes rex names = list_to_set (omap rex names).
Proof.
  unfold collect_indexes.
  assert (∀ acc : gset Z,
    fold_left (λ found name,
      match rex name with Some k => found ∪ {[k]} | None => found end) names acc =
    acc ∪ list_to_set (omap rex names)) as ->.
  { induction names as [|name names IH]; intros acc; simpl.
    - by rewrite union_empty_r_L.
    - rewrite IH. destruct (rex name); simpl; [|done].
      by rewrite <-(assoc_L (∪)). }
  by rewrite union_empty_l_L.
Qed.

Lemma scan_roles_spec fs names :
  chara_dir fs = Entries names →
  _scan_roles_in_assets fs = Ok (list_to_set (filter (λ name, chara_isdir fs name) names)).
Proof.
  unfold _scan_roles_in_assets. intros ->. f_equal.
  assert (∀ acc : gset string,
    fold_left (λ roles name,
      if chara_isdir fs name then roles ∪ {[name]} else roles) names acc =
    acc ∪ list_to_set (filter (λ name, chara_isdir fs name) names)) as ->.
  { induction names as [|name names IH]; intros acc; simpl.
    - by rewrite union_empty_r_L.
    - rewrite IH, filter_cons. destruct (chara_isdir fs name); simpl; [|done].
      by rewrite <-(assoc_L (∪)). }
  by rewrite union_empty_l_L.
Qed.

Lemma for_each_ext {A S} (f g : S → A → result S) xs s :
  (∀ s x, f s x = g s x) → for_each f xs s = for_each g xs s.
Proof.
  intros Hfg. revert s. induction xs as [|x xs IH]; intros s; simpl; [done|].
  rewrite Hfg. destruct (g s x); simpl; [apply IH | done].
Qed.

Lemma fold_left_ext {A B} (f g : B → A → B) xs b :
  (∀ b x, f b x = g b x) → fold_left f xs b = fold_left g xs b.
Proof.
  intros Hfg. revert b. induction xs as [|x xs IH]; intros b; simpl; [done|].
  by rewrite Hfg, IH.
Qed.

Lemma same_assets_scans fs fs' :
  same_assets fs fs' →
  _scan_backgrounds fs = _scan_backgrounds fs' ∧
  _scan_roles_in_assets fs = _scan_roles_in_assets fs' ∧
  ∀ role, _scan_role_diffs fs role = _scan_role_diffs fs' role.
Proof.
  intros (Hbg & Hch & Hisdir & Hrole & _). split_and!.
  - unfold _scan_backgrounds.
    destruct (background_dir fs), (background_dir fs'); simpl in Hbg; try done.
    by rewrite !collect_indexes_spec, Hbg.
  - destruct (chara_dir fs) as [|names|] eqn:H1, (chara_dir fs') as [|names'|] eqn:H2;
      simpl in Hch; try done.
    + unfold _scan_roles_in_assets. by rewrite H1, H2.
    + rewrite (scan_roles_spec fs names H1), (scan_roles_spec fs' names' H2).
      rewrite Hch. f_equal. f_equal. apply list_filter_iff. intros name.
      by rewrite Hisdir.
    + unfold _scan_roles_in_assets. by rewrite H1, H2.
  - intros role. unfold _scan_role_diffs. specialize (Hrole role).
    destruct (role_dir fs role), (role_dir fs' role); simpl in Hrole; try done.
    by rewrite !collect_indexes_spec, Hrole.
Qed.

Lemma Forall_append_if_nonempty {A} (P : message → Prop) (l : list A) m :
  P m → Forall P (append_if_nonempty l m []).
Proof. intros. destruct l; simpl; by repeat constructor. Qed.

Lemma Forall_sorted_all_diff_errors meta fs roles :
  Forall message_sorted (all_diff_errors meta fs roles).
Proof.
  apply Forall_forall. intros m (role & _ & Hm)%elem_of_all_diff_errors.
  unfold diff_errors in Hm. cbn zeta in Hm.
  destruct (sorted_ints _) as [|k l] eqn:Hs in Hm; simpl in Hm.
  - by apply elem_of_nil in Hm.
  - apply list_elem_of_singleton in Hm as ->. simpl. rewrite <-Hs.
    apply sorted_ints_lists.
Qed.

Lemma Forall_sorted_all_diff_warnings meta fs roles :
  Forall message_sorted (all_diff_warnings meta fs roles).
Proof.
  apply Forall_forall. unfold all_diff_warnings.
  intros m (role & _ & Hm%list_elem_of_In)%list_elem_of_In%in_flat_map.
  unfold diff_warnings in Hm. cbn zeta in Hm.
  destruct (sorted_ints _) as [|k l] eqn:Hs in Hm; simpl in Hm.
  - by apply elem_of_nil in Hm.
  - apply list_elem_of_singleton in Hm as ->. simpl. rewrite <-Hs.
    apply sorted_ints_lists.
Qed.

Lemma Forall_sorted_text_check {T} cfg_roles (text_cfg : option (list (string * T))) W :
  Forall message_sorted W → Forall message_sorted (text_check cfg_roles text_cfg W).
Proof.
  intros HW. unfold text_check. destruct text_cfg as [[|kv tc]|]; [done| |done].
  rewrite append_if_nonempty_app, (append_if_nonempty_app _ _ W), !Forall_app.
  split_and!; [done|..]; apply Forall_append_if_nonempty, sorted_strs_lists.
Qed.

(** C7. Determinism of the validator.  With the same metadata and text
    configuration, two observations of the same assets directory (the same
    names in each directory, listed in whatever order, and the same files)
    give the same outcome: the same report, with the same lines in the same
    order, or the same exception.  In a report every embedded list of
    identifiers is sorted. *)
Theorem validate_assets_deterministic {T} set_iter meta
    (text_cfg : option (list (string * T))) fs fs' :
  same_assets fs fs' →
  validate_assets set_iter meta text_cfg fs = validate_assets set_iter meta text_cfg fs' ∧
  ∀ r, validate_assets set_iter meta text_cfg fs = Ok r →
       Forall message_sorted (errors r) ∧ Forall message_sorted (warnings r).
Proof.
  intros Hsame. split.
  - destruct (same_assets_scans _ _ Hsame) as (Hbg & Hch & Hdiff).
    destruct Hsame as (_ & _ & _ & _ & Hfont).
    unfold validate_assets. rewrite Hbg, Hch.
    destruct (_scan_backgrounds fs') as [bg|]; simpl; [|done].
    destruct (_scan_roles_in_assets fs') as [ar|]; simpl; [|done].
    destruct (for_each (font_step meta) (Dict.keys meta) []) as [fonts|]; simpl; [|done].
    rewrite (fold_left_ext (font_check fs) (font_check fs')).
    2:{ intros errs font. unfold font_check. by rewrite Hfont. }
    rewrite (for_each_ext (diff_step meta fs) (diff_step meta fs')); [done|].
    intros [[E W] R] role. unfold diff_step. by rewrite Hdiff.
  - intros r (bg & ar & fonts & _ & _ & _ & _ & ->)%validate_assets_Ok. simpl. split.
    + rewrite !Forall_app. split_and!.
      * apply Forall_append_if_nonempty, sorted_ints_lists.
      * apply Forall_append_if_nonempty, sorted_strs_lists.
      * unfold font_errors. apply Forall_fmap, Forall_forall. by intros.
      * apply Forall_sorted_all_diff_errors.
    + apply Forall_sorted_text_check. rewrite !Forall_app. split_and!.
      * apply Forall_append_if_nonempty, sorted_ints_lists.
      * apply Forall_append_if_nonempty, sorted_strs_lists.
      * apply Forall_sorted_all_diff_warnings.
Qed.

Lemma validate_assets_deterministic_witness :
  validate_assets id luna_meta (Some [("luna", [] : list text_entry)]) luna_assets =
  validate_assets id luna_meta (Some [("luna", [] : list text_entry)]) luna_assets_relisted.
Proof.
  apply validate_assets_deterministic.
  split_and!; try done; try intros role; simpl;
    try destruct (String.eqb role "luna"); simpl; try done;
    symmetry; apply reverse_Permutation.
Defined.

(** The order of the font lines is the order in which the set of fonts is
    iterated: it is fixed for a given interpreter process, not by sorting. *)
Remark font_lines_follow_set_order :
  let meta := [("ann", PDict [("font", PStr "a.ttf")]); ("bea", PDict [("font", PStr "b.ttf")])] in
  let no_text : option (list (string * list text_entry)) := None in
  (r ← validate_assets id meta no_text twins_assets; Ok (errors r)) =
    Ok [MissingFont (HStr "a.ttf"); MissingFont (HStr "b.ttf")] ∧
  (r ← validate_assets reverse meta no_text twins_assets; Ok (errors r)) =
    Ok [MissingFont (HStr "b.ttf"); MissingFont (HStr "a.ttf")].
Proof. split; vm_compute; reflexivity. Qed.

(** ** The config readers *)

Lemma lower_ascii_idemp c : lower_ascii (lower_ascii c) = lower_ascii c.
Proof.
  destruct c as [[] [] [] [] [] [] [] []]; reflexivity.
Qed.

Lemma lower_idemp s : lower (lower s) = lower s.
Proof.
  induction s as [|c s IH]; simpl; [done|]. by rewrite lower_ascii_idemp, IH.
Qed.

Lemma whitelist_loop items acc :
  fold_left whitelist_step items acc = acc ++ trimmed_entries items.
Proof.
  unfold trimmed_entries. revert acc.
  induction items as [|it items IH]; intros acc; simpl.
  - by rewrite app_nil_r.
  - rewrite IH. destruct it as [| | |s| |]; simpl; try done.
    destruct (String.eqb_spec (strip s) "") as [Heq|Hne].
    + by rewrite decide_True.
    + rewrite decide_False by done. by rewrite <-app_assoc.
Qed.

(** The reader's [strip] and [lower] against the words of the
    specification. *)

Lemma is_space_whitespace c : is_space c = bool_decide (c ∈ whitespace).
Proof. destruct c as [[] [] [] [] [] [] [] []]; vm_compute; reflexivity. Qed.

Lemma is_space_true c : is_space c = true ↔ c ∈ whitespace.
Proof. rewrite is_space_whitespace. apply bool_decide_eq_true. Qed.

Lemma is_space_false c : is_space c = false ↔ c ∉ whitespace.
Proof. rewrite is_space_whitespace. apply bool_decide_eq_false. Qed.

Lemma lower_ascii_lowercase c : lower_ascii c = lowercase_char letter_table c.
Proof. destruct c as [[] [] [] [] [] [] [] []]; vm_compute; reflexivity. Qed.

Lemma lower_lowercase s : lower s = lowercase s.
Proof.
  induction s as [|c s IH]; [done|].
  cbn [lower lowercase]. by rewrite IH, lower_ascii_lowercase.
Qed.

Section trimming.
#[local] Arguments String.append : simpl nomatch.

Lemma blank_app s t : blank (s +:+ t) ↔ blank s ∧ blank t.
Proof.
  induction s as [|c s IH]; cbn [String.append blank]; [naive_solver|].
  rewrite IH. naive_solver.
Qed.

Lemma app_last_inv t' c : ∀ a u,
  String a u = t' +:+ String c "" →
  (t' = "" ∧ a = c ∧ u = "") ∨ (∃ t'', t' = String a t'' ∧ u = t'' +:+ String c "").
Proof.
  destruct t' as [|b t'']; cbn [String.append]; intros a u [= -> ->]; eauto.
Qed.

Lemma lstrip_prefix s : ∃ pre, s = pre +:+ lstrip s ∧ blank pre.
Proof.
  induction s as [|c s (pre & Hs & Hpre)]; [by exists ""|].
  cbn [lstrip]. destruct (is_space c) eqn:Hc.
  - exists (String c pre). cbn [String.append blank]. rewrite <-Hs.
    by apply is_space_true in Hc.
  - by exists "".
Qed.

Lemma lstrip_head s c t : lstrip s = String c t → c ∉ whitespace.
Proof.
  induction s as [|a s IH]; cbn [lstrip]; [done|].
  destruct (is_space a) eqn:Ha; [done|]. intros [= <- <-].
  by apply is_space_false.
Qed.

Lemma lstrip_blank s : blank s → lstrip s = "".
Proof.
  induction s as [|c s IH]; [done|]. cbn [blank lstrip].
  intros [Hc%is_space_true Hs]. rewrite Hc. auto.
Qed.

Lemma lstrip_app_blank pre u : blank pre → lstrip (pre +:+ u) = lstrip u.
Proof.
  induction pre as [|c pre IH]; [done|]. cbn [blank String.append].
  intros [Hc%is_space_true Hpre].
  change (lstrip (String c (pre +:+ u))) with
    (if is_space c then lstrip (pre +:+ u) else String c (pre +:+ u)).
  rewrite Hc. auto.
Qed.

Lemma rstrip_cons c s :
  rstrip (String c s) =
    match rstrip s with
    | EmptyString => if is_space c then EmptyString else String c EmptyString
    | t => String c t
    end.
Proof. reflexivity. Qed.

Lemma rstrip_suffix s : ∃ post, s = rstrip s +:+ post ∧ blank post.
Proof.
  induction s as [|c s (post & Hs & Hpost)]; [by exists ""|].
  rewrite rstrip_cons. destruct (rstrip s) as [|a t].
  - cbn [String.append] in Hs. subst post. destruct (is_space c) eqn:Hc.
    + exists (String c s). cbn [String.append blank]. by apply is_space_true in Hc.
    + by exists s.
  - exists post. cbn [String.append] in *. by rewrite <-Hs.
Qed.

Lemma rstrip_last s : ∀ t' c, rstrip s = t' +:+ String c "" → c ∉ whitespace.
Proof.
  induction s as [|a s IH]; intros t' c.
  - cbn [rstrip]. by destruct t'.
  - rewrite rstrip_cons. destruct (rstrip s) as [|b u].
    + destruct (is_space a) eqn:Ha; [by destruct t'|].
      intros [(_ & -> & _) | (t'' & _ & Hu)]%app_last_inv.
      * by apply is_space_false.
      * by destruct t''.
    + intros [(_ & _ & [=]) | (t'' & _ & Hu)]%app_last_inv.
      by apply (IH t'' c).
Qed.

Lemma rstrip_blank s : blank s → rstrip s = "".
Proof.
  induction s as [|c s IH]; [done|]. cbn [blank].
  intros [Hc%is_space_true Hs]. rewrite rstrip_cons, (IH Hs). by rewrite Hc.
Qed.

Lemma rstrip_app_blank t post : blank post → rstrip (t +:+ post) = rstrip t.
Proof.
  intros Hpost. induction t as [|a t IH].
  - by apply rstrip_blank.
  - cbn [String.append]. by rewrite !rstrip_cons, IH.
Qed.

Lemma rstrip_trimmed t :
  (∀ t' c, t = t' +:+ String c "" → c ∉ whitespace) → rstrip t = t.
Proof.
  induction t as [|a t IH]; [done|]. intros Hlast. rewrite rstrip_cons.
  destruct t as [|b u].
  - cbn [rstrip]. specialize (Hlast "" a eq_refl). apply is_space_false in Hlast.
    by rewrite Hlast.
  - rewrite IH; [done|]. intros t' c Ht'. apply (Hlast (String a t') c).
    cbn [String.append]. by rewrite Ht'.
Qed.

Lemma strip_trimmed_of s : trimmed_of s (strip s).
Proof.
  unfold trimmed_of, strip. split_and!.
  - destruct (lstrip_prefix s) as (pre & Hs & Hpre).
    destruct (rstrip_suffix (lstrip s)) as (post & Hl & Hpost).
    exists pre, post. split_and!; [|done..]. by rewrite <-Hl.
  - intros c t' Ht'. destruct (lstrip s) as [|a u] eqn:Hl; [done|].
    rewrite rstrip_cons in Ht'. apply lstrip_head in Hl.
    destruct (rstrip u); [destruct (is_space a)|]; by simplify_eq.
  - apply rstrip_last.
Qed.

Lemma strip_blank s : strip s = "" ↔ blank s.
Proof.
  split.
  - intros Hs. destruct (strip_trimmed_of s) as [(pre & post & Heq & Hpre & Hpost) _].
    rewrite Hs in Heq. subst s. cbn [String.append]. by apply blank_app.
  - intros Hs. unfold strip. by rewrite (lstrip_blank s Hs).
Qed.

Lemma trimmed_of_strip s t : trimmed_of s t → t ≠ "" → t = strip s.
Proof.
  intros [(pre & post & -> & Hpre & Hpost) [Hhead Hlast]] Hne.
  destruct t as [|c t'] eqn:Ht; [done|]. rewrite <-Ht in *.
  unfold strip. rewrite (lstrip_app_blank pre _ Hpre).
  assert (lstrip (t +:+ post) = t +:+ post) as ->.
  { rewrite Ht. cbn [String.append lstrip].
    specialize (Hhead c t' Ht). apply is_space_false in Hhead. by rewrite Hhead. }
  rewrite (rstrip_app_blank t post Hpost). symmetry. by apply rstrip_trimmed.
Qed.

Lemma trimmed_of_not_blank s t : trimmed_of s t → t ≠ "" → ¬ blank s.
Proof.
  intros Ht Hne Hs. apply Hne. rewrite (trimmed_of_strip s t Ht Hne).
  by apply strip_blank.
Qed.

Lemma whitelist_of_trimmed_entries items : whitelist_of items (trimmed_entries items).
Proof.
  unfold trimmed_entries. induction items as [|it items IH]; [constructor|].
  cbn [omap list_omap].
  destruct it as [| | |s| |]; try (by apply whitelist_not_str).
  destruct (decide (strip s = "")) as [Hs|Hs].
  - apply whitelist_blank; [by apply strip_blank|done].
  - apply whitelist_keep; [apply strip_trimmed_of|done..].
Qed.

Lemma whitelist_of_unique items out :
  whitelist_of items out → out = trimmed_entries items.
Proof.
  unfold trimmed_entries.
  induction 1 as [|s t items out Ht Hne _ IH|s items out Hs _ IH|v items out Hv _ IH];
    cbn [omap list_omap].
  - done.
  - rewrite <-(trimmed_of_strip s t Ht Hne), decide_False by done. by rewrite IH.
  - apply strip_blank in Hs. by rewrite decide_True.
  - destruct v; try done. by destruct (Hv s).
Qed.

End trimming.

(** C6. [load_process_whitelist]: for every whitelist document and every
    [os_name], the result is read under the key [os_name] lower-cased.
    When that key holds a list, the result is the whitelist of the list:
    its string entries that are not blank, each trimmed, in their order,
    the non-string and the blank ones dropped; and it is the only such
    list.  When the key is absent (or holds no list, or there is no
    document) the result is the empty list.  Hence two names with the same
    lower-casing give the same result, in particular ["Win32"] and
    ["win32"]. *)
Theorem load_process_whitelist_contract data os_name :
  match data ≫= Dict.get (lowercase os_name) with
  | Some (PList items) =>
      whitelist_of items (load_process_whitelist data os_name) ∧
      ∀ out, whitelist_of items out → out = load_process_whitelist data os_name
  | _ => load_process_whitelist data os_name = []
  end ∧
  (∀ os_name', lowercase os_name' = lowercase os_name →
     load_process_whitelist data os_name' = load_process_whitelist data os_name) ∧
  load_process_whitelist data "Win32" = load_process_whitelist data "win32".
Proof.
  assert (Hspec : ∀ name, load_process_whitelist data name =
    match data ≫= Dict.get (lowercase name) with
    | Some (PList items) => trimmed_entries items
    | _ => []
    end).
  { intros name. unfold load_process_whitelist. rewrite <-lower_lowercase.
    assert ((if String.eqb name "" then "" else name) = name) as ->.
    { by destruct (String.eqb_spec name "") as [->|]. }
    destruct data as [[|kv d]|]; [done| |done].
    cbn [mbind option_bind].
    destruct (Dict.get (lower name) (kv :: d)) as [[]|]; try done.
    by rewrite whitelist_loop. }
  split_and!.
  - rewrite Hspec.
    destruct (data ≫= Dict.get (lowercase os_name)) as [[| | | |items|]|]; try done.
    split; [apply whitelist_of_trimmed_entries | apply whitelist_of_unique].
  - intros os_name' Heq. by rewrite !Hspec, Heq.
  - by rewrite !Hspec.
Qed.

Lemma text_item_loop items acc :
  fold_left text_item_step items acc = acc ++ omap text_item_ok items.
Proof.
  revert acc. induction items as [|it items IH]; intros acc; simpl.
  - by rewrite app_nil_r.
  - rewrite IH. unfold text_item_step, text_item_ok.
    destruct it as [| | | | |d]; simpl; try done.
    destruct (parse_text_item d); simpl; [|done]. by rewrite <-app_assoc.
Qed.

Lemma text_role_loop_other root acc role :
  role ∉ Dict.keys root →
  Dict.get role (fold_left text_role_step root acc) = Dict.get role acc.
Proof.
  unfold Dict.keys. revert acc.
  induction root as [|[k v] root IH]; intros acc Hnot; simpl; [done|].
  simpl in Hnot. apply not_elem_of_cons in Hnot as [Hne Hnot].
  rewrite IH by done. unfold text_role_step. simpl.
  destruct v; try done. by rewrite DictFacts.get_set, decide_False.
Qed.

Lemma text_role_loop root acc role items :
  NoDup (Dict.keys root) →
  (role, PList items) ∈ root →
  Dict.get role (fold_left text_role_step root acc) = Some (omap text_item_ok items).
Proof.
  unfold Dict.keys. revert acc.
  induction root as [|[k v] root IH]; intros acc Hnd Hin; simpl.
  - by apply elem_of_nil in Hin.
  - simpl in Hnd. apply NoDup_cons in Hnd as [Hk Hnd].
    apply elem_of_cons in Hin as [[= <- <-]|Hin]; [|by apply IH].
    rewrite text_role_loop_other by done.
    unfold text_role_step. simpl.
    by rewrite DictFacts.get_set, decide_True, text_item_loop.
Qed.

(** C8. In [load_text_configs], a role whose value in the [text_configs]
    mapping is a list is a key of the result, with the entries read from
    its well-formed items; when every item is malformed the role is kept
    and maps to the empty list.  Such a role therefore has a text
    configuration for [validate_assets]: the text-coverage check never
    adds it to the roles reported without one. *)
Theorem load_text_configs_keeps_list_roles data root role items :
  data ≫= Dict.get "text_configs" = Some (PDict root) →
  NoDup (Dict.keys root) →
  (role, PList items) ∈ root →
  Dict.get role (load_text_configs data) = Some (omap text_item_ok items) ∧
  (Forall (λ item, text_item_ok item = None) items →
     Dict.get role (load_text_configs data) = Some []) ∧
  role ∈ Dict.keys (load_text_configs data) ∧
  ∀ cfg_roles W l,
    RolesWithoutText l ∈ text_check cfg_roles (Some (load_text_configs data)) W →
    RolesWithoutText l ∈ W ∨ role ∉ l.
Proof.
  intros Hdata Hnd Hin.
  assert (Hget : Dict.get role (load_text_configs data) = Some (omap text_item_ok items)).
  { unfold load_text_configs. destruct data as [d|]; [|done].
    cbn [mbind option_bind] in Hdata. destruct d as [|kv d]; [done|].
    rewrite Hdata. by apply text_role_loop. }
  assert (Hkey : role ∈ Dict.keys (load_text_configs data)).
  { apply DictFacts.get_is_Some. by eexists. }
  split_and!; [done| |done|].
  - intros Hall. rewrite Hget. f_equal. clear -Hall.
    induction Hall as [|item items Hitem _ IH]; simpl; [done|]. by rewrite Hitem.
  - intros cfg_roles W l. unfold text_check.
    destruct (load_text_configs data) as [|kv tc] eqn:Hres; [auto|].
    rewrite append_if_nonempty_app, (append_if_nonempty_app _ _ W), !elem_of_app.
    intros [[?|Ha]|Hb]; [auto| |].
    + destruct (sorted_strs _); simpl in Ha; [by apply elem_of_nil in Ha|].
      by apply list_elem_of_singleton in Ha.
    + right. destruct (sorted_strs _) as [|x xs] eqn:Hs in Hb; simpl in Hb;
        [by apply elem_of_nil in Hb|].
      apply list_elem_of_singleton in Hb as [= ->]. rewrite <-Hs.
      destruct (sorted_strs_lists
        (list_to_set cfg_roles ∖ list_to_set (Dict.keys (kv :: tc)))) as (_ & _ & Hel).
      rewrite Hel, elem_of_difference, !elem_of_list_to_set. by intros [_ ?].
Qed.

Lemma load_text_configs_keeps_list_roles_witness :
  Dict.get "luna" (load_text_configs malformed_text_data) = Some [] ∧
  Dict.keys (load_text_configs malformed_text_data) = ["luna"].
Proof.
  split; [|reflexivity].
  eapply (load_text_configs_keeps_list_roles malformed_text_data _ "luna").
  - reflexivity.
  - simpl. apply NoDup_cons. split; [|apply NoDup_singleton].
    by intros [=]%list_elem_of_singleton.
  - left.
  - by repeat constructor.
Defined.

Example load_process_whitelist_example :
  load_process_whitelist whitelist_data "Win32" = ["game.exe"; "launcher.exe"] ∧
  load_process_whitelist whitelist_data "linux" = [].
Proof. split; reflexivity. Qed.

(** ** The objects of the caller *)

Section keeps.
Variable n : nat.
Local Abbreviation top := (λ _, True).

Lemma keeps_ret {A} (Q : A → Prop) a : Q a → keeps n Q (mret a).
Proof. intros HQ h a' h' Hn [= <- <-]. auto. Qed.

Lemma keeps_lift {A} (m : result A) : keeps n top (lift m).
Proof. intros h a h' Hn Hrun. unfold lift in Hrun. destruct m; by simplify_eq. Qed.

Lemma keeps_bind {A B} (Q : A → Prop) (R : B → Prop) (m : M A) (k : A → M B) :
  keeps n Q m → (∀ a, Q a → keeps n R (k a)) → keeps n R (m ≫= k).
Proof.
  intros Hm Hk h b h' Hn Hrun. unfold mbind, M_bind in Hrun.
  destruct (m h) as [[a h1]|] eqn:Hmh; [|done].
  destruct (Hm _ _ _ Hn Hmh) as (Ht1 & Hl1 & HQ).
  destruct (Hk a HQ h1 b h' ltac:(lia) Hrun) as (Ht2 & Hl2 & HR).
  split_and!; [congruence | lia | done].
Qed.

Lemma keeps_alloc c : keeps n (λ l, (n ≤ l)%nat) (alloc c).
Proof.
  intros h l h' Hn [= <- <-]. rewrite length_app. simpl.
  split_and!; [by rewrite take_app_le | lia | done].
Qed.

Lemma keeps_update (l : nat) (c : cell) (h : list cell) :
  (n ≤ l)%nat → (n ≤ length h)%nat →
  take n (<[l := c]> h) = take n h ∧ (length h ≤ length (<[l := c]> h))%nat.
Proof. intros. by rewrite take_insert_ge, length_insert. Qed.

Lemma keeps_append l m : (n ≤ l)%nat → keeps n top (append l m).
Proof.
  intros Hl h [] h' Hn Hrun. unfold append in Hrun.
  destruct (h !! l) as [[]|]; simplify_eq.
  destruct (keeps_update l (CMessages (lines ++ [m])) h); auto.
Qed.

Lemma keeps_set_backgrounds l k : (n ≤ l)%nat → keeps n top (set_backgrounds l k).
Proof.
  intros Hl h [] h' Hn Hrun. unfold set_backgrounds in Hrun.
  destruct (h !! l) as [[]|]; simplify_eq.
  destruct (keeps_update l (CStats (Some k) roles) h); auto.
Qed.

Lemma keeps_set_role_stat l role st : (n ≤ l)%nat → keeps n top (set_role_stat l role st).
Proof.
  intros Hl h [] h' Hn Hrun. unfold set_role_stat in Hrun.
  destruct (h !! l) as [[]|]; simplify_eq.
  destruct (keeps_update l (CStats backgrounds (Dict.set role st roles)) h); auto.
Qed.

Lemma keeps_read_value l : keeps n top (read_value l).
Proof.
  intros h v h' Hn Hrun. unfold read_value in Hrun.
  destruct (h !! l) as [[]|]; by simplify_eq.
Qed.

Lemma keeps_read_messages l : keeps n top (read_messages l).
Proof.
  intros h v h' Hn Hrun. unfold read_messages in Hrun.
  destruct (h !! l) as [[]|]; by simplify_eq.
Qed.

Lemma keeps_keys_of l : keeps n top (keys_of l).
Proof.
  eapply keeps_bind; [apply keeps_read_value|].
  intros v _. destruct v; by (apply keeps_lift || apply keeps_ret).
Qed.

Lemma keeps_get_of l k : keeps n top (get_of l k).
Proof.
  eapply keeps_bind; [apply keeps_read_value|].
  intros v _. destruct v; by (apply keeps_lift || apply keeps_ret).
Qed.

Lemma keeps_getitem_of l k : keeps n top (getitem_of l k).
Proof.
  eapply keeps_bind; [apply keeps_read_value|].
  intros v _. destruct v; apply keeps_lift.
Qed.

Lemma keeps_append_if_nonempty_h {A} (xs : list A) l m :
  (n ≤ l)%nat → keeps n top (append_if_nonempty_h xs l m).
Proof. intros. destruct xs; [by apply keeps_ret | by apply keeps_append]. Qed.

Lemma keeps_for_each_h {A S} (body : S → A → M S) xs s :
  (∀ s x, keeps n top (body s x)) → keeps n top (for_each_h body xs s).
Proof.
  intros Hbody. revert s. induction xs as [|x xs IH]; intros s; simpl.
  - by apply keeps_ret.
  - eapply keeps_bind; [apply Hbody | auto].
Qed.
End keeps.

Create HintDb keeps.

#[local] Hint Resolve keeps_lift keeps_append keeps_set_backgrounds keeps_set_role_stat
  keeps_read_value keeps_read_messages keeps_keys_of keeps_get_of keeps_getitem_of
  keeps_append_if_nonempty_h keeps_for_each_h : keeps.

Ltac keeps_step :=
  first
    [ eapply keeps_bind; [solve [eauto with keeps]|]; intros ? _
    | solve [eauto with keeps]
    | by apply keeps_ret ].

Lemma keeps_validate_assets_h set_iter meta text_cfg fs n :
  keeps n (λ _, True) (validate_assets_h set_iter meta text_cfg fs).
Proof.
  unfold validate_assets_h.
  eapply keeps_bind; [apply keeps_alloc|]. intros errors Herrors.
  eapply keeps_bind; [apply keeps_alloc|]. intros warnings Hwarnings.
  eapply keeps_bind; [apply keeps_alloc|]. intros stats Hstats.
  do 8 keeps_step.
  eapply keeps_bind.
  { apply keeps_for_each_h. intros fonts r. unfold font_step_h.
    eapply keeps_bind; [apply keeps_get_of|]. intros entry _.
    destruct entry as [[]|]; try by apply keeps_ret.
    eapply keeps_bind; [apply keeps_getitem_of|]. intros entry _.
    destruct entry; try apply keeps_lift.
    keeps_step. by apply keeps_ret. }
  intros fonts _.
  eapply keeps_bind.
  { apply keeps_for_each_h. intros [] font. unfold font_check_h.
    destruct (font_isfile _ _); [by apply keeps_ret | by apply keeps_append]. }
  intros _ _.
  eapply keeps_bind.
  { apply keeps_for_each_h. intros [] role. unfold diff_step_h. repeat keeps_step. }
  intros _ _.
  eapply keeps_bind.
  { unfold text_check_h. keeps_step.
    destruct (py_truthy _); [repeat keeps_step | by apply keeps_ret]. }
  intros _ _. repeat keeps_step.
Qed.

(** *** The store version computes the report of [validate_assets] *)

Section refines.
Variables (h : list cell) (meta_loc : nat) (meta : list (string * pyval)).
Hypothesis Hmeta : h !! meta_loc = Some (CValue (PDict meta)).

Lemma lookup_with_report l c E W b R :
  h !! l = Some c → with_report h E W b R !! l = Some c.
Proof. intros Hl. unfold with_report. by apply lookup_app_l_Some. Qed.

Lemma append_errors m E W b R :
  append (length h) m (with_report h E W b R) = Ok ((), with_report h (E ++ [m]) W b R).
Proof.
  unfold append, with_report. rewrite lookup_app_r, Nat.sub_diag by lia. simpl.
  by rewrite insert_app_r_alt, Nat.sub_diag by lia.
Qed.

Lemma append_warnings m E W b R :
  append (length h + 1) m (with_report h E W b R) =
    Ok ((), with_report h E (W ++ [m]) b R).
Proof.
  unfold append, with_report. rewrite lookup_app_r by lia.
  replace (length h + 1 - length h)%nat with 1%nat by lia. simpl.
  rewrite insert_app_r_alt by lia.
  by replace (length h + 1 - length h)%nat with 1%nat by lia.
Qed.

Lemma set_backgrounds_stats k E W b R :
  set_backgrounds (length h + 2) k (with_report h E W b R) =
    Ok ((), with_report h E W (Some k) R).
Proof.
  unfold set_backgrounds, with_report. rewrite lookup_app_r by lia.
  replace (length h + 2 - length h)%nat with 2%nat by lia. simpl.
  rewrite insert_app_r_alt by lia.
  by replace (length h + 2 - length h)%nat with 2%nat by lia.
Qed.

Lemma set_role_stat_stats role st E W b R :
  set_role_stat (length h + 2) role st (with_report h E W b R) =
    Ok ((), with_report h E W b (Dict.set role st R)).
Proof.
  unfold set_role_stat, with_report. rewrite lookup_app_r by lia.
  replace (length h + 2 - length h)%nat with 2%nat by lia. simpl.
  rewrite insert_app_r_alt by lia.
  by replace (length h + 2 - length h)%nat with 2%nat by lia.
Qed.

Lemma append_if_nonempty_errors {A} (l : list A) m E W b R :
  append_if_nonempty_h l (length h) m (with_report h E W b R) =
    Ok ((), with_report h (append_if_nonempty l m E) W b R).
Proof. destruct l; [done | apply append_errors]. Qed.

Lemma append_if_nonempty_warnings {A} (l : list A) m E W b R :
  append_if_nonempty_h l (length h + 1) m (with_report h E W b R) =
    Ok ((), with_report h E (append_if_nonempty l m W) b R).
Proof. destruct l; [done | apply append_warnings]. Qed.

Lemma read_meta E W b R :
  read_value meta_loc (with_report h E W b R) = Ok (PDict meta, with_report h E W b R).
Proof. unfold read_value. by rewrite (lookup_with_report _ _ _ _ _ _ Hmeta). Qed.

Lemma font_loop_store roles acc E W b R :
  for_each_h (font_step_h meta_loc) roles acc (with_report h E W b R) =
    match for_each (font_step meta) roles acc with
    | Ok fonts => Ok (fonts, with_report h E W b R)
    | Raise e => Raise e
    end.
Proof.
  revert acc. induction roles as [|r roles IH]; intros acc; cbn [for_each_h for_each].
  - done.
  - unfold mbind at 1, M_bind.
    assert (font_step_h meta_loc acc r (with_report h E W b R) =
            match font_step meta acc r with
            | Ok fonts => Ok (fonts, with_report h E W b R)
            | Raise e => Raise e
            end) as ->.
    { unfold font_step_h, font_step, get_of, getitem_of, mbind, M_bind.
      rewrite read_meta. cbn [mret M_ret].
      destruct (Dict.get r meta) as [[]|] eqn:Hget; try done.
      rewrite read_meta. unfold lift. rewrite Hget.
      by destruct (to_hashable _). }
    destruct (font_step meta acc r) as [fonts|]; simpl; [apply IH | done].
Qed.

Lemma font_check_loop_store fs fonts E W b R :
  for_each_h (font_check_h fs (length h)) fonts () (with_report h E W b R) =
    Ok ((), with_report h (fold_left (font_check fs) fonts E) W b R).
Proof.
  revert E. induction fonts as [|f fonts IH]; intros E; cbn [for_each_h fold_left].
  - done.
  - unfold mbind, M_bind, font_check_h, font_check.
    destruct (font_isfile fs (py_str f)); [apply IH|].
    rewrite append_errors. apply IH.
Qed.

Lemma diff_loop_store fs roles E W b R :
  for_each_h (diff_step_h meta_loc fs (length h) (length h + 1) (length h + 2))
    roles () (with_report h E W b R) =
    match for_each (diff_step meta fs) roles (E, W, R) with
    | Ok (E', W', R') => Ok ((), with_report h E' W' b R')
    | Raise e => Raise e
    end.
Proof.
  revert E W R. induction roles as [|role roles IH]; intros E W R;
    cbn [for_each_h for_each].
  - done.
  - unfold mbind at 1, M_bind.
    assert (diff_step_h meta_loc fs (length h) (length h + 1) (length h + 2) () role
              (with_report h E W b R) =
            match diff_step meta fs (E, W, R) role with
            | Ok (E', W', R') => Ok ((), with_report h E' W' b R')
            | Raise e => Raise e
            end) as ->.
    { unfold diff_step.
      destruct (Dict.get role meta) as [entry|] eqn:Hget; cbn [mbind result_bind];
        [destruct (emotion_count_of entry) as [ec|] eqn:Hec; cbn [mbind result_bind];
         [destruct (_scan_role_diffs fs role) as [found|] eqn:Hscan;
          cbn [mbind result_bind]|]|];
        unfold diff_step_h, getitem_of, mbind, M_bind; rewrite read_meta;
        unfold lift; rewrite Hget, ?Hec, ?Hscan; try done.
      rewrite set_role_stat_stats, append_if_nonempty_errors.
      by rewrite append_if_nonempty_warnings. }
    destruct (diff_step meta fs (E, W, R) role) as [[[E' W'] R']|]; simpl;
      [apply IH | done].
Qed.

Lemma text_check_store text_loc tv topt cfg_roles E W b R :
  h !! text_loc = Some (CValue tv) →
  text_view tv = Some topt →
  text_check_h cfg_roles text_loc (length h + 1) (with_report h E W b R) =
    Ok ((), with_report h E (text_check cfg_roles topt W) b R).
Proof.
  intros Htext Hview. unfold text_check_h, keys_of, mbind, M_bind, read_value.
  rewrite (lookup_with_report _ _ _ _ _ _ Htext).
  unfold text_view in Hview. destruct (py_truthy tv) eqn:Htruthy.
  - destruct tv as [| | | | |d]; simplify_eq.
    rewrite (lookup_with_report _ _ _ _ _ _ Htext). cbn [mret M_ret].
    rewrite append_if_nonempty_warnings, append_if_nonempty_warnings.
    unfold text_check. by destruct d.
  - simplify_eq. done.
Qed.

(** The store version of the validator allocates its three objects behind
    the caller's and fills them with the report of [validate_assets]; it
    raises exactly when [validate_assets] does. *)
Lemma validate_assets_h_refines set_iter text_loc tv topt fs :
  h !! text_loc = Some (CValue tv) →
  text_view tv = Some topt →
  validate_assets_h set_iter meta_loc text_loc fs h =
    match validate_assets set_iter meta topt fs with
    | Ok r =>
        Ok (ReportRefs (ok r) (length h) (length h + 1) (length h + 2),
            with_report h (errors r) (warnings r)
              (Some (stats_backgrounds_found (stats r))) (stats_roles (stats r)))
    | Raise e => Raise e
    end.
Proof.
  intros Htext Hview. unfold validate_assets_h, validate_assets.
  unfold mbind at 1 2 3, M_bind, alloc.
  rewrite !length_app. cbn [length]. rewrite <-!app_assoc. cbn [app].
  replace (length h + 1 + 1)%nat with (length h + 2)%nat by lia.
  fold (with_report h [] [] None []).
  unfold mbind at 1, M_bind, lift.
  destruct (_scan_backgrounds fs) as [bg|]; [|done]. cbn [mbind result_bind].
  unfold mbind at 1, M_bind. rewrite set_backgrounds_stats.
  unfold mbind at 1, M_bind. rewrite append_if_nonempty_errors.
  unfold mbind at 1, M_bind. rewrite append_if_nonempty_warnings.
  unfold mbind at 1, M_bind, keys_of. unfold mbind at 1, M_bind.
  rewrite read_meta. cbn [mret M_ret].
  unfold mbind at 1, M_bind.
  destruct (_scan_roles_in_assets fs) as [ar|]; [|done]. cbn [mbind result_bind].
  unfold mbind at 1, M_bind. rewrite append_if_nonempty_errors.
  unfold mbind at 1, M_bind. rewrite append_if_nonempty_warnings.
  unfold mbind at 1, M_bind. rewrite font_loop_store.
  destruct (for_each (font_step meta) (Dict.keys meta) []) as [fonts|]; [|done].
  cbn [mbind result_bind].
  unfold mbind at 1, M_bind. rewrite font_check_loop_store.
  unfold mbind at 1, M_bind. rewrite diff_loop_store.
  destruct (for_each (diff_step meta fs) _ _) as [[[E W] R]|]; [|done].
  cbn [mbind result_bind].
  unfold mbind at 1, M_bind. rewrite (text_check_store _ _ _ _ _ _ _ _ Htext Hview).
  unfold mbind at 1, M_bind, read_messages. unfold with_report at 1.
  rewrite lookup_app_r, Nat.sub_diag by lia. done.
Qed.
End refines.

(** C10. [validate_assets] only reads its arguments.  Run on any store in
    which [meta] and [text_cfg] are objects of the caller, a call that
    returns leaves every object that existed before the call as it was
    (it only updates the lists and the dict it created itself); in
    particular the objects behind [meta] and [text_cfg], with everything
    nested in them, are the same after the call as before. *)
Theorem validate_assets_keeps_arguments set_iter meta text_cfg fs h refs h' :
  is_Some (h !! meta) →
  is_Some (h !! text_cfg) →
  validate_assets_h set_iter meta text_cfg fs h = Ok (refs, h') →
  (∀ l c, h !! l = Some c → h' !! l = Some c) ∧
  h' !! meta = h !! meta ∧
  h' !! text_cfg = h !! text_cfg.
Proof.
  intros Hmeta Htext Hrun.
  destruct (keeps_validate_assets_h set_iter meta text_cfg fs (length h) h refs h'
              ltac:(lia) Hrun) as (Htake & _ & _).
  rewrite firstn_all in Htake.
  assert (Hframe : ∀ l c, h !! l = Some c → h' !! l = Some c).
  { intros l c Hl. rewrite <-Htake in Hl. by apply lookup_take_Some in Hl as [? _]. }
  split_and!; [done|..].
  - destruct Hmeta as [c Hc]. rewrite Hc. by apply Hframe.
  - destruct Htext as [c Hc]. rewrite Hc. by apply Hframe.
Qed.

Lemma validate_assets_keeps_arguments_witness :
  ∃ refs h',
    validate_assets_h id 0 1 luna_assets luna_store = Ok (refs, h') ∧
    h' !! 0%nat = Some (CValue (PDict luna_meta)) ∧
    h' !! ref_warnings refs =
      Some (CMessages [TextRolesUnconfigured ["nobody"]; RolesWithoutText ["luna"]]).
Proof.
  set (refs := ReportRefs true 2 3 4).
  set (h' := luna_store ++
               [CMessages [];
                CMessages [TextRolesUnconfigured ["nobody"]; RolesWithoutText ["luna"]];
                CStats (Some 16%nat) [("luna", RoleStat 2 2)]]).
  assert (Hrun : validate_assets_h id 0 1 luna_assets luna_store = Ok (refs, h'))
    by (vm_compute; reflexivity).
  destruct (validate_assets_keeps_arguments id 0 1 luna_assets luna_store refs h'
              ltac:(by eexists) ltac:(by eexists) Hrun) as (_ & Hmeta & _).
  exists refs, h'. split_and!; [exact Hrun | exact Hmeta | reflexivity].
Defined.

(** * More of the module *)

(** ** [load_chara_meta] *)

Example load_chara_meta_example :
  load_chara_meta chara_data = [("luna", stored_entry 2 "luna.ttf" "")].
Proof. reflexivity. Qed.

Section keep_step.
Context {W : Type} (f : pyval → option W).

Lemma keep_loop_get_other root acc role :
  role ∉ Dict.keys root →
  Dict.get role (fold_left (keep_step f) root acc) = Dict.get role acc.
Proof.
  unfold Dict.keys. revert acc.
  induction root as [|[k v] root IH]; intros acc Hnot; cbn [fold_left]; [done|].
  cbn [fmap list_fmap fst] in Hnot. apply not_elem_of_cons in Hnot as [Hne Hnot].
  rewrite IH by done. unfold keep_step. cbn [fst snd].
  destruct (f v); [|done]. by rewrite DictFacts.get_set, decide_False.
Qed.

Lemma keep_loop_get root acc role :
  NoDup (Dict.keys root) →
  Dict.get role (fold_left (keep_step f) root acc) =
    match Dict.get role root ≫= f with
    | Some w => Some w
    | None => Dict.get role acc
    end.
Proof.
  unfold Dict.keys. revert acc.
  induction root as [|[k v] root IH]; intros acc Hnd; cbn [fold_left]; [done|].
  cbn [fmap list_fmap fst] in Hnd. apply NoDup_cons in Hnd as [Hk Hnd].
  cbn [Dict.get]. destruct (String.eqb_spec role k) as [->|Hne].
  - rewrite keep_loop_get_other by done. unfold keep_step. cbn [fst snd mbind option_bind].
    destruct (f v); [|done]. by rewrite DictFacts.get_set, decide_True.
  - rewrite IH by done. destruct (Dict.get role root ≫= f); [done|].
    unfold keep_step. cbn [fst snd]. destruct (f v); [|done].
    by rewrite DictFacts.get_set, decide_False.
Qed.

Lemma keep_loop_keys root acc :
  NoDup (Dict.keys root) →
  (∀ k, k ∈ Dict.keys root → k ∉ Dict.keys acc) →
  Dict.keys (fold_left (keep_step f) root acc) =
    Dict.keys acc ++ Dict.keys (filter (λ kv, is_Some (f kv.2)) root).
Proof.
  unfold Dict.keys. revert acc.
  induction root as [|[k v] root IH]; intros acc Hnd Hfresh; cbn [fold_left].
  - by rewrite app_nil_r.
  - cbn [fmap list_fmap fst] in Hnd, Hfresh. apply NoDup_cons in Hnd as [Hk Hnd].
    assert (Hkacc : k ∉ acc.*1) by (apply Hfresh; left).
    rewrite filter_cons. unfold keep_step at 2. cbn [fst snd].
    destruct (f v) as [w|] eqn:Hf.
    + rewrite decide_True by (by eexists). rewrite IH; [|done|].
      * fold (Dict.keys (Dict.set k w acc)). rewrite DictFacts.keys_set.
        unfold Dict.keys. rewrite decide_False by done.
        by rewrite <-app_assoc.
      * intros k' Hk'. fold (Dict.keys (Dict.set k w acc)).
        rewrite DictFacts.keys_set. unfold Dict.keys. rewrite decide_False by done.
        rewrite not_elem_of_app, not_elem_of_cons. split_and!.
        -- apply Hfresh. by right.
        -- by intros ->.
        -- apply not_elem_of_nil.
    + rewrite decide_False by (by intros [? ?]). apply IH; [done|].
      intros k' Hk'. apply Hfresh. by right.
Qed.

Lemma keep_loop_invariant (P : W → Prop) root acc :
  (∀ v w, f v = Some w → P w) →
  NoDup (Dict.keys acc) ∧ Forall (λ kv, P kv.2) acc →
  NoDup (Dict.keys (fold_left (keep_step f) root acc)) ∧
  Forall (λ kv, P kv.2) (fold_left (keep_step f) root acc).
Proof.
  intros Hf. revert acc.
  induction root as [|[k v] root IH]; intros acc Hacc; cbn [fold_left]; [done|].
  apply IH. unfold keep_step. cbn [fst snd].
  destruct (f v) as [w|] eqn:Hfv; [|done]. destruct Hacc as [Hnd Hall]. split.
  - rewrite DictFacts.keys_set. case_decide as Hin; [done|].
    apply NoDup_app. split_and!; [done| |apply NoDup_singleton].
    by intros x Hx ->%list_elem_of_singleton.
  - clear Hnd. induction acc as [|[k0 w0] acc IHacc]; cbn [Dict.set].
    + repeat constructor. by eapply Hf.
    + apply Forall_cons in Hall as [H0 Hall].
      destruct (String.eqb k k0); constructor; auto. simpl. by eapply Hf.
Qed.
End keep_step.

Lemma chara_loop_keep root acc :
  fold_left chara_role_step root acc = fold_left (keep_step chara_entry_of) root acc.
Proof.
  apply fold_left_ext. intros r [k v].
  unfold chara_role_step, keep_step, chara_entry_of. cbn [fst snd].
  destruct v; try done. by destruct (parse_chara_cfg _).
Qed.

Lemma text_loop_keep root acc :
  fold_left text_role_step root acc = fold_left (keep_step text_entries_of) root acc.
Proof.
  apply fold_left_ext. intros r [k v].
  unfold text_role_step, keep_step, text_entries_of. cbn [fst snd].
  destruct v; try done. by rewrite text_item_loop.
Qed.

Lemma parse_chara_cfg_stored cfg entry :
  parse_chara_cfg cfg = Ok entry → is_stored_entry entry.
Proof.
  unfold parse_chara_cfg. intros (ec & Hec & Hrest)%bind_Ok.
  destruct (Z.leb_spec ec 0); [done|].
  destruct (py_get "font" cfg) as [| | |font| |]; try done.
  destruct (String.eqb_spec font ""); [done|]. simplify_eq.
  by eexists _, _, _.
Qed.

Lemma load_chara_meta_invariant data :
  NoDup (Dict.keys (load_chara_meta data)) ∧
  Forall (λ kv, is_stored_entry kv.2) (load_chara_meta data).
Proof.
  unfold load_chara_meta.
  destruct data as [[|kv d]|]; try (split; [apply NoDup_nil_2 | constructor]).
  destruct (Dict.get "mahoshojo" (kv :: d)) as [[]|];
    try (split; [apply NoDup_nil_2 | constructor]).
  rewrite chara_loop_keep. apply keep_loop_invariant.
  - intros v w Hv. unfold chara_entry_of in Hv. destruct v; try done.
    destruct (parse_chara_cfg _) eqn:Hp; simplify_eq. by eapply parse_chara_cfg_stored.
  - split; [apply NoDup_nil_2 | constructor].
Qed.

(** X1. Whatever the document, the metadata [load_chara_meta] returns is a
    dict with distinct keys in which every entry has exactly the three
    fields [emotion_count], [font], [full_name], with a positive integer
    count, a non-empty font name and a string full name: an entry that
    fails validation is never stored, not even in part. *)
Theorem load_chara_meta_entries_valid data :
  NoDup (Dict.keys (load_chara_meta data)) ∧
  ∀ role entry,
    Dict.get role (load_chara_meta data) = Some entry →
    ∃ ec font full_name,
      entry = PDict [("emotion_count", PInt ec); ("font", PStr font);
                     ("full_name", PStr full_name)] ∧
      0 < ec ∧ font ≠ "".
Proof.
  destruct (load_chara_meta_invariant data) as [Hnd Hall]. split; [done|].
  intros role entry Hget%DictFacts.get_Some_elem.
  rewrite Forall_forall in Hall. apply (Hall (role, entry) Hget).
Qed.

(** X2. In [load_chara_meta] the roles are read independently of each
    other: for a [mahoshojo] mapping [root], the entry of a role in the
    result is the one read from the configuration of that role alone (none
    when that configuration is not a dict or is invalid), and the roles of
    the result are the valid roles of [root] in their order.  An invalid
    role only removes itself. *)
Theorem load_chara_meta_per_role data root :
  data ≫= Dict.get "mahoshojo" = Some (PDict root) →
  NoDup (Dict.keys root) →
  (∀ role, Dict.get role (load_chara_meta data) = Dict.get role root ≫= chara_entry_of) ∧
  Dict.keys (load_chara_meta data) =
    Dict.keys (filter (λ kv, is_Some (chara_entry_of kv.2)) root).
Proof.
  intros Hdata Hnd.
  assert (load_chara_meta data = fold_left (keep_step chara_entry_of) root []) as ->.
  { unfold load_chara_meta. destruct data as [d|]; [|done].
    cbn [mbind option_bind] in Hdata. destruct d as [|kv d]; [done|].
    rewrite Hdata. apply chara_loop_keep. }
  split.
  - intros role. rewrite keep_loop_get by done.
    by destruct (Dict.get role root ≫= chara_entry_of).
  - rewrite keep_loop_keys; [done | done |]. intros k _. apply not_elem_of_nil.
Qed.

Lemma load_chara_meta_per_role_witness :
  Dict.get "luna" (load_chara_meta chara_data) = Some (stored_entry 2 "luna.ttf" "") ∧
  Dict.get "sol" (load_chara_meta chara_data) = None.
Proof.
  assert (Hnd : NoDup ["luna"; "sol"; "nox"; "vega"]).
  { apply (bool_decide_unpack _). vm_compute. exact I. }
  destruct (load_chara_meta_per_role chara_data _ eq_refl Hnd) as [Hget _].
  split; rewrite Hget; reflexivity.
Defined.

(** X3. The result of [load_text_configs] is a dict with distinct keys;
    for a [text_configs] mapping [root] its roles are exactly the roles of
    [root] whose value is a list, in their order: a role whose value is
    not a list is left out, and the entry list of a role depends on the
    items of that role alone. *)
Theorem load_text_configs_roles data root :
  data ≫= Dict.get "text_configs" = Some (PDict root) →
  NoDup (Dict.keys root) →
  NoDup (Dict.keys (load_text_configs data)) ∧
  Dict.keys (load_text_configs data) =
    Dict.keys (filter (λ kv, is_Some (text_entries_of kv.2)) root) ∧
  ∀ role, Dict.get role (load_text_configs data) = Dict.get role root ≫= text_entries_of.
Proof.
  intros Hdata Hnd.
  assert (load_text_configs data = fold_left (keep_step text_entries_of) root []) as ->.
  { unfold load_text_configs. destruct data as [d|]; [|done].
    cbn [mbind option_bind] in Hdata. destruct d as [|kv d]; [done|].
    rewrite Hdata. apply text_loop_keep. }
  split_and!.
  - apply (keep_loop_invariant text_entries_of (λ _, True)); [done|].
    split; [apply NoDup_nil_2 | constructor].
  - rewrite keep_loop_keys; [done | done |]. intros k _. apply not_elem_of_nil.
  - intros role. rewrite keep_loop_get by done.
    by destruct (Dict.get role root ≫= text_entries_of).
Qed.

Lemma load_text_configs_roles_witness :
  Dict.keys (load_text_configs malformed_text_data) = ["luna"] ∧
  Dict.get "sol" (load_text_configs malformed_text_data) = None.
Proof.
  assert (Hnd : NoDup ["luna"; "sol"]).
  { apply (bool_decide_unpack _). vm_compute. exact I. }
  destruct (load_text_configs_roles malformed_text_data _ eq_refl Hnd) as (_ & Hkeys & Hget).
  split; [rewrite Hkeys | rewrite Hget]; reflexivity.
Defined.

(** ** The validator on loaded metadata *)

Lemma stored_entry_well_typed entry : is_stored_entry entry → well_typed_entry entry.
Proof.
  intros (ec & font & full_name & -> & _ & _). eexists. split; [reflexivity|].
  split; by eexists.
Qed.

Lemma validate_assets_is_Ok {T} set_iter meta (text_cfg : option (list (string * T))) fs :
  Forall (λ kv, well_typed_entry kv.2) meta →
  listable fs (Dict.keys meta) →
  is_Ok (validate_assets set_iter meta text_cfg fs).
Proof.
  intros Hwt Hfs.
  assert (Hwt' : ∀ role entry, Dict.get role meta = Some entry → well_typed_entry entry).
  { intros role entry Hget%DictFacts.get_Some_elem.
    rewrite Forall_forall in Hwt. by apply (Hwt (role, entry)). }
  destruct (scans_listable _ _ Hfs) as ([bg Hbg] & [ar Har] & Hdiffs).
  destruct (font_loop_returns meta (Dict.keys meta) [] Hwt') as [fonts Hfonts].
  eexists. apply validate_assets_Ok. exists bg, ar, fonts. split_and!; try done.
  apply Forall_forall. intros role Hrole.
  destruct (proj2 (DictFacts.get_is_Some meta role) Hrole) as [entry Hget].
  destruct (Hwt' _ _ Hget) as (d & -> & _ & Hec).
  destruct (Hdiffs role Hrole) as [found Hfound].
  unfold role_sets. rewrite Hget. cbn [mbind result_bind]. rewrite emotion_count_of_dict.
  destruct (Dict.get "emotion_count" d) as [v|].
  - destruct Hec as [ec ->]. cbn [mbind result_bind]. rewrite Hfound. by eexists.
  - cbn [mbind result_bind]. rewrite Hfound. by eexists.
Qed.

Lemma role_sets_stored meta fs role ec font full_name found :
  Dict.get role meta = Some (stored_entry ec font full_name) →
  _scan_role_diffs fs role = Ok found →
  role_sets_or_empty meta fs role = (range_set ec, found).
Proof.
  intros Hget Hfound. unfold role_sets_or_empty, role_sets.
  rewrite Hget. cbn [mbind result_bind]. unfold stored_entry.
  rewrite emotion_count_of_dict. cbn. by rewrite Hfound.
Qed.



Lemma load_chara_meta_entries_valid_witness :
  ∃ ec font full_name,
    stored_entry 2 "luna.ttf" "" =
      PDict [("emotion_count", PInt ec); ("font", PStr font);
             ("full_name", PStr full_name)] ∧
    0 < ec ∧ font ≠ "".
Proof.
  destruct (load_chara_meta_entries_valid chara_data) as [_ Hvalid].
  apply (Hvalid "luna"). reflexivity.
Defined.

(** ** A clean report *)

Lemma append_if_nonempty_nil_iff {A} (l : list A) m :
  append_if_nonempty l m [] = [] ↔ l = [].
Proof. by destruct l. Qed.

Lemma font_errors_nil_iff fs fonts :
  font_errors fs fonts = [] ↔ ∀ f, f ∈ fonts → font_isfile fs (py_str f) = true.
Proof.
  unfold font_errors, font_missing.
  trans (filter (λ font, negb (font_isfile fs (py_str font)) = true) fonts = []).
  { split; [apply fmap_nil_inv | by intros ->]. }
  induction fonts as [|g fonts IH].
  - split; [by intros _ f ?%elem_of_nil | done].
  - rewrite filter_cons. destruct (font_isfile fs (py_str g)) eqn:Hg; simpl.
    + rewrite IH. split.
      * intros H f [->|?]%elem_of_cons; auto.
      * intros H f ?. apply H. by right.
    + split; [done|]. intros H. specialize (H g ltac:(left)). congruence.
Qed.

Lemma flat_map_nil_iff {A B} (g : A → list B) l :
  flat_map g l = [] ↔ ∀ x, x ∈ l → g x = [].
Proof.
  induction l as [|x l IH]; simpl.
  - split; [by intros _ y ?%elem_of_nil | done].
  - rewrite app_nil, IH. split.
    + intros [Hx Hl] y [->|?]%elem_of_cons; auto.
    + intros H. split; [apply H; left | intros y ?; apply H; by right].
Qed.

Lemma font_set_strs meta roles acc fonts :
  (∀ role entry, Dict.get role meta = Some entry → is_stored_entry entry) →
  for_each (font_step meta) roles acc = Ok fonts →
  Forall (λ f, ∃ s, f = HStr s) acc →
  Forall (λ f, ∃ s, f = HStr s) fonts.
Proof.
  intros Hst. revert acc. induction roles as [|r0 roles IH]; intros acc; cbn [for_each].
  - by intros [= <-].
  - intros (acc' & Hstep & Hloop)%bind_Ok Hacc. apply (IH acc' Hloop).
    unfold font_step in Hstep. destruct (Dict.get r0 meta) as [entry|] eqn:Hget.
    + destruct (Hst _ _ Hget) as (ec & font & fn & -> & _ & _).
      cbn in Hstep. simplify_eq. unfold set_add.
      destruct (existsb _ _); [done|]. apply Forall_app. split; [done|].
      repeat constructor. by eexists.
    + by simplify_eq.
Qed.

Lemma sorted_strs_empty_iff s : sorted_strs s = [] ↔ s = ∅.
Proof.
  destruct (sorted_strs_lists s) as (_ & _ & Hel). split.
  - intros Hnil. apply set_eq. intros k. rewrite <-Hel, Hnil.
    by rewrite elem_of_nil, elem_of_empty.
  - intros ->. unfold sorted_strs. by rewrite elements_empty.
Qed.

Lemma difference_empty_iff `{Countable A} (X Y : gset A) :
  X ∖ Y = ∅ ↔ ∀ x, x ∈ X → x ∈ Y.
Proof.
  split.
  - intros Hd x Hx. destruct (decide (x ∈ Y)) as [|Hn]; [done|].
    assert (x ∈ X ∖ Y) as Hin by (by apply elem_of_difference).
    rewrite Hd in Hin. by apply elem_of_empty in Hin.
  - intros Hsub. apply set_eq. intros x.
    rewrite elem_of_difference, elem_of_empty. naive_solver.
Qed.

Lemma clean_report_iff {T} set_iter meta (text_cfg : option (list (string * T)))
    fs r :
  (∀ fonts, set_iter fonts ≡ₚ fonts) →
  Forall (λ kv, is_stored_entry kv.2) meta →
  validate_assets set_iter meta text_cfg fs = Ok r →
  ok r = true ↔
    (∃ bg, _scan_backgrounds fs = Ok bg ∧ ∀ k, 1 ≤ k ≤ 16 → k ∈ bg) ∧
    (∃ ar, _scan_roles_in_assets fs = Ok ar ∧
           ∀ role, role ∈ Dict.keys meta → role ∈ ar) ∧
    (∀ role ec font full_name,
       Dict.get role meta = Some (stored_entry ec font full_name) →
       font_isfile fs font = true ∧
       ∃ found, _scan_role_diffs fs role = Ok found ∧ ∀ k, 1 ≤ k ≤ ec → k ∈ found).
Proof.
  intros Hperm Hst (bg & ar & fonts & Hbg & Har & Hfonts & Hall & ->)%validate_assets_Ok.
  assert (Hst' : ∀ role entry, Dict.get role meta = Some entry → is_stored_entry entry).
  { intros role entry Hget%DictFacts.get_Some_elem.
    rewrite Forall_forall in Hst. by apply (Hst (role, entry)). }
  destruct (font_set_spec _ _ _ _ Hfonts NoDup_nil_2) as [_ Hmem].
  pose proof (font_set_strs _ _ _ _ Hst' Hfonts (Forall_nil_2 _)) as Hstrs.
  rewrite Forall_forall in Hstrs. rewrite Forall_forall in Hall.
  assert (Hscan : ∀ role ec font full_name,
    Dict.get role meta = Some (stored_entry ec font full_name) →
    ∃ found, _scan_role_diffs fs role = Ok found ∧
             role_sets_or_empty meta fs role = (range_set ec, found)).
  { intros role ec font fn Hget.
    assert (Hrole : role ∈ Dict.keys meta) by (apply DictFacts.get_is_Some; eauto).
    destruct (Hall role Hrole) as [p Hp]. unfold role_sets in Hp.
    rewrite Hget in Hp. cbn [mbind result_bind] in Hp.
    destruct (emotion_count_of _); [|done]. cbn [mbind result_bind] in Hp.
    destruct (_scan_role_diffs fs role) as [found|] eqn:Hfound; [|done].
    exists found. split; [done|]. by eapply role_sets_stored. }
  unfold report_of. cbn [ok]. rewrite Nat.eqb_eq, length_zero_iff_nil, !app_nil.
  unfold bg_errors, role_dir_errors, all_diff_errors. cbn zeta.
  rewrite !append_if_nonempty_nil_iff, font_errors_nil_iff, flat_map_nil_iff.
  rewrite sorted_ints_nil, sorted_strs_empty_iff, !difference_empty_iff.
  split.
  - intros (Hb & Hr & Hf & Hd). split_and!.
    + exists bg. split; [done|]. intros k Hk. by apply Hb, elem_of_range_set.
    + exists ar. split; [done|]. intros role Hrole. by apply Hr, elem_of_list_to_set.
    + intros role ec font fn Hget.
      assert (Hrole : role ∈ Dict.keys meta) by (apply DictFacts.get_is_Some; eauto).
      split.
      * apply (Hf (HStr font)). rewrite Hperm. apply Hmem. right.
        exists role. split; [done|]. by eexists.
      * destruct (Hscan _ _ _ _ Hget) as (found & Hfound & Hp).
        exists found. split; [done|]. intros k Hk.
        specialize (Hd role Hrole). unfold diff_errors in Hd. rewrite Hp in Hd.
        cbn [fst snd] in Hd.
        apply append_if_nonempty_nil_iff, sorted_ints_nil in Hd.
        rewrite difference_empty_iff in Hd. by apply Hd, elem_of_range_set.
  - intros ((bg' & Hbg' & Hb) & (ar' & Har' & Hr) & Hroles).
    rewrite Hbg in Hbg'. rewrite Har in Har'. simplify_eq. split_and!.
    + intros k Hk%elem_of_range_set. by apply Hb.
    + intros role Hrole%elem_of_list_to_set. by apply Hr.
    + intros f Hf. rewrite Hperm in Hf. destruct (Hstrs f Hf) as [s ->].
      apply Hmem in Hf as [?%elem_of_nil|(role & Hrole & d & Hget & Hfont)]; [done|].
      destruct (Hst' _ _ Hget) as (ec & font & fn & Heq & _ & _).
      rewrite Heq in Hget. unfold stored_entry in Heq. simplify_eq.
      cbn in Hfont. simplify_eq. by apply (Hroles role ec s fn).
    + intros role Hrole.
      destruct (proj2 (DictFacts.get_is_Some meta role) Hrole) as [entry Hget].
      destruct (Hst' _ _ Hget) as (ec & font & fn & -> & _ & _).
      destruct (Hroles _ _ _ _ Hget) as (_ & found & Hfound & Hk).
      destruct (Hscan _ _ _ _ Hget) as (found' & Hfound' & Hp).
      rewrite Hfound in Hfound'. simplify_eq.
      unfold diff_errors. rewrite Hp. cbn [fst snd].
      apply append_if_nonempty_nil_iff, sorted_ints_nil, difference_empty_iff.
      intros k Hk'%elem_of_range_set. by apply Hk.
Qed.

(** X5. What [ok] means.  For metadata as [load_chara_meta] stores it,
    when [validate_assets] returns [r], [ok r] is true exactly when nothing
    declared is missing: the backgrounds 1 to 16 are all found, every
    configured role has its directory, and for every configured role the
    font file exists and the differentials 1 to [emotion_count] are all
    found.  Assets that are found but not declared play no part. *)
Theorem ok_iff_nothing_missing {T} set_iter meta (text_cfg : option (list (string * T)))
    fs r :
  (∀ fonts, set_iter fonts ≡ₚ fonts) →
  Forall (λ kv, is_stored_entry kv.2) meta →
  validate_assets set_iter meta text_cfg fs = Ok r →
  ok r = true ↔
    (∃ bg, _scan_backgrounds fs = Ok bg ∧ ∀ k, 1 ≤ k ≤ 16 → k ∈ bg) ∧
    (∃ ar, _scan_roles_in_assets fs = Ok ar ∧
           ∀ role, role ∈ Dict.keys meta → role ∈ ar) ∧
    (∀ role ec font full_name,
       Dict.get role meta = Some (stored_entry ec font full_name) →
       font_isfile fs font = true ∧
       ∃ found, _scan_role_diffs fs role = Ok found ∧ ∀ k, 1 ≤ k ≤ ec → k ∈ found).
Proof.
  intros Hperm Hst Hr. split; intros H.
  - by apply (clean_report_iff set_iter meta text_cfg fs r Hperm Hst Hr).
  - by apply (clean_report_iff set_iter meta text_cfg fs r Hperm Hst Hr).
Qed.

Lemma ok_iff_nothing_missing_witness :
  (∃ bg, _scan_backgrounds luna_assets = Ok bg ∧ ∀ k, 1 ≤ k ≤ 16 → k ∈ bg) ∧
  font_isfile luna_assets "luna.ttf" = true.
Proof.
  set (r := Report true [] [] (Stats 16 [("luna", RoleStat 2 2)])).
  assert (Hr : validate_assets id luna_meta
                 (None : option (list (string * list text_entry))) luna_assets = Ok r)
    by (vm_compute; reflexivity).
  assert (Hst : Forall (λ kv : string * pyval, is_stored_entry kv.2) luna_meta).
  { repeat constructor. exists 2, "luna.ttf", "". by split_and!. }
  destruct (ok_iff_nothing_missing id luna_meta None luna_assets r
              (λ fonts, reflexivity fonts) Hst Hr) as [Hfwd _].
  destruct (Hfwd eq_refl) as (Hbg & _ & Hroles). split; [exact Hbg|].
  apply (Hroles "luna" 2 "luna.ttf" ""). reflexivity.
Defined.

(** ** The role directories and the text coverage *)

Lemma lists_strs_ext l (P Q : string → Prop) :
  (∀ k, P k ↔ Q k) → lists_strs l P → lists_strs l Q.
Proof.
  intros HPQ (? & ? & Hel). split_and!; [done..|].
  intros k. by rewrite Hel.
Qed.

(** X6. Role directory reconciliation.  When [validate_assets] returns [r],
    the scan of [chara] gave a set [found] of directory names; [miss] lists
    in increasing order the configured roles without a directory and
    [extra] the directories that are not configured roles; the errors hold
    exactly one role directory line, with [miss], when [miss] is non-empty
    and none otherwise, and the warnings exactly one, with [extra], when
    [extra] is non-empty and none otherwise.  When the directories are
    exactly the configured roles there is no such line. *)
Theorem role_dirs_reconciled {T} set_iter meta (text_cfg : option (list (string * T)))
    fs r :
  validate_assets set_iter meta text_cfg fs = Ok r →
  ∃ found miss extra,
    _scan_roles_in_assets fs = Ok found ∧
    lists_strs miss (λ role, role ∈ Dict.keys meta ∧ role ∉ found) ∧
    lists_strs extra (λ role, role ∈ found ∧ role ∉ Dict.keys meta) ∧
    filter is_role_dir_msg (errors r) =
      (if decide (miss = []) then [] else [MissingRoleDirs miss]) ∧
    filter is_role_dir_msg (warnings r) =
      (if decide (extra = []) then [] else [UnconfiguredRoleDirs extra]) ∧
    ((∀ role, role ∈ found ↔ role ∈ Dict.keys meta) →
       filter is_role_dir_msg (errors r) = [] ∧
       filter is_role_dir_msg (warnings r) = []).
Proof.
  intros (bg & found & fonts & Hbg & Har & Hfonts & Hall & ->)%validate_assets_Ok.
  set (miss := sorted_strs (list_to_set (Dict.keys meta) ∖ found)).
  set (extra := sorted_strs (found ∖ list_to_set (Dict.keys meta))).
  assert (Hmiss : lists_strs miss (λ role, role ∈ Dict.keys meta ∧ role ∉ found)).
  { eapply lists_strs_ext, sorted_strs_lists.
    intros k. simpl. by rewrite elem_of_difference, elem_of_list_to_set. }
  assert (Hextra : lists_strs extra (λ role, role ∈ found ∧ role ∉ Dict.keys meta)).
  { eapply lists_strs_ext, sorted_strs_lists.
    intros k. simpl. by rewrite elem_of_difference, elem_of_list_to_set. }
  assert (Herr : filter is_role_dir_msg
            (errors (report_of set_iter meta text_cfg fs bg found fonts)) =
          (if decide (miss = []) then [] else [MissingRoleDirs miss])).
  { unfold report_of. cbn [errors]. rewrite !filter_app. unfold bg_errors, role_dir_errors.
    rewrite !select_append_if_nonempty, select_font_errors by done.
    rewrite (select_none _ (all_diff_errors _ _ _)).
    2:{ eapply Forall_impl; [apply Forall_all_diff_errors|].
        by intros m (? & ? & _ & ->). }
    cbn zeta. fold miss. destruct (sorted_ints _); simpl; rewrite app_nil_r;
      by destruct miss. }
  assert (Hwarn : filter is_role_dir_msg
            (warnings (report_of set_iter meta text_cfg fs bg found fonts)) =
          (if decide (extra = []) then [] else [UnconfiguredRoleDirs extra])).
  { unfold report_of. cbn [warnings]. rewrite select_text_check by done.
    rewrite !filter_app. unfold bg_warnings, role_dir_warnings.
    rewrite !select_append_if_nonempty.
    rewrite (select_none _ (all_diff_warnings _ _ _)).
    2:{ eapply Forall_impl; [apply Forall_all_diff_warnings|].
        by intros m (? & ? & _ & ->). }
    cbn zeta. fold extra. destruct (sorted_ints _); simpl; rewrite app_nil_r;
      by destruct extra. }
  exists found, miss, extra. split_and!; try done.
  intros Hsame. rewrite Herr, Hwarn.
  assert (miss = []) as ->.
  { apply sorted_strs_empty_iff, difference_empty_iff.
    intros role Hrole%elem_of_list_to_set. by apply Hsame. }
  assert (extra = []) as ->.
  { apply sorted_strs_empty_iff, difference_empty_iff.
    intros role Hrole. by apply elem_of_list_to_set, Hsame. }
  done.
Qed.

Lemma role_dirs_reconciled_witness :
  ∃ r, validate_assets id luna_meta (None : option (list (string * list text_entry)))
         ghost_assets = Ok r ∧
       filter is_role_dir_msg (warnings r) = [UnconfiguredRoleDirs ["ghost"]] ∧
       ∃ found, _scan_roles_in_assets ghost_assets = Ok found.
Proof.
  set (r := Report true [] [UnconfiguredRoleDirs ["ghost"]]
              (Stats 16 [("luna", RoleStat 2 2)])).
  assert (Hr : validate_assets id luna_meta
                 (None : option (list (string * list text_entry))) ghost_assets = Ok r)
    by (vm_compute; reflexivity).
  destruct (role_dirs_reconciled _ _ _ _ _ Hr) as (found & _ & _ & Hscan & _).
  exists r. split_and!; [exact Hr | reflexivity | by exists found].
Defined.

(** X7. Text coverage.  The text configuration never produces an error.
    Without one ([None]) or with an empty one it produces no line at all.
    With a non-empty one the warnings end with the text lines: one listing
    in increasing order the roles of the text configuration that are not
    configured roles, when there are any, then one listing the configured
    roles that have no text configuration, when there are any. *)
Theorem text_coverage_warnings {T} set_iter meta (text_cfg : option (list (string * T)))
    fs r :
  validate_assets set_iter meta text_cfg fs = Ok r →
  filter is_text_msg (errors r) = [] ∧
  match text_cfg with
  | None | Some [] => filter is_text_msg (warnings r) = []
  | Some tc =>
      ∃ diff_a diff_b,
        lists_strs diff_a (λ role, role ∈ Dict.keys tc ∧ role ∉ Dict.keys meta) ∧
        lists_strs diff_b (λ role, role ∈ Dict.keys meta ∧ role ∉ Dict.keys tc) ∧
        filter is_text_msg (warnings r) =
          (if decide (diff_a = []) then [] else [TextRolesUnconfigured diff_a]) ++
          (if decide (diff_b = []) then [] else [RolesWithoutText diff_b]) ∧
        ∃ before, warnings r = before ++ filter is_text_msg (warnings r)
  end.
Proof.
  intros (bg & ar & fonts & Hbg & Har & Hfonts & Hall & ->)%validate_assets_Ok.
  assert (Hother : filter is_text_msg
            (bg_warnings bg ++ role_dir_warnings (Dict.keys meta) ar ++
             all_diff_warnings meta fs (Dict.keys meta)) = []).
  { rewrite !filter_app. unfold bg_warnings, role_dir_warnings.
    rewrite !select_append_if_nonempty.
    rewrite (select_none _ (all_diff_warnings _ _ _)).
    2:{ eapply Forall_impl; [apply Forall_all_diff_warnings|].
        by intros m (? & ? & _ & ->). }
    cbn zeta. by destruct (sorted_ints _), (sorted_strs _). }
  split.
  - unfold report_of. cbn [errors]. rewrite !filter_app. unfold bg_errors, role_dir_errors.
    rewrite !select_append_if_nonempty, select_font_errors by done.
    rewrite (select_none _ (all_diff_errors _ _ _)).
    2:{ eapply Forall_impl; [apply Forall_all_diff_errors|].
        by intros m (? & ? & _ & ->). }
    cbn zeta. by destruct (sorted_ints _), (sorted_strs _).
  - unfold report_of. cbn [warnings].
    destruct text_cfg as [[|kv tc]|]; [exact Hother| |exact Hother].
    set (W := bg_warnings bg ++ _) in *.
    set (diff_a := sorted_strs (list_to_set (Dict.keys (kv :: tc)) ∖
                                list_to_set (Dict.keys meta))).
    set (diff_b := sorted_strs (list_to_set (Dict.keys meta) ∖
                                list_to_set (Dict.keys (kv :: tc)))).
    assert (Htc : text_check (Dict.keys meta) (Some (kv :: tc)) W =
      W ++ (if decide (diff_a = []) then [] else [TextRolesUnconfigured diff_a]) ++
           (if decide (diff_b = []) then [] else [RolesWithoutText diff_b])).
    { unfold text_check. cbn zeta. fold diff_a diff_b.
      rewrite append_if_nonempty_app, (append_if_nonempty_app _ _ W), <-app_assoc.
      by destruct diff_a, diff_b. }
    assert (Hsel : filter is_text_msg (text_check (Dict.keys meta) (Some (kv :: tc)) W) =
      (if decide (diff_a = []) then [] else [TextRolesUnconfigured diff_a]) ++
      (if decide (diff_b = []) then [] else [RolesWithoutText diff_b])).
    { rewrite Htc, filter_app, Hother. by destruct diff_a, diff_b. }
    exists diff_a, diff_b. split_and!.
    + eapply lists_strs_ext, sorted_strs_lists.
      intros k. cbn beta. by rewrite elem_of_difference, !elem_of_list_to_set.
    + eapply lists_strs_ext, sorted_strs_lists.
      intros k. cbn beta. by rewrite elem_of_difference, !elem_of_list_to_set.
    + exact Hsel.
    + exists W. by rewrite Hsel, Htc.
Qed.

Lemma text_coverage_warnings_witness :
  ∃ r, validate_assets id luna_meta (Some [("nobody", [] : list text_entry)])
         luna_assets = Ok r ∧
       filter is_text_msg (errors r) = [].
Proof.
  set (r := Report true [] [TextRolesUnconfigured ["nobody"]; RolesWithoutText ["luna"]]
              (Stats 16 [("luna", RoleStat 2 2)])).
  assert (Hr : validate_assets id luna_meta (Some [("nobody", [] : list text_entry)])
                 luna_assets = Ok r) by (vm_compute; reflexivity).
  destruct (text_coverage_warnings _ _ _ _ _ Hr) as [Herr _].
  exists r. split; [exact Hr | exact Herr].
Defined.

(** ** The kind and the order of the lines *)

Lemma ranked_const c l : Forall (λ m, check_rank m = c) l → ranked c c l.
Proof.
  intros Hall. split.
  - induction Hall as [|m l Hm Hl IH]; [constructor|].
    rewrite fmap_cons. constructor; [done|].
    apply Forall_fmap. eapply Forall_impl; [exact Hl|]. intros m' Hm'.
    cbn beta in *. unfold compose. lia.
  - eapply Forall_impl; [exact Hall|]. intros m Hm. cbn beta in *. lia.
Qed.

Lemma ranked_app a b c d l1 l2 :
  ranked a b l1 → ranked c d l2 → (b ≤ c)%nat → (a ≤ c)%nat → (b ≤ d)%nat →
  ranked a d (l1 ++ l2).
Proof.
  intros [Hs1 Hb1] [Hs2 Hb2] Hbc Hac Hbd. split.
  - rewrite fmap_app. apply StronglySorted_app. split_and!; [|done..].
    intros x1 x2 (m1 & -> & Hm1)%list_elem_of_fmap (m2 & -> & Hm2)%list_elem_of_fmap.
    rewrite Forall_forall in Hb1, Hb2.
    specialize (Hb1 m1 Hm1). specialize (Hb2 m2 Hm2). cbn beta in *. lia.
  - apply Forall_app. split.
    + eapply Forall_impl; [exact Hb1|]. intros m Hm. cbn beta in *. lia.
    + eapply Forall_impl; [exact Hb2|]. intros m Hm. cbn beta in *. lia.
Qed.

Lemma ranked_append_if_nonempty {A} (l : list A) m :
  ranked (check_rank m) (check_rank m) (append_if_nonempty l m []).
Proof. apply ranked_const. destruct l; by repeat constructor. Qed.

Lemma sublist_diff_lines (g : string → list message) roles :
  (∀ role, omap diff_role (g role) = [] ∨ omap diff_role (g role) = [role]) →
  omap diff_role (flat_map g roles) `sublist_of` roles.
Proof.
  intros Hg. induction roles as [|role roles IH]; cbn [flat_map]; [constructor|].
  rewrite omap_app. destruct (Hg role) as [-> | ->]; simpl.
  - by apply sublist_cons.
  - by apply sublist_skip.
Qed.

Lemma diff_role_append_if_nonempty {A} (l : list A) m :
  omap diff_role (append_if_nonempty l m []) =
    match l, diff_role m with
    | _ :: _, Some role => [role]
    | _, _ => []
    end.
Proof. destruct l; simpl; [done|]. by destruct (diff_role m). Qed.

(** X8. The kind and the order of the lines.  When [validate_assets]
    returns [r], every error says that something declared is missing
    (backgrounds, role directories, a font file, differentials) and no
    warning does: what is found without being declared, and the text
    coverage, only ever give warnings.  The lines of each list come in the
    order of the checks (backgrounds, role directories, fonts,
    differentials, text configuration), and the differential lines follow
    the order of the roles in [meta]. *)
Theorem report_lines_kind_and_order {T} set_iter meta
    (text_cfg : option (list (string * T))) fs r :
  validate_assets set_iter meta text_cfg fs = Ok r →
  Forall (λ m, reports_missing m = true) (errors r) ∧
  Forall (λ m, reports_missing m = false) (warnings r) ∧
  StronglySorted le (check_rank <$> errors r) ∧
  StronglySorted le (check_rank <$> warnings r) ∧
  omap diff_role (errors r) `sublist_of` Dict.keys meta ∧
  omap diff_role (warnings r) `sublist_of` Dict.keys meta.
Proof.
  intros (bg & ar & fonts & Hbg & Har & Hfonts & Hall & ->)%validate_assets_Ok.
  unfold report_of. cbn [errors warnings].
  set (W := bg_warnings bg ++ role_dir_warnings (Dict.keys meta) ar ++
            all_diff_warnings meta fs (Dict.keys meta)).
  assert (Htc : ∃ A B, text_check (Dict.keys meta) text_cfg W = W ++ A ++ B ∧
    Forall (λ m, ∃ l, m = TextRolesUnconfigured l) A ∧
    Forall (λ m, ∃ l, m = RolesWithoutText l) B).
  { unfold text_check. destruct text_cfg as [[|kv tc]|];
      [exists [], []; by rewrite app_nil_r| |exists [], []; by rewrite app_nil_r].
    cbn zeta. rewrite append_if_nonempty_app, (append_if_nonempty_app _ _ W), <-app_assoc.
    eexists _, _. split; [reflexivity|].
    split; apply Forall_append_if_nonempty; by eexists. }
  destruct Htc as (A & B & -> & HA & HB).
  assert (HdE := Forall_all_diff_errors meta fs (Dict.keys meta)).
  assert (HdW := Forall_all_diff_warnings meta fs (Dict.keys meta)).
  assert (HfE : Forall (λ m, ∃ f, m = MissingFont f) (font_errors fs (set_iter fonts))).
  { unfold font_errors. apply Forall_fmap, Forall_forall. intros f _. by eexists. }
  split_and!.
  - rewrite !Forall_app. split_and!.
    + unfold bg_errors. by apply Forall_append_if_nonempty.
    + unfold role_dir_errors. by apply Forall_append_if_nonempty.
    + eapply Forall_impl; [exact HfE|]. by intros m [f ->].
    + eapply Forall_impl; [exact HdE|]. by intros m (? & ? & _ & ->).
  - unfold W. rewrite !Forall_app. split_and!.
    + unfold bg_warnings. by apply Forall_append_if_nonempty.
    + unfold role_dir_warnings. by apply Forall_append_if_nonempty.
    + eapply Forall_impl; [exact HdW|]. by intros m (? & ? & _ & ->).
    + eapply Forall_impl; [exact HA|]. by intros m [l ->].
    + eapply Forall_impl; [exact HB|]. by intros m [l ->].
  - eapply (ranked_app 0 0 1 3); [apply ranked_append_if_nonempty| |lia..].
    eapply (ranked_app 1 1 2 3); [apply ranked_append_if_nonempty| |lia..].
    eapply (ranked_app 2 2 3 3); [| |lia..]; apply ranked_const.
    + eapply Forall_impl; [exact HfE|]. by intros m [f ->].
    + eapply Forall_impl; [exact HdE|]. by intros m (? & ? & _ & ->).
  - unfold W. rewrite <-!app_assoc.
    eapply (ranked_app 0 0 1 5); [apply ranked_append_if_nonempty| |lia..].
    eapply (ranked_app 1 1 3 5); [apply ranked_append_if_nonempty| |lia..].
    eapply (ranked_app 3 3 4 5); [| |lia..].
    { apply ranked_const. eapply Forall_impl; [exact HdW|].
      by intros m (? & ? & _ & ->). }
    eapply (ranked_app 4 4 5 5); [| |lia..]; apply ranked_const.
    + eapply Forall_impl; [exact HA|]. by intros m [l ->].
    + eapply Forall_impl; [exact HB|]. by intros m [l ->].
  - rewrite !omap_app. unfold bg_errors, role_dir_errors.
    rewrite !diff_role_append_if_nonempty. cbn [diff_role].
    assert (omap diff_role (font_errors fs (set_iter fonts)) = []) as ->.
    { induction HfE as [|m l [f ->] _ IH]; [done|]. simpl. exact IH. }
    assert (∀ {X} (l : list X), match l with [] => [] | _ :: _ => @nil string end = [])
      as Hnil by (by intros X []).
    rewrite !Hnil. cbn [app]. unfold all_diff_errors. apply sublist_diff_lines.
    intros role. unfold diff_errors. rewrite diff_role_append_if_nonempty. cbn [diff_role].
    destruct (sorted_ints _); auto.
  - unfold W. rewrite !omap_app. unfold bg_warnings, role_dir_warnings.
    rewrite !diff_role_append_if_nonempty. cbn [diff_role].
    assert (omap diff_role A = []) as ->.
    { induction HA as [|m l [f ->] _ IH]; [done|]. simpl. exact IH. }
    assert (omap diff_role B = []) as ->.
    { induction HB as [|m l [f ->] _ IH]; [done|]. simpl. exact IH. }
    assert (∀ {X} (l : list X), match l with [] => [] | _ :: _ => @nil string end = [])
      as Hnil by (by intros X []).
    rewrite !Hnil, !app_nil_r. cbn [app]. unfold all_diff_warnings.
    apply sublist_diff_lines.
    intros role. unfold diff_warnings. rewrite diff_role_append_if_nonempty.
    cbn [diff_role]. destruct (sorted_ints _); auto.
Qed.

Lemma report_lines_kind_and_order_witness :
  ∃ r, validate_assets id luna_meta (None : option (list (string * list text_entry)))
         empty_assets = Ok r ∧
       length (errors r) = 4%nat ∧
       Forall (λ m, reports_missing m = true) (errors r).
Proof.
  set (r := Report false
              [MissingBackgrounds (seqZ 1 16); MissingRoleDirs ["luna"];
               MissingFont (HStr "luna.ttf"); MissingDiffs "luna" [1; 2]]
              [] (Stats 0 [("luna", RoleStat 2 0)])).
  assert (Hr : validate_assets id luna_meta
                 (None : option (list (string * list text_entry))) empty_assets = Ok r)
    by (vm_compute; reflexivity).
  destruct (report_lines_kind_and_order _ _ _ _ _ Hr) as (Hkind & _).
  exists r. split_and!; [exact Hr | reflexivity | exact Hkind].
Defined.

(** ** The whitelist *)










(** ** The asset scanners *)

Lemma digit_val_lower c : digit_val (lower_ascii c) = digit_val c.
Proof. destruct c as [[] [] [] [] [] [] [] []]; reflexivity. Qed.

Lemma is_space_lower c : is_space (lower_ascii c) = is_space c.
Proof. destruct c as [[] [] [] [] [] [] [] []]; reflexivity. Qed.

Lemma read_digits_lower acc s :
  read_digits acc (lower s) =
    let '(n, v, rest) := read_digits acc s in (n, v, lower rest).
Proof.
  revert acc. induction s as [|c s IH]; intros acc; cbn [lower read_digits]; [done|].
  rewrite digit_val_lower. destruct (digit_val c) as [d|]; [|done].
  rewrite IH. by destruct (read_digits (10 * acc + d) s) as [[n v] rest].
Qed.

Lemma is_png_tail_lower s : is_png_tail (lower s) = is_png_tail s.
Proof. unfold is_png_tail. by rewrite lower_idemp. Qed.

Lemma match_background_lower name : match_background (lower name) = match_background name.
Proof.
  destruct name as [|c rest]; [done|]. cbn [lower match_background].
  rewrite lower_ascii_idemp. destruct (Ascii.eqb (lower_ascii c) "c"); [|done].
  rewrite read_digits_lower. destruct (read_digits 0 rest) as [[[|n] v] tail]; [done|].
  by rewrite is_png_tail_lower.
Qed.

Lemma lstrip_lower s : lstrip (lower s) = lower (lstrip s).
Proof.
  induction s as [|c s IH]; cbn [lower lstrip]; [done|].
  rewrite is_space_lower. by destruct (is_space c).
Qed.

Lemma drop_prefix_ci_lower_name role name :
  drop_prefix_ci role (lower name) = lower <$> drop_prefix_ci role name.
Proof.
  revert name. induction role as [|a role IH]; intros [|b name];
    cbn [lower drop_prefix_ci]; try done.
  rewrite lower_ascii_idemp. destruct (Ascii.eqb _ _); [apply IH | done].
Qed.

Lemma drop_prefix_ci_lower_role role name :
  drop_prefix_ci (lower role) name = drop_prefix_ci role name.
Proof.
  revert name. induction role as [|a role IH]; intros [|b name];
    cbn [lower drop_prefix_ci]; try done.
  rewrite lower_ascii_idemp. destruct (Ascii.eqb _ _); [apply IH | done].
Qed.

Lemma match_diff_tail_lower rest :
  match lstrip (lower rest) with
  | String "(" rest' =>
      match read_digits 0 rest' with
      | (S _, v, String ")" tail) => if is_png_tail tail then Some v else None
      | _ => None
      end
  | _ => None
  end =
  match lstrip rest with
  | String "(" rest' =>
      match read_digits 0 rest' with
      | (S _, v, String ")" tail) => if is_png_tail tail then Some v else None
      | _ => None
      end
  | _ => None
  end.
Proof.
  rewrite lstrip_lower. destruct (lstrip rest) as [|c rest']; [done|].
  cbn [lower].
  destruct c as [[] [] [] [] [] [] [] []]; try reflexivity.
  change (lower_ascii "(") with "("%char.
  rewrite read_digits_lower. destruct (read_digits 0 rest') as [[[|n] v] tail]; [done|].
  destruct tail as [|c tail]; [done|]. cbn [lower].
  destruct c as [[] [] [] [] [] [] [] []]; try reflexivity.
  change (lower_ascii ")") with ")"%char. by rewrite is_png_tail_lower.
Qed.

Lemma match_diff_lower role name :
  match_diff role (lower name) = match_diff role name ∧
  match_diff (lower role) name = match_diff role name.
Proof.
  unfold match_diff. split.
  - rewrite drop_prefix_ci_lower_name.
    destruct (drop_prefix_ci role name) as [rest|]; [|done].
    cbn [fmap option_fmap option_map]. apply match_diff_tail_lower.
  - by rewrite drop_prefix_ci_lower_role.
Qed.

Lemma collect_indexes_ext (rex rex' : string → option Z) (names names' : list string) :
  omap rex names = omap rex' names' →
  collect_indexes rex names = collect_indexes rex' names'.
Proof. intros Heq. by rewrite !collect_indexes_spec, Heq. Qed.

Lemma omap_lower_names (rex : string → option Z) (names : list string) :
  (∀ name, rex (lower name) = rex name) → omap rex (lower <$> names) = omap rex names.
Proof.
  intros Hrex. induction names as [|name names IH]; [done|].
  rewrite fmap_cons. cbn [omap list_omap]. rewrite Hrex.
  destruct (rex name); by rewrite <-IH.
Qed.

(** X10. The scanners ignore case.  A background directory and a role
    directory whose names are all put in lower case give the same sets of
    indices; and a name is matched against the role whatever the case of
    the role. *)
Theorem scanners_ignore_case fs fs' role bg_names diff_names :
  background_dir fs = Entries bg_names →
  background_dir fs' = Entries (lower <$> bg_names) →
  role_dir fs role = Entries diff_names →
  role_dir fs' role = Entries (lower <$> diff_names) →
  _scan_backgrounds fs' = _scan_backgrounds fs ∧
  _scan_role_diffs fs' role = _scan_role_diffs fs role ∧
  ∀ name, match_diff (lower role) name = match_diff role name.
Proof.
  intros Hbg Hbg' Hrole Hrole'.
  unfold _scan_backgrounds, _scan_role_diffs.
  rewrite Hbg, Hbg', Hrole, Hrole'. split_and!.
  - f_equal. apply collect_indexes_ext, omap_lower_names, match_background_lower.
  - f_equal. apply collect_indexes_ext, omap_lower_names.
    intros name. apply match_diff_lower.
  - intros name. apply match_diff_lower.
Qed.

Lemma scanners_ignore_case_witness :
  _scan_backgrounds quiet_assets = _scan_backgrounds shouting_assets ∧
  _scan_role_diffs quiet_assets "luna" = _scan_role_diffs shouting_assets "luna".
Proof.
  destruct (scanners_ignore_case shouting_assets quiet_assets "luna" _ _
              eq_refl eq_refl eq_refl eq_refl) as (H1 & H2 & _).
  by split.
Defined.

Lemma digit_val_pretty_N_char d :
  (d < 10)%N → digit_val (pretty_N_char d) = Some (Z.of_N d).
Proof.
  intros Hd.
  assert (d = 0 ∨ d = 1 ∨ d = 2 ∨ d = 3 ∨ d = 4 ∨ d = 5 ∨ d = 6 ∨ d = 7 ∨ d = 8 ∨ d = 9)%N
    as Hcases by lia.
  repeat (destruct Hcases as [->|Hcases]; [reflexivity|]). by subst.
Qed.

Lemma pretty_N_go_app x s t : pretty_N_go x s +:+ t = pretty_N_go x (s +:+ t).
Proof.
  revert s. induction (N.lt_wf_0 x) as [x _ IH]; intros s.
  destruct (decide (x = 0)%N) as [->|Hx]; [by rewrite !pretty_N_go_0|].
  rewrite (pretty_N_go_step x s), (pretty_N_go_step x (s +:+ t)) by lia.
  rewrite IH by (apply N.div_lt; lia). done.
Qed.

(** Reading back the digits [pretty_N_go] writes in front of [s]. *)
Lemma read_digits_pretty_N_go x :
  ∃ k : nat, ((0 < x)%N → (0 < k)%nat) ∧
    ∀ s acc,
      read_digits acc (pretty_N_go x s) =
        let '(n, v, rest) := read_digits (acc * 10 ^ Z.of_nat k + Z.of_N x) s in
        ((k + n)%nat, v, rest).
Proof.
  induction (N.lt_wf_0 x) as [x _ IH].
  destruct (decide (x = 0)%N) as [->|Hx].
  - exists 0%nat. split; [lia|]. intros s acc. rewrite pretty_N_go_0.
    replace (acc * 10 ^ Z.of_nat 0 + Z.of_N 0) with acc by (simpl; lia).
    by destruct (read_digits acc s) as [[n v] rest].
  - destruct (IH (x `div` 10)%N) as (k & _ & Hk); [apply N.div_lt; lia|].
    exists (S k). split; [lia|]. intros s acc.
    rewrite pretty_N_go_step by lia. rewrite Hk. cbn [read_digits].
    rewrite digit_val_pretty_N_char by (apply N.mod_lt; lia).
    replace (10 * (acc * 10 ^ Z.of_nat k + Z.of_N (x `div` 10)) + Z.of_N (x `mod` 10))
      with (acc * 10 ^ Z.of_nat (S k) + Z.of_N x).
    { destruct (read_digits _ s) as [[n v] rest]. f_equal. f_equal. lia. }
    rewrite Nat2Z.inj_succ, Z.pow_succ_r by lia.
    rewrite (N.div_mod x 10) at 1 by lia. rewrite N2Z.inj_add, N2Z.inj_mul. simpl. lia.
Qed.

(** Reading back a number written in decimal in front of [t], when [t] does
    not go on with a digit. *)
Lemma read_digits_pretty k t :
  0 ≤ k →
  match t with String c _ => digit_val c = None | EmptyString => True end →
  ∃ n, read_digits 0 (pretty k +:+ t) = (S n, k, t).
Proof.
  intros Hk Ht.
  assert (Hstop : ∀ acc, read_digits acc t = (0%nat, acc, t)).
  { intros acc. destruct t as [|c t]; [done|]. cbn [read_digits]. by rewrite Ht. }
  destruct k as [|p|p]; [| |lia].
  - exists 0%nat. change (pretty 0 +:+ t) with (String "0" t).
    cbn [read_digits]. change (digit_val "0") with (Some 0). cbv iota beta.
    rewrite Hstop. reflexivity.
  - change (pretty (Z.pos p)) with (pretty (N.pos p)).
    unfold pretty, pretty_N. rewrite decide_False by done.
    rewrite pretty_N_go_app. change ("" +:+ t) with t.
    destruct (read_digits_pretty_N_go (N.pos p)) as (k & Hpos & Hk').
    rewrite Hk', Hstop. destruct k as [|k]; [lia|]. exists k. f_equal.
    + f_equal. lia.
Qed.

Lemma drop_prefix_ci_app role rest : drop_prefix_ci role (role +:+ rest) = Some rest.
Proof.
  induction role as [|a role IH]; [done|].
  change (String a role +:+ rest) with (String a (role +:+ rest)).
  cbn [drop_prefix_ci]. by rewrite Ascii.eqb_refl.
Qed.

Lemma match_background_name k : 0 ≤ k → match_background (background_name k) = Some k.
Proof.
  intros Hk. unfold background_name.
  change ("c" +:+ pretty k +:+ ".png") with (String "c" (pretty k +:+ ".png")).
  cbn [match_background]. change (Ascii.eqb (lower_ascii "c") "c") with true. cbn match.
  destruct (read_digits_pretty k ".png" Hk eq_refl) as [n ->]. done.
Qed.

Lemma match_diff_name role k : 0 ≤ k → match_diff role (diff_name role k) = Some k.
Proof.
  intros Hk. unfold match_diff, diff_name. rewrite drop_prefix_ci_app.
  change ("(" +:+ pretty k +:+ ").png") with (String "(" (pretty k +:+ ").png")).
  cbn [lstrip]. change (is_space "(") with false. cbn match.
  destruct (read_digits_pretty k ").png" Hk eq_refl) as [n ->]. done.
Qed.

Lemma elem_of_collect_indexes rex names k :
  k ∈ collect_indexes rex names ↔ ∃ name, name ∈ names ∧ rex name = Some k.
Proof.
  rewrite collect_indexes_spec, elem_of_list_to_set, list_elem_of_omap. naive_solver.
Qed.

(** X11. The naming contract of the backgrounds.  For every index
    [k ≥ 0], a file named [c<k>.png] (decimal) in the background directory
    is found as background [k]. *)
Theorem background_name_scanned fs names k :
  0 ≤ k →
  background_dir fs = Entries names →
  background_name k ∈ names →
  ∃ found, _scan_backgrounds fs = Ok found ∧ k ∈ found.
Proof.
  intros Hk Hdir Hin. unfold _scan_backgrounds. rewrite Hdir. eexists. split; [done|].
  apply elem_of_collect_indexes. exists (background_name k). split; [done|].
  by apply match_background_name.
Qed.

Lemma background_name_scanned_witness :
  ∃ found, _scan_backgrounds luna_assets = Ok found ∧ 16 ∈ found.
Proof.
  apply (background_name_scanned luna_assets background_names 16);
    [lia | reflexivity |].
  apply (bool_decide_unpack _). vm_compute. exact I.
Defined.

(** X12. The naming contract of the differentials.  For every role and
    every index [k ≥ 0], a file named [<role>(<k>).png] in the directory
    of the role is found as differential [k] of the role. *)
Theorem diff_name_scanned fs role names k :
  0 ≤ k →
  role_dir fs role = Entries names →
  diff_name role k ∈ names →
  ∃ found, _scan_role_diffs fs role = Ok found ∧ k ∈ found.
Proof.
  intros Hk Hdir Hin. unfold _scan_role_diffs. rewrite Hdir. eexists. split; [done|].
  apply elem_of_collect_indexes. exists (diff_name role k). split; [done|].
  by apply match_diff_name.
Qed.

Lemma diff_name_scanned_witness :
  ∃ found, _scan_role_diffs luna_assets "luna" = Ok found ∧ 2 ∈ found.
Proof.
  apply (diff_name_scanned luna_assets "luna" ["luna(1).png"; "luna(2).png"] 2);
    [lia | reflexivity |].
  apply (bool_decide_unpack _). vm_compute. exact I.
Defined.

Lemma digit_val_range c d : digit_val c = Some d → 0 ≤ d ≤ 9.
Proof.
  unfold digit_val. destruct (_ && _) eqn:Hc; [|done]. intros [= <-].
  apply andb_true_iff in Hc as [H1%N.leb_le H2%N.leb_le]. lia.
Qed.

Lemma read_digits_nonneg acc s n v rest :
  0 ≤ acc → read_digits acc s = (n, v, rest) → 0 ≤ v.
Proof.
  revert acc n v rest. induction s as [|c s IH]; intros acc n v rest Hacc;
    cbn [read_digits].
  - by intros [= _ <- _].
  - destruct (digit_val c) as [d|] eqn:Hd; [|by intros [= _ <- _]].
    apply digit_val_range in Hd.
    destruct (read_digits (10 * acc + d) s) as [[n' v'] rest'] eqn:Hr.
    intros [= _ <- _]. eapply (IH (10 * acc + d)); [lia | exact Hr].
Qed.

Lemma match_background_nonneg name k : match_background name = Some k → 0 ≤ k.
Proof.
  unfold match_background. destruct name as [|c rest]; [done|].
  destruct (Ascii.eqb _ _); [|done].
  destruct (read_digits 0 rest) as [[[|n] v] tail] eqn:Hr; [done|].
  destruct (is_png_tail tail); [|done]. intros [= <-].
  by eapply (read_digits_nonneg 0).
Qed.

Lemma match_diff_nonneg role name k : match_diff role name = Some k → 0 ≤ k.
Proof.
  unfold match_diff. destruct (drop_prefix_ci role name) as [rest|]; [|done].
  destruct (lstrip rest) as [|c rest']; [done|].
  destruct c as [[] [] [] [] [] [] [] []]; try done.
  destruct (read_digits 0 rest') as [[[|n] v] tail] eqn:Hr; [done|].
  destruct tail as [|c tail]; [done|].
  destruct c as [[] [] [] [] [] [] [] []]; try done.
  destruct (is_png_tail tail); [|done]. intros [= <-].
  by eapply (read_digits_nonneg 0).
Qed.

(** X13. What the index scanners find.  A background index is found exactly
    when some name listed in the background directory matches the
    background pattern with that index, and likewise a differential of a
    role in the directory of the role; an index found is never negative;
    and a directory that does not exist gives the empty set, not an
    error. *)
Theorem index_scanners_sound fs role :
  (∀ found, _scan_backgrounds fs = Ok found →
     (∀ k, k ∈ found → 0 ≤ k) ∧
     (background_dir fs = NotADirectory → found = ∅) ∧
     ∀ names, background_dir fs = Entries names →
       ∀ k, k ∈ found ↔ ∃ name, name ∈ names ∧ match_background name = Some k) ∧
  (∀ found, _scan_role_diffs fs role = Ok found →
     (∀ k, k ∈ found → 0 ≤ k) ∧
     (role_dir fs role = NotADirectory → found = ∅) ∧
     ∀ names, role_dir fs role = Entries names →
       ∀ k, k ∈ found ↔ ∃ name, name ∈ names ∧ match_diff role name = Some k).
Proof.
  unfold _scan_backgrounds, _scan_role_diffs. split; intros found Hscan.
  - destruct (background_dir fs) as [|names|]; simplify_eq; split_and!; try done.
    + intros k (name & _ & Hk)%elem_of_collect_indexes. by eapply match_background_nonneg.
    + intros names' [= <-] k. apply elem_of_collect_indexes.
  - destruct (role_dir fs role) as [|names|]; simplify_eq; split_and!; try done.
    + intros k (name & _ & Hk)%elem_of_collect_indexes. by eapply match_diff_nonneg.
    + intros names' [= <-] k. apply elem_of_collect_indexes.
Qed.

(** X14. What the role scanner finds.  A name is a role found on disk
    exactly when it is listed in [chara] and is a directory; files are not
    roles; and when [chara] does not exist no role is found, without an
    error. *)
Theorem role_scanner_sound fs found :
  _scan_roles_in_assets fs = Ok found →
  (chara_dir fs = NotADirectory → found = ∅) ∧
  ∀ names, chara_dir fs = Entries names →
    ∀ role, role ∈ found ↔ role ∈ names ∧ chara_isdir fs role = true.
Proof.
  intros Hscan. split.
  - intros Hdir. unfold _scan_roles_in_assets in Hscan. rewrite Hdir in Hscan.
    by simplify_eq.
  - intros names Hdir role. rewrite (scan_roles_spec _ _ Hdir) in Hscan. simplify_eq.
    rewrite elem_of_list_to_set, list_elem_of_filter.
    destruct (chara_isdir fs role); naive_solver.
Qed.

Lemma role_scanner_sound_witness :
  ∃ found, _scan_roles_in_assets ghost_assets = Ok found ∧
           "ghost" ∈ found ∧ "notes.txt" ∉ found.
Proof.
  set (found := ({["luna"]} ∪ {["ghost"]} : gset string)).
  assert (Hscan : _scan_roles_in_assets ghost_assets = Ok (∅ ∪ {["luna"]} ∪ {["ghost"]}))
    by reflexivity.
  destruct (role_scanner_sound ghost_assets _ Hscan) as [_ Hroles].
  eexists. split; [exact Hscan|].
  split; [|intros Hin]; [|apply (Hroles _ eq_refl) in Hin as [_ Hdir]; discriminate].
  apply (Hroles _ eq_refl). split; [|reflexivity]. right. left.
Defined.

(** ** The entry point *)

Example load_all_and_validate_example :
  load_all_and_validate id sample_files "Win32" empty_assets (Some touchy_callback) []
    empty_globals =
  (Globals [("luna", stored_entry 2 "luna.ttf" "")] [("luna", [])]
     ["game.exe"; "launcher.exe"] ∅,
   Ok (Loaded [("luna", stored_entry 2 "luna.ttf" "")] [("luna", [])]
         ["game.exe"; "launcher.exe"] [],
       Report false
         [MissingBackgrounds (seqZ 1 16); MissingRoleDirs ["luna"];
          MissingFont (HStr "luna.ttf"); MissingDiffs "luna" [1; 2]]
         [] (Stats 0 [("luna", RoleStat 2 0)]),
       [ErrorLine (MissingBackgrounds (seqZ 1 16)); ErrorLine (MissingRoleDirs ["luna"]);
        ErrorLine (MissingFont (HStr "luna.ttf")); ErrorLine (MissingDiffs "luna" [1; 2])])).
Proof. vm_compute. reflexivity. Qed.

Lemma fold_left_fmap {A B C} (f : C → B → C) (g : A → B) l c :
  fold_left f (g <$> l) c = fold_left (λ c x, f c (g x)) l c.
Proof. revert c. induction l as [|x l IH]; intros c; simpl; [done | apply IH]. Qed.

Lemma load_all_and_validate_Ok {S} set_iter files os_name fs
    (callback : option (S → callback_line → S * bool)) s g g' ld r s' :
  load_all_and_validate set_iter files os_name fs callback s g = (g', Ok (ld, r, s')) ↔
    ∃ bg,
      _scan_backgrounds fs = Ok bg ∧
      validate_assets set_iter (load_chara_meta (chara_meta_yml files))
        (Some (load_text_configs (text_configs_yml files))) fs = Ok r ∧
      g' = Globals (load_chara_meta (chara_meta_yml files))
             (load_text_configs (text_configs_yml files))
             (load_process_whitelist (process_whitelist_yml files) os_name) bg ∧
      ld = Loaded (MAHOSHOJO g') (TEXT_CONFIGS g') (PROCESS_WHITELIST g')
             (sorted_ints bg) ∧
      s' = match callback with
           | Some cb => fold_left (call_guarded cb) (callback_lines r) s
           | None => s
           end.
Proof.
  unfold load_all_and_validate. cbn [MAHOSHOJO TEXT_CONFIGS PROCESS_WHITELIST
    BACKGROUND_INDEXES].
  destruct (_scan_backgrounds fs) as [bg|e]; [|split; [done | by intros (? & ? & _)]].
  destruct (validate_assets _ _ _ fs) as [r0|e];
    [|split; [done | by intros (? & _ & ? & _)]].
  assert (Hs : ∀ cb : S → callback_line → S * bool,
    fold_left (λ s e, call_guarded cb s (ErrorLine e)) (errors r0)
      (fold_left (λ s w, call_guarded cb s (WarningLine w)) (warnings r0) s) =
    fold_left (call_guarded cb) (callback_lines r0) s).
  { intros cb. unfold callback_lines. rewrite fold_left_app.
    by rewrite !fold_left_fmap. }
  split.
  - intros [= <- <- <- <-]. exists bg. split_and!; try done.
    destruct callback; [apply Hs | done].
  - intros (bg' & [= <-] & [= <-] & -> & -> & ->). cbn.
    destruct callback; [by rewrite Hs | done].
Qed.

Lemma validate_assets_Ok_listable {T} set_iter meta (text_cfg : option (list (string * T)))
    fs r :
  validate_assets set_iter meta text_cfg fs = Ok r → listable fs (Dict.keys meta).
Proof.
  intros (bg & ar & fonts & Hbg & Har & _ & Hall & _)%validate_assets_Ok.
  unfold _scan_backgrounds in Hbg. unfold _scan_roles_in_assets in Har. split_and!.
  - by destruct (background_dir fs).
  - by destruct (chara_dir fs).
  - intros role Hrole. rewrite Forall_forall in Hall. destruct (Hall role Hrole) as [p Hp].
    unfold role_sets in Hp. destruct (Dict.get role meta); [|done].
    cbn [mbind result_bind] in Hp. destruct (emotion_count_of _); [|done].
    cbn [mbind result_bind] in Hp. unfold _scan_role_diffs in Hp.
    by destruct (role_dir fs role).
Qed.




Lemma length_sorted_ints s : length (sorted_ints s) = size s.
Proof. unfold sorted_ints. by rewrite merge_sort_Permutation. Qed.

(** X15. The callback gets every line.  Whatever the callback does, and
    whether or not it raises on some or on all of its calls, when
    [load_all_and_validate] returns the callback has been called exactly
    once with each warning, in order, and then once with each error, in
    order; recording the calls changes nothing else, and the returned
    configuration and report are those of a call without callback. *)
Theorem callback_gets_every_line {S} set_iter files os_name fs
    (callback : S → callback_line → S * bool) s g g' ld r s' calls :
  load_all_and_validate set_iter files os_name fs (Some (recording callback)) (s, []) g =
    (g', Ok (ld, r, (s', calls))) →
  calls = callback_lines r ∧
  load_all_and_validate set_iter files os_name fs (Some callback) s g =
    (g', Ok (ld, r, s')) ∧
  load_all_and_validate set_iter files os_name fs
    (None : option (S → callback_line → S * bool)) s g = (g', Ok (ld, r, s)).
Proof.
  intros (bg & Hbg & Hr & -> & -> & Hs)%load_all_and_validate_Ok.
  assert (Hrec : ∀ lines st,
    fold_left (call_guarded (recording callback)) lines st =
    (fold_left (call_guarded callback) lines st.1, st.2 ++ lines)).
  { assert (Hone : ∀ s0 log l, call_guarded (recording callback) (s0, log) l =
                                (call_guarded callback s0 l, log ++ [l])).
    { intros s0 log l. unfold call_guarded, recording. cbn [fst snd].
      by destruct (callback s0 l). }
    induction lines as [|l lines IH]; intros [s0 log]; cbn [fold_left].
    - by rewrite app_nil_r.
    - rewrite Hone, IH. cbn [fst snd]. by rewrite <-app_assoc. }
  rewrite Hrec in Hs. cbn [fst snd app] in Hs. injection Hs as Hs' Hcalls.
  split_and!; [done|..]; apply load_all_and_validate_Ok; exists bg; by split_and!.
Qed.

Lemma callback_gets_every_line_witness :
  ∃ g' ld r seen,
    load_all_and_validate id sample_files "Win32" empty_assets
      (Some touchy_callback) [] empty_globals = (g', Ok (ld, r, seen)) ∧
    length (errors r) = 4%nat.
Proof.
  destruct (load_all_and_validate id sample_files "Win32" empty_assets
              (Some (recording touchy_callback)) ([], []) empty_globals)
    as [g' [[[ld r] [seen calls]]|e]] eqn:Hrun; [|by vm_compute in Hrun].
  destruct (callback_gets_every_line _ _ _ _ _ _ _ _ _ _ _ _ Hrun) as (_ & Hcb & _).
  exists g', ld, r, seen. split; [exact Hcb|].
  vm_compute in Hrun. by injection Hrun as _ _ <- _ _.
Defined.

(** X16. What the entry point returns.  When [load_all_and_validate]
    returns, the loaded configuration is what the three readers give and
    is also what the globals hold afterwards; the report is that of
    [validate_assets] on this configuration; and the [backgrounds] of the
    loaded configuration list in increasing order, each once, the indices
    in the global [BACKGROUND_INDEXES], as many as the report counts. *)
Theorem load_all_and_validate_returns {S} set_iter files os_name fs
    (callback : option (S → callback_line → S * bool)) s g g' ld r s' :
  load_all_and_validate set_iter files os_name fs callback s g = (g', Ok (ld, r, s')) →
  loaded_mahoshojo ld = load_chara_meta (chara_meta_yml files) ∧
  loaded_text_configs ld = load_text_configs (text_configs_yml files) ∧
  loaded_whitelist ld = load_process_whitelist (process_whitelist_yml files) os_name ∧
  MAHOSHOJO g' = loaded_mahoshojo ld ∧
  TEXT_CONFIGS g' = loaded_text_configs ld ∧
  PROCESS_WHITELIST g' = loaded_whitelist ld ∧
  validate_assets set_iter (loaded_mahoshojo ld) (Some (loaded_text_configs ld)) fs = Ok r ∧
  lists_ints (loaded_backgrounds ld) (.∈ BACKGROUND_INDEXES g') ∧
  length (loaded_backgrounds ld) = stats_backgrounds_found (stats r).
Proof.
  intros (bg & Hbg & Hr & -> & -> & _)%load_all_and_validate_Ok.
  cbn [loaded_mahoshojo loaded_text_configs loaded_whitelist loaded_backgrounds
       MAHOSHOJO TEXT_CONFIGS PROCESS_WHITELIST BACKGROUND_INDEXES].
  split_and!; try done.
  - apply sorted_ints_lists.
  - rewrite length_sorted_ints.
    apply validate_assets_Ok in Hr as (bg' & ar & fonts & Hbg' & _ & _ & _ & ->).
    rewrite Hbg in Hbg'. by simplify_eq.
Qed.

Lemma load_all_and_validate_returns_witness :
  ∃ g' ld r,
    load_all_and_validate id sample_files "Win32" luna_assets
      (None : option (unit → callback_line → unit * bool)) () empty_globals =
      (g', Ok (ld, r, ())) ∧
    loaded_backgrounds ld = seqZ 1 16 ∧
    length (loaded_backgrounds ld) = stats_backgrounds_found (stats r).
Proof.
  destruct (load_all_and_validate id sample_files "Win32" luna_assets
              (None : option (unit → callback_line → unit * bool)) () empty_globals)
    as [g' [[[ld r] []]|e]] eqn:Hrun; [|by vm_compute in Hrun].
  destruct (load_all_and_validate_returns _ _ _ _ _ _ _ _ _ _ _ Hrun)
    as (_ & _ & _ & _ & _ & _ & _ & _ & Hlen).
  exists g', ld, r. split_and!; [reflexivity | | exact Hlen].
  vm_compute in Hrun. injection Hrun as _ <- _. vm_compute. reflexivity.
Defined.


Lemma load_text_configs_invariant data :
  NoDup (Dict.keys (load_text_configs data)) ∧
  Forall (λ kv, Forall (λ e, text e ≠ PNone) kv.2) (load_text_configs data).
Proof.
  unfold load_text_configs.
  destruct data as [[|kv d]|]; try (split; [apply NoDup_nil_2 | constructor]).
  destruct (Dict.get "text_configs" (kv :: d)) as [[]|];
    try (split; [apply NoDup_nil_2 | constructor]).
  rewrite text_loop_keep.
  apply (keep_loop_invariant text_entries_of (Forall (λ e, text e ≠ PNone)));
    [|split; [apply NoDup_nil_2 | constructor]].
  intros v w Hv. unfold text_entries_of in Hv. destruct v; simplify_eq.
  apply Forall_forall. intros e' (item & _ & Hitem)%list_elem_of_omap.
  unfold text_item_ok in Hitem. destruct item as [| | | | |cfg]; try done.
  destruct (parse_text_item cfg) as [e''|] eqn:Hp; simplify_eq.
  unfold parse_text_item in Hp.
  destruct (_to_tuple2 _); [|done]. destruct (_to_tuple3 _); [|done].
  destruct (py_int _); [|done]. cbn in Hp. simplify_eq. cbn [text].
  by destruct (py_get_default "text" (PStr "") cfg).
Qed.

(** X18. The entries [load_text_configs] stores never have a null text:
    whatever the document, no entry of any role of the result has [None]
    as its [text] (a null text is replaced before the entry is stored). *)
Theorem load_text_configs_text_present data role entries e :
  Dict.get role (load_text_configs data) = Some entries →
  e ∈ entries →
  text e ≠ PNone.
Proof.
  intros Hget He. destruct (load_text_configs_invariant data) as [_ Hinv].
  rewrite Forall_forall in Hinv.
  specialize (Hinv (role, entries) (DictFacts.get_Some_elem _ _ _ Hget)).
  cbn [snd] in Hinv. rewrite Forall_forall in Hinv. by apply Hinv.
Qed.

Lemma load_text_configs_text_present_witness :
  ∃ entries, Dict.get "luna" (load_text_configs null_text_data) = Some entries ∧
             Forall (λ e, text e ≠ PNone) entries.
Proof.
  exists [TextEntry (PStr "") (10, 20) (255, 0, 0) 12]. split; [reflexivity|].
  repeat constructor.
  apply (load_text_configs_text_present null_text_data "luna"
           [TextEntry (PStr "") (10, 20) (255, 0, 0) 12]); [reflexivity | left].
Defined.

(** ** Reading back what was loaded *)

Lemma dict_set_fresh {V} k (v : V) acc :
  k ∉ Dict.keys acc → Dict.set k v acc = acc ++ [(k, v)].
Proof.
  unfold Dict.keys. induction acc as [|[k0 v0] acc IH]; cbn [Dict.set]; [done|].
  cbn [fmap list_fmap fst]. intros [Hne Hnot]%not_elem_of_cons.
  destruct (String.eqb_spec k k0); [done|]. by rewrite IH.
Qed.

Lemma keep_loop_reload {W} (f : pyval → option W) (g : W → pyval) tc acc :
  Forall (λ kv, f (g kv.2) = Some kv.2) tc →
  NoDup (Dict.keys (acc ++ tc)) →
  fold_left (keep_step f) (prod_map id g <$> tc) acc = acc ++ tc.
Proof.
  intros Hall. revert acc. induction Hall as [|[k w] tc Hkw _ IH]; intros acc Hnd.
  - by rewrite app_nil_r.
  - rewrite fmap_cons. cbn [fold_left]. unfold keep_step at 2. cbn [prod_map fst snd id].
    cbn [snd] in Hkw. rewrite Hkw.
    rewrite dict_set_fresh.
    + rewrite IH; rewrite <-app_assoc; [done|]. exact Hnd.
    + unfold Dict.keys in *. rewrite fmap_app in Hnd.
      apply NoDup_app in Hnd as (_ & Hdisj & _). intros Hin.
      apply (Hdisj k Hin). left.
Qed.

Lemma chara_entry_of_stored entry : is_stored_entry entry → chara_entry_of entry = Some entry.
Proof.
  intros (ec & font & fn & -> & Hec & Hfont).
  unfold chara_entry_of, stored_entry, parse_chara_cfg. cbn.
  destruct (Z.leb_spec ec 0); [lia|].
  by destruct (String.eqb_spec font "").
Qed.

Lemma prod_map_id_id {A B} (l : list (A * B)) : prod_map id id <$> l = l.
Proof. induction l as [|[a b] l IH]; [done|]. rewrite fmap_cons, IH. done. Qed.

(** X19. [load_chara_meta] reads back what it loaded: the metadata it
    returns for any document, written out as the [mahoshojo] mapping of a
    new document, is loaded unchanged (same roles, same order, same
    entries). *)
Theorem load_chara_meta_reload data :
  load_chara_meta (chara_document (load_chara_meta data)) = load_chara_meta data.
Proof.
  destruct (load_chara_meta_invariant data) as [Hnd Hst].
  set (meta := load_chara_meta data) in *.
  unfold chara_document, load_chara_meta at 1. cbn [Dict.get].
  change (String.eqb "mahoshojo" "mahoshojo") with true. cbn match.
  rewrite chara_loop_keep. rewrite <-(prod_map_id_id meta) at 1.
  apply (keep_loop_reload chara_entry_of id meta []); [|done].
  eapply Forall_impl; [exact Hst|]. intros kv. apply chara_entry_of_stored.
Qed.

Lemma text_item_ok_item_of_entry e : text e ≠ PNone → text_item_ok (item_of_entry e) = Some e.
Proof.
  destruct e as [t [x y] [[cr cg] cb] sz]. cbn [text]. intros Ht.
  unfold text_item_ok, item_of_entry, parse_text_item. cbn.
  by destruct t.
Qed.

Lemma text_entries_of_items es :
  Forall (λ e, text e ≠ PNone) es →
  text_entries_of (PList (item_of_entry <$> es)) = Some es.
Proof.
  intros Hes. unfold text_entries_of. f_equal.
  induction Hes as [|e es He _ IH]; [done|].
  rewrite fmap_cons. cbn [omap list_omap]. rewrite text_item_ok_item_of_entry by done.
  by rewrite <-IH at 2.
Qed.

(** X20. [load_text_configs] reads back what it loaded: the configuration
    it returns for any document, written out item by item as the
    [text_configs] mapping of a new document, is loaded unchanged (same
    roles, same order, same entries in the same order). *)
Theorem load_text_configs_reload data :
  load_text_configs (text_document (load_text_configs data)) = load_text_configs data.
Proof.
  destruct (load_text_configs_invariant data) as [Hnd Htext].
  set (tc := load_text_configs data) in *.
  unfold text_document, load_text_configs at 1. cbn [Dict.get].
  change (String.eqb "text_configs" "text_configs") with true. cbn match.
  rewrite text_loop_keep.
  apply (keep_loop_reload text_entries_of (λ es, PList (item_of_entry <$> es)) tc []);
    [|done].
  eapply Forall_impl; [exact Htext|]. intros kv. apply text_entries_of_items.
Qed.

(** ** Adding files *)

Lemma collect_indexes_mono rex names names' :
  names ⊆ names' → collect_indexes rex names ⊆ collect_indexes rex names'.
Proof.
  intros Hsub k. rewrite !elem_of_collect_indexes.
  intros (name & Hname & Hk). exists name. split; [by apply Hsub|done].
Qed.

Lemma scan_backgrounds_mono fs fs' bg :
  listing_le (background_dir fs) (background_dir fs') →
  _scan_backgrounds fs = Ok bg →
  ∃ bg', _scan_backgrounds fs' = Ok bg' ∧ bg ⊆ bg'.
Proof.
  unfold _scan_backgrounds, listing_le.
  destruct (background_dir fs), (background_dir fs'); intros Hle Hbg;
    try done; simplify_eq; eexists; (split; [done|]).
  - done.
  - apply empty_subseteq.
  - by apply collect_indexes_mono.
Qed.

Lemma scan_role_diffs_mono fs fs' role found :
  listing_le (role_dir fs role) (role_dir fs' role) →
  _scan_role_diffs fs role = Ok found →
  ∃ found', _scan_role_diffs fs' role = Ok found' ∧ found ⊆ found'.
Proof.
  unfold _scan_role_diffs, listing_le.
  destruct (role_dir fs role), (role_dir fs' role); intros Hle Hbg;
    try done; simplify_eq; eexists; (split; [done|]).
  - done.
  - apply empty_subseteq.
  - by apply collect_indexes_mono.
Qed.

Lemma scan_roles_mono fs fs' ar :
  listing_le (chara_dir fs) (chara_dir fs') →
  (∀ name, chara_isdir fs name = true → chara_isdir fs' name = true) →
  _scan_roles_in_assets fs = Ok ar →
  ∃ ar', _scan_roles_in_assets fs' = Ok ar' ∧ ar ⊆ ar'.
Proof.
  unfold listing_le. intros Hle Hdir Har.
  destruct (chara_dir fs) as [|names|] eqn:Hfs, (chara_dir fs') as [|names'|] eqn:Hfs';
    try done.
  - unfold _scan_roles_in_assets in *. rewrite Hfs in Har. rewrite Hfs'. simplify_eq.
    by eexists.
  - unfold _scan_roles_in_assets in Har. rewrite Hfs in Har. simplify_eq.
    rewrite (scan_roles_spec _ _ Hfs'). eexists. split; [done|]. apply empty_subseteq.
  - rewrite (scan_roles_spec _ _ Hfs) in Har. simplify_eq.
    rewrite (scan_roles_spec _ _ Hfs'). eexists. split; [done|].
    intros role. rewrite !elem_of_list_to_set, !list_elem_of_filter.
    intros [Hd Hin]. split; [|by apply Hle].
    destruct (chara_isdir fs role) eqn:E; [|done]. by rewrite (Hdir _ E).
Qed.

Lemma listable_mono fs fs' roles :
  assets_le fs fs' → listable fs roles → listable fs' roles.
Proof.
  unfold assets_le, listable, listing_le.
  intros (Hbg & Hch & _ & Hrole & _) (Lbg & Lch & Lrole). split_and!.
  - by destruct (background_dir fs), (background_dir fs').
  - by destruct (chara_dir fs), (chara_dir fs').
  - intros role Hin. specialize (Hrole role). specialize (Lrole role Hin).
    by destruct (role_dir fs role), (role_dir fs' role).
Qed.

(** X21. Adding files never invalidates the assets.  When the report for
    loaded metadata is [ok] and the assets directory then only grows (more
    names in the directories that were listed, directories that did not
    exist created, directories and font files that existed kept), the
    validator returns again and the new report is [ok] as well. *)
Theorem added_files_keep_ok {T} set_iter meta (text_cfg : option (list (string * T)))
    fs fs' r :
  (∀ fonts, set_iter fonts ≡ₚ fonts) →
  Forall (λ kv, is_stored_entry kv.2) meta →
  assets_le fs fs' →
  validate_assets set_iter meta text_cfg fs = Ok r →
  ok r = true →
  ∃ r', validate_assets set_iter meta text_cfg fs' = Ok r' ∧ ok r' = true.
Proof.
  intros Hperm Hst Hle Hr Hok.
  assert (Hwt : Forall (λ kv, well_typed_entry kv.2) meta).
  { eapply Forall_impl; [exact Hst|]. intros kv. apply stored_entry_well_typed. }
  destruct (validate_assets_is_Ok set_iter meta text_cfg fs' Hwt) as [r' Hr'].
  { eapply listable_mono; [exact Hle|]. by eapply validate_assets_Ok_listable. }
  exists r'. split; [done|].
  apply (clean_report_iff set_iter meta text_cfg fs r Hperm Hst Hr) in Hok
    as ((bg & Hbg & Hbgk) & (ar & Har & Hark) & Hroles).
  destruct Hle as (Lbg & Lch & Ldir & Lrole & Lfont).
  apply (clean_report_iff set_iter meta text_cfg fs' r' Hperm Hst Hr'). split_and!.
  - destruct (scan_backgrounds_mono _ _ _ Lbg Hbg) as (bg' & Hbg' & Hsub).
    exists bg'. split; [done|]. intros k Hk. by apply Hsub, Hbgk.
  - destruct (scan_roles_mono _ _ _ Lch Ldir Har) as (ar' & Har' & Hsub).
    exists ar'. split; [done|]. intros role Hrole. by apply Hsub, Hark.
  - intros role ec font full_name Hget.
    destruct (Hroles _ _ _ _ Hget) as (Hfont & found & Hfound & Hk).
    split; [by apply Lfont|].
    destruct (scan_role_diffs_mono _ _ _ _ (Lrole role) Hfound) as (found' & Hfound' & Hsub).
    exists found'. split; [done|]. intros k Hk'. by apply Hsub, Hk.
Qed.

Lemma added_files_keep_ok_witness :
  ∃ r', validate_assets id luna_meta
          (None : option (list (string * list text_entry))) crowded_assets = Ok r' ∧
        ok r' = true.
Proof.
  set (r := Report true [] [] (Stats 16 [("luna", RoleStat 2 2)])).
  assert (Hr : validate_assets id luna_meta
                 (None : option (list (string * list text_entry))) luna_assets = Ok r)
    by (vm_compute; reflexivity).
  assert (Hst : Forall (λ kv : string * pyval, is_stored_entry kv.2) luna_meta).
  { repeat constructor. exists 2, "luna.ttf", "". by split_and!. }
  assert (Hle : assets_le luna_assets crowded_assets).
  { unfold assets_le, luna_assets, crowded_assets.
    cbn [background_dir chara_dir chara_isdir role_dir font_isfile listing_le]. split_and!.
    - intros name Hname. apply elem_of_app. by left.
    - intros name Hname. apply elem_of_cons. left. by apply list_elem_of_singleton.
    - done.
    - intros role. destruct (String.eqb role "luna"); cbn [listing_le]; [|done].
      intros name [->|[->|[]%elem_of_nil]%elem_of_cons]%elem_of_cons.
      + left.
      + right. left.
    - intros font ->. done. }
  exact (added_files_keep_ok id luna_meta None luna_assets crowded_assets r
           (λ fonts, reflexivity fonts) Hst Hle Hr eq_refl).
Defined.
